(** * nxlog4go file appender: a shallow embedding and its properties

    The development follows the Go sources of the [filelog] appender
    ([FileAppender], [nextTime], [writeLoop], [SetOption]) and of the
    [nxlog4go] helpers it calls ([StrToNumSuffix], the error values).

    Conventions.
    - Go's [int] and [int64] are 64 bits wide; they are carried as [Z] and
      every arithmetic operation of the source that can overflow is
      wrapped with [wrap64].
    - Go strings are byte strings: [string]; [[]byte] is [list Byte.byte].
    - A goroutine is a task record with a program counter; one step of the
      system is one atomic block of one goroutine.
    - Readings of the environment ([time.Now()]) are arguments of the
      function that performs them, in program order. *)

From Stdlib Require Import ZArith Lia Bool Ascii String List.
From stdpp Require Import base list strings.
Import ListNotations.

#[local] Open Scope string_scope.
#[local] Open Scope list_scope.
#[local] Open Scope Z_scope.

Ltac Zify.zify_post_hook ::= Z.to_euclidean_division_equations.

(* ================================================================== *)
(** ** Machine integers *)

Definition MaxInt64 : Z := 2 ^ 63 - 1.
Definition MinInt64 : Z := - 2 ^ 63.

(** Two's complement wrap-around of a 64-bit signed integer. *)
Definition wrap64 (z : Z) : Z := (z + 2 ^ 63) mod 2 ^ 64 - 2 ^ 63.

(** Signed 64-bit multiplication, as [a * b] on Go's [int]. *)
Definition mul64 (a b : Z) : Z := wrap64 (a * b).

(** Saturation to the 64-bit range (used by [Time.Sub]). *)
Definition clamp64 (z : Z) : Z := Z.max MinInt64 (Z.min MaxInt64 z).

Definition in_int64 (z : Z) : Prop := MinInt64 <= z <= MaxInt64.

(* ================================================================== *)
(** ** Package [strings] *)

Module strings.

Definition in_cutset (cutset : string) (c : ascii) : bool :=
  existsb (Ascii.eqb c) (list_ascii_of_string cutset).

Fixpoint TrimLeft (s cutset : string) : string :=
  match s with
  | EmptyString => EmptyString
  | String c s' => if in_cutset cutset c then TrimLeft s' cutset else s
  end.

Fixpoint TrimRight (s cutset : string) : string :=
  match s with
  | EmptyString => EmptyString
  | String c s' =>
      match TrimRight s' cutset with
      | EmptyString => if in_cutset cutset c then EmptyString else String c EmptyString
      | r => String c r
      end
  end.

(** [strings.Trim(s, cutset)]: [s] without the leading and trailing
    bytes contained in [cutset] (the cutsets of the source are ASCII). *)
Definition Trim (s cutset : string) : string :=
  TrimRight (TrimLeft s cutset) cutset.

End strings.

(** The cutset [" \r\n"] used at every call site. *)
Definition cutset_ws : string :=
  String " " (String (ascii_of_nat 13) (String (ascii_of_nat 10) EmptyString)).

(* ================================================================== *)
(** ** Package [strconv] *)

Module strconv.

Definition is_digit (c : ascii) : bool :=
  let n := Z.of_nat (nat_of_ascii c) in (48 <=? n) && (n <=? 57).

Definition digit_val (c : ascii) : Z := Z.of_nat (nat_of_ascii c) - 48.

(** The digit loop of [ParseUint] in base 10, accumulating from [acc];
    [None] is the syntax error on a byte that is not a digit. *)
Fixpoint digits_from (acc : Z) (s : string) : option Z :=
  match s with
  | EmptyString => Some acc
  | String c s' =>
      if is_digit c then digits_from (acc * 10 + digit_val c) s' else None
  end.

Definition parse_digits (s : string) : option Z :=
  match s with
  | EmptyString => None
  | _ => digits_from 0 s
  end.

(** [strconv.Atoi(s)], as [(value, err != nil)]: an optional sign and
    decimal digits; a syntax error gives 0, a value outside [int] gives
    the nearest bound together with the range error. *)
Definition Atoi (s : string) : Z * bool :=
  match s with
  | EmptyString => (0, true)
  | String c rest =>
      let neg := Ascii.eqb c "-" in
      let body := if neg || Ascii.eqb c "+" then rest else s in
      match parse_digits body with
      | None => (0, true)
      | Some un =>
          if neg then
            if 2 ^ 63 <? un then (MinInt64, true) else (- un, false)
          else
            if 2 ^ 63 <=? un then (MaxInt64, true) else (un, false)
      end
  end.

End strconv.

(* ================================================================== *)
(** ** Go strings: last byte and prefix *)

(** [str[len(str)-1]]; [None] on the empty string (Go panics there; the
    source guards the access with [len(str) > 1]). *)
Fixpoint last_byte (s : string) : option ascii :=
  match s with
  | EmptyString => None
  | String c EmptyString => Some c
  | String _ s' => last_byte s'
  end.

(** [str[0 : len(str)-1]]. *)
Fixpoint drop_last (s : string) : string :=
  match s with
  | EmptyString => EmptyString
  | String _ EmptyString => EmptyString
  | String c s' => String c (drop_last s')
  end.

(** The comparison [b == 'c'] of a [switch] on a byte. *)
Definition byte_is (b : option ascii) (c : ascii) : bool :=
  match b with
  | Some x => Ascii.eqb x c
  | None => false
  end.

(* ================================================================== *)
(** ** Package [nxlog4go] (imported as [l4g]) *)

Module l4g.

(** The error values of the package, and any other error (I/O errors of
    the operating system, errors of a layout). *)
Inductive error : Type :=
| ErrBadOption
| ErrBadValue
| ErrOther (msg : string).

(** A dynamically typed value, [interface{}]: the dynamic types the
    type switches of the source distinguish, and every other one. *)
Inductive Value : Type :=
| VInt (n : Z)
| VString (s : string)
| VBool (b : bool)
| VBytes (bs : list Byte.byte)
| VOther (type_name : string).

(** [StrToNumSuffix(str, mult)]. The [switch] falls through from
    ['G'] to ['M'] to ['K']: [num] is multiplied three, two or one
    times, and the suffix byte is cut off in the last case. *)
Definition StrToNumSuffix (str : string) (mult : Z) : Z :=
  let num := 1 in
  let '(num, str) :=
    if 1 <? Z.of_nat (String.length str) then
      let c := last_byte str in
      if byte_is c "G" || byte_is c "g" then
        (mul64 (mul64 (mul64 num mult) mult) mult, drop_last str)
      else if byte_is c "M" || byte_is c "m" then
        (mul64 (mul64 num mult) mult, drop_last str)
      else if byte_is c "K" || byte_is c "k" then
        (mul64 num mult, drop_last str)
      else (num, str)
    else (num, str) in
  let parsed := fst (strconv.Atoi str) in
  mul64 parsed num.

(** The interface [Layout], for the two methods the appender calls:
    [Format(rec)] and [SetOption(name, v)], the latter returning its
    error together with the layout it leaves. *)
Class Layout (LogRecord L : Type) : Type := {
  Format : L -> LogRecord -> list Byte.byte;
  LayoutSetOption : string -> Value -> L -> option error * L
}.

End l4g.

(* ================================================================== *)
(** ** Package [time]

    An instant is a number of nanoseconds since the Unix epoch (of any
    size: the range of [time.Time] is far wider than that of a duration)
    together with its location; a location is a fixed offset from UTC, so
    a calendar day has 86400 seconds, and wall clock and monotonic clock
    are one.  The calendar is the proleptic Gregorian one, as in Go. *)

Module time.

(** [time.Duration]: [int64] nanoseconds. *)
Definition Duration : Type := Z.

Definition Second : Duration := 1000000000.

Record Location : Type := mkLocation { offset : Z (* seconds east of UTC *) }.

Record Time : Type := mkTime { unixNano : Z; loc : Location }.

(** [t.Add(d)]. *)
Definition Add (t : Time) (d : Duration) : Time :=
  mkTime (unixNano t + d) (loc t).

(** [t.Sub(u)]: the difference, saturated to the range of [Duration]. *)
Definition Sub (t u : Time) : Duration := clamp64 (unixNano t - unixNano u).

(** Days since 1970-01-01 to (year, month, day) and back. *)
Definition civil_from_days (z0 : Z) : Z * Z * Z :=
  let z := z0 + 719468 in
  let era := z / 146097 in
  let doe := z - era * 146097 in
  let yoe := (doe - doe / 1460 + doe / 36524 - doe / 146096) / 365 in
  let y := yoe + era * 400 in
  let doy := doe - (365 * yoe + yoe / 4 - yoe / 100) in
  let mp := (5 * doy + 2) / 153 in
  let d := doy - (153 * mp + 2) / 5 + 1 in
  let m := if mp <? 10 then mp + 3 else mp - 9 in
  (if m <=? 2 then y + 1 else y, m, d).

Definition days_from_civil (y0 m d : Z) : Z :=
  let y := if m <=? 2 then y0 - 1 else y0 in
  let era := y / 400 in
  let yoe := y - era * 400 in
  let mp := if 2 <? m then m - 3 else m + 9 in
  let doy := (153 * mp + 2) / 5 + d - 1 in
  let doe := yoe * 365 + yoe / 4 - yoe / 100 + doy in
  era * 146097 + doe - 719468.

(** Seconds since the epoch on the wall clock of the instant's location. *)
Definition local_seconds (t : Time) : Z :=
  unixNano t / Second + offset (loc t).

Definition local_days (t : Time) : Z := local_seconds t / 86400.

Definition Year (t : Time) : Z := fst (fst (civil_from_days (local_days t))).
Definition Month (t : Time) : Z := snd (fst (civil_from_days (local_days t))).
Definition Day (t : Time) : Z := snd (civil_from_days (local_days t)).

(** [time.Date(year, month, day, hour, min, sec, nsec, loc)]; values
    outside their usual ranges are normalised: months overflow into the
    year, the smaller units into the day count. *)
Definition Date (year month day hour min sec nsec : Z) (l : Location) : Time :=
  let m := month - 1 in
  let year := year + m / 12 in
  let month := m mod 12 + 1 in
  let days := days_from_civil year month 1 + (day - 1) in
  let secs := days * 86400 + hour * 3600 + min * 60 + sec - offset l in
  mkTime (secs * Second + nsec) l.

(** The zero value [time.Time{}]: January 1, year 1, 00:00:00 UTC. *)
Definition zero : Time := mkTime (-62135596800 * Second) (mkLocation 0).

End time.

(* ================================================================== *)
(** ** Channels

    A buffered channel: the queue of the elements sent and not yet
    received, its capacity, and whether it was closed.  An operation
    returns, blocks, or panics. *)

Inductive Res (A : Type) : Type :=
| Ret (a : A)
| Block
| Panic.

Arguments Ret {A} a.
Arguments Block {A}.
Arguments Panic {A}.

#[global] Instance Res_ret : MRet Res := fun A a => Ret a.

#[global] Instance Res_bind : MBind Res := fun A B k r =>
  match r with
  | Ret a => k a
  | Block => Block
  | Panic => Panic
  end.

Record Chan (A : Type) : Type := mkChan {
  buf : list A;
  cap : nat;
  closed : bool
}.

Arguments mkChan {A} buf cap closed.
Arguments buf {A} c.
Arguments cap {A} c.
Arguments closed {A} c.

(** [make(chan A, n)]. *)
Definition make_chan {A : Type} (n : nat) : Chan A := mkChan [] n false.

(** [len(ch)]. *)
Definition chan_len {A : Type} (ch : Chan A) : Z := Z.of_nat (length (buf ch)).

Definition enqueue {A : Type} (x : A) (ch : Chan A) : Chan A :=
  mkChan (buf ch ++ [x]) (cap ch) (closed ch).

(** [ch <- x]: panics on a closed channel, blocks on a full one. *)
Definition chan_send {A : Type} (x : A) (ch : Chan A) : Res (Chan A) :=
  if closed ch then Panic
  else if (length (buf ch) <? cap ch)%nat then Ret (enqueue x ch)
  else Block.

(** [x, ok := <-ch]: the oldest element with [ok = true]; on a closed and
    empty channel the zero value with [ok = false]; blocks on an open and
    empty channel. *)
Definition chan_recv {A : Type} (zero : A) (ch : Chan A) : Res (A * bool * Chan A) :=
  match buf ch with
  | x :: rest => Ret (x, true, mkChan rest (cap ch) (closed ch))
  | [] => if closed ch then Ret (zero, false, ch) else Block
  end.

(** [close(ch)]: panics when the channel is closed already. *)
Definition chan_close {A : Type} (ch : Chan A) : Res (Chan A) :=
  if closed ch then Panic else Ret (mkChan (buf ch) (cap ch) true).

(* ================================================================== *)
(** ** The rotating file writer, [l4g.RotateFileWriter] *)

Module rfw.

(** The calls a writer has received, oldest first. *)
Inductive Call : Type :=
| CallWrite (bb : list Byte.byte)
| CallFlush
| CallRotate
| CallClose.

(** Modelled from the spec: [l4g.RotateFileWriter], whose source is not
    part of the files at hand.  The spec gives it a file name, a flush
    size, a backup count, head and foot templates, a size threshold
    (0 is unlimited) and the size accumulated since the last rotation,
    which a rotation resets to the length of the head; with a positive
    threshold the writer rotates by itself when a write would exceed
    it.  The calls it received are kept as its observable history. *)
Record RotateFileWriter : Type := mkWriter {
  filename : string;
  flush : Z;
  maxbackup : Z;
  maxsize : Z;
  head : string;
  foot : string;
  size : Z;
  calls : list Call
}.

Definition SetFileName (v : string) (w : RotateFileWriter) : RotateFileWriter :=
  mkWriter v (flush w) (maxbackup w) (maxsize w) (head w) (foot w) (size w) (calls w).
Definition SetFlush (v : Z) (w : RotateFileWriter) : RotateFileWriter :=
  mkWriter (filename w) v (maxbackup w) (maxsize w) (head w) (foot w) (size w) (calls w).
Definition SetMaxBackup (v : Z) (w : RotateFileWriter) : RotateFileWriter :=
  mkWriter (filename w) (flush w) v (maxsize w) (head w) (foot w) (size w) (calls w).
Definition SetMaxSize (v : Z) (w : RotateFileWriter) : RotateFileWriter :=
  mkWriter (filename w) (flush w) (maxbackup w) v (head w) (foot w) (size w) (calls w).
Definition SetHead (v : string) (w : RotateFileWriter) : RotateFileWriter :=
  mkWriter (filename w) (flush w) (maxbackup w) (maxsize w) v (foot w) (size w) (calls w).
Definition SetFoot (v : string) (w : RotateFileWriter) : RotateFileWriter :=
  mkWriter (filename w) (flush w) (maxbackup w) (maxsize w) (head w) v (size w) (calls w).

Definition Size (w : RotateFileWriter) : Z := size w.

(** Modelled from the spec: the four operations of the writer the loop
    and [Close] call.  Each is added to the history; a write adds its
    length to the size, after the rotation the writer does by itself
    when its threshold is positive and the write would exceed it; a
    rotation resets the size to the length of the head. *)
Definition record (c : Call) (sz : Z) (w : RotateFileWriter) : RotateFileWriter :=
  mkWriter (filename w) (flush w) (maxbackup w) (maxsize w) (head w) (foot w)
           sz (calls w ++ [c]).

Definition Write (bb : list Byte.byte) (w : RotateFileWriter) : RotateFileWriter :=
  let n := Z.of_nat (length bb) in
  let base :=
    if (0 <? maxsize w) && (maxsize w <? size w + n)
    then Z.of_nat (String.length (head w)) else size w in
  record (CallWrite bb) (base + n) w.

Definition Flush (w : RotateFileWriter) : RotateFileWriter :=
  record CallFlush (size w) w.

Definition Rotate (w : RotateFileWriter) : RotateFileWriter :=
  record CallRotate (Z.of_nat (String.length (head w))) w.

Definition Close (w : RotateFileWriter) : RotateFileWriter :=
  record CallClose (size w) w.

(** The payloads of the [Write] calls, in call order. *)
Fixpoint writes (cs : list Call) : list (list Byte.byte) :=
  match cs with
  | [] => []
  | CallWrite bb :: cs' => bb :: writes cs'
  | _ :: cs' => writes cs'
  end.

(** The number of explicit [Rotate] calls. *)
Fixpoint rotations (cs : list Call) : nat :=
  match cs with
  | [] => 0%nat
  | CallRotate :: cs' => S (rotations cs')
  | _ :: cs' => rotations cs'
  end.


End rfw.

(* ================================================================== *)
(** ** Package [filelog] *)

Module filelog.

Section Filelog.

Import l4g.

(** What the appender takes from outside the files at hand: the layout
    (an interface), the constructors of its two collaborators, the
    channel capacity [l4g.LogBufferLength], [time.ParseDuration] with
    its result [(duration, err != nil)], and the result of
    [os.MkdirAll(path.Dir(filename), l4g.FilePermDefault)]. *)
Context {LogRecord L : Type} `{!Layout LogRecord L}.
Variable NewPatternLayout : L.
Variable NewRotateFileWriter : string -> rfw.RotateFileWriter.
Variable LogBufferLength : nat.
Variable ParseDuration : string -> time.Duration * bool.
Variable MkdirAll : string -> option error.

Record FileAppender : Type := mkFileAppender {
  layout : L;
  messages : Chan (list Byte.byte);
  out : rfw.RotateFileWriter;
  maxsize : Z;
  cycle : Z;
  clock : Z;
  loopRunning : bool;
  loopReset : Chan time.Time
}.

Definition set_layout (v : L) (fa : FileAppender) : FileAppender :=
  mkFileAppender v (messages fa) (out fa) (maxsize fa) (cycle fa) (clock fa)
                 (loopRunning fa) (loopReset fa).
Definition set_messages (v : Chan (list Byte.byte)) (fa : FileAppender) : FileAppender :=
  mkFileAppender (layout fa) v (out fa) (maxsize fa) (cycle fa) (clock fa)
                 (loopRunning fa) (loopReset fa).
Definition set_out (v : rfw.RotateFileWriter) (fa : FileAppender) : FileAppender :=
  mkFileAppender (layout fa) (messages fa) v (maxsize fa) (cycle fa) (clock fa)
                 (loopRunning fa) (loopReset fa).
Definition set_maxsize (v : Z) (fa : FileAppender) : FileAppender :=
  mkFileAppender (layout fa) (messages fa) (out fa) v (cycle fa) (clock fa)
                 (loopRunning fa) (loopReset fa).
Definition set_cycle (v : Z) (fa : FileAppender) : FileAppender :=
  mkFileAppender (layout fa) (messages fa) (out fa) (maxsize fa) v (clock fa)
                 (loopRunning fa) (loopReset fa).
Definition set_clock (v : Z) (fa : FileAppender) : FileAppender :=
  mkFileAppender (layout fa) (messages fa) (out fa) (maxsize fa) (cycle fa) v
                 (loopRunning fa) (loopReset fa).
Definition set_loopRunning (v : bool) (fa : FileAppender) : FileAppender :=
  mkFileAppender (layout fa) (messages fa) (out fa) (maxsize fa) (cycle fa) (clock fa)
                 v (loopReset fa).
Definition set_loopReset (v : Chan time.Time) (fa : FileAppender) : FileAppender :=
  mkFileAppender (layout fa) (messages fa) (out fa) (maxsize fa) (cycle fa) (clock fa)
                 (loopRunning fa) v.

(** [NewAppender(filename, maxbackup)]; [maxsize] has its zero value. *)
Definition NewAppender (filename : string) (maxbackup : Z) : FileAppender :=
  {| layout := NewPatternLayout;
     messages := make_chan LogBufferLength;
     out := rfw.SetMaxBackup maxbackup (NewRotateFileWriter filename);
     maxsize := 0;
     cycle := 86400;
     clock := -1;
     loopRunning := false;
     loopReset := make_chan LogBufferLength |}.

(** [Write(rec)]: the formatted record is sent on [messages]. *)
Definition Write (rec : LogRecord) (fa : FileAppender) : Res FileAppender :=
  ch ← chan_send (Format (layout fa) rec) (messages fa);
  mret (set_messages ch fa).

(** [nextTime(cycle, clock)]; [now] is the reading of [time.Now()]. *)
Definition nextTime (now : time.Time) (cycle clock : Z) : time.Time :=
  let cycle := if cycle <=? 0 then 86400 else cycle in
  let nrt := now in
  if clock <? 0 then
    time.Add nrt (mul64 cycle time.Second)
  else
    let nextCycle := time.Add nrt (mul64 cycle time.Second) in
    let nrt := time.Date (time.Year nextCycle) (time.Month nextCycle)
                         (time.Day nextCycle) 0 0 0 0 (time.loc nextCycle) in
    time.Add nrt (mul64 clock time.Second).

(** [if fa.loopRunning { fa.loopReset <- time.Now() }], the closing
    statement of the [cycle], [clock] and [daily] cases of [SetOption]. *)
Definition post_reset (now : time.Time) (fa : FileAppender)
  : Res (option error * FileAppender) :=
  if loopRunning fa then
    ch ← chan_send now (loopReset fa);
    mret (None, set_loopReset ch fa)
  else mret (None, fa).

(** [SetOption(name, v)], run under [fa.mu]: the error returned and the
    appender it leaves.  [now] is the reading of [time.Now()] for the
    token sent on [loopReset]. *)
Definition SetOption (name : string) (v : Value) (now : time.Time)
           (fa : FileAppender) : Res (option error * FileAppender) :=
  if String.eqb name "filename" then
    match v with
    | VString filename =>
        if Z.of_nat (String.length filename) <=? 0 then mret (Some ErrBadValue, fa)
        else
          match MkdirAll filename with
          | Some err => mret (Some err, fa)
          | None => mret (None, set_out (rfw.SetFileName filename (out fa)) fa)
          end
    | _ => mret (Some ErrBadValue, fa)
    end
  else if String.eqb name "flush" then
    match v with
    | VInt value =>
        mret (None, set_out (rfw.SetFlush value (out fa)) fa)
    | VString value =>
        let flush := StrToNumSuffix (strings.Trim value cutset_ws) 1024 in
        mret (None, set_out (rfw.SetFlush flush (out fa)) fa)
    | _ => mret (Some ErrBadValue, fa)
    end
  else if String.eqb name "maxbackup" then
    match v with
    | VInt value =>
        mret (None, set_out (rfw.SetMaxBackup value (out fa)) fa)
    | VString value =>
        let maxbackup := StrToNumSuffix (strings.Trim value cutset_ws) 1 in
        mret (None, set_out (rfw.SetMaxBackup maxbackup (out fa)) fa)
    | _ => mret (Some ErrBadValue, fa)
    end
  else if String.eqb name "maxsize" then
    let after (new_maxsize : Z) :=
      let fa := set_maxsize new_maxsize fa in
      let fa := if cycle fa <=? 0
                then set_out (rfw.SetMaxSize (maxsize fa) (out fa)) fa
                else fa in
      mret (None, fa) in
    match v with
    | VInt value => after value
    | VString value => after (StrToNumSuffix (strings.Trim value cutset_ws) 1024)
    | _ => mret (Some ErrBadValue, fa)
    end
  else if String.eqb name "pattern" || String.eqb name "format"
          || String.eqb name "utc" then
    let '(err, l) := LayoutSetOption name v (layout fa) in
    mret (err, set_layout l fa)
  else if String.eqb name "head" then
    match v with
    | VString header => mret (None, set_out (rfw.SetHead header (out fa)) fa)
    | _ => mret (Some ErrBadValue, fa)
    end
  else if String.eqb name "foot" then
    match v with
    | VString footer => mret (None, set_out (rfw.SetFoot footer (out fa)) fa)
    | _ => mret (Some ErrBadValue, fa)
    end
  else if String.eqb name "cycle" then
    let after (fa : FileAppender) :=
      let fa := if cycle fa <=? 0
                then set_out (rfw.SetMaxSize (maxsize fa) (out fa)) fa
                else set_out (rfw.SetMaxSize 0 (out fa)) fa in
      post_reset now fa in
    match v with
    | VInt value => after (set_cycle value fa)
    | VString value =>
        let dur := fst (ParseDuration value) in
        after (set_cycle (Z.quot dur time.Second) fa)
    | _ => mret (Some ErrBadValue, fa)
    end
  else if String.eqb name "clock" || String.eqb name "delay0" then
    match v with
    | VInt value => post_reset now (set_clock value fa)
    | VString value =>
        let dur := fst (ParseDuration value) in
        post_reset now (set_clock (Z.quot dur time.Second) fa)
    | _ => mret (Some ErrBadValue, fa)
    end
  else if String.eqb name "daily" then
    let after (daily : bool) :=
      if daily then
        let fa := set_cycle 86400 fa in
        let fa := set_clock 0 fa in
        let fa := set_maxsize 0 fa in
        let fa := set_out (rfw.SetMaxSize 0 (out fa)) fa in
        post_reset now fa
      else mret (None, fa) in
    match v with
    | VString value =>
        after (negb (String.eqb (strings.Trim value cutset_ws) "false"))
    | VBool value => after value
    | _ => mret (Some ErrBadValue, fa)
    end
  else mret (Some ErrBadOption, fa).

(** *** The write loop

    [writeLoop] runs as a goroutine of its own.  Its control points are
    the entry, the [select], the point after a receive from [messages]
    (holding the received value and [ok]) and the return.  Each
    function below is the block of the source between two control
    points; it blocks when the task is not at its control point. *)

Inductive PC : Type :=
| PcStart
| PcSelect
| PcGot (bb : list Byte.byte) (ok : bool)
| PcDone.

(** The locals of a [writeLoop] goroutine: [ready] is whether the
    channel [ready] is closed, [rotTimer] the duration the timer was
    last armed with. *)
Record Task : Type := mkTask {
  pc : PC;
  ready : bool;
  nrt : time.Time;
  rotTimer : option time.Duration
}.

(** From the entry to [close(ready)]: the initial rotation check, the
    first deadline, the timer.  [now1] is read in [nextTime], [now2] in
    [nrt.Sub(time.Now())]. *)
Definition writeLoop_start (now1 now2 : time.Time) (st : FileAppender * Task)
  : Res (FileAppender * Task) :=
  let '(fa, t) := st in
  match pc t with
  | PcStart =>
      let fa := if (0 <? cycle fa) && (maxsize fa <? rfw.Size (out fa))
                then set_out (rfw.Rotate (out fa)) fa else fa in
      let nrt := nextTime now1 (cycle fa) (clock fa) in
      let rotTimer := time.Sub nrt now2 in
      mret (fa, mkTask PcSelect true nrt (Some rotTimer))
  | _ => Block
  end.

(** [case bb, ok := <-fa.messages]. *)
Definition writeLoop_recv (st : FileAppender * Task) : Res (FileAppender * Task) :=
  let '(fa, t) := st in
  match pc t with
  | PcSelect =>
      '(bb, ok, ch) ← chan_recv [] (messages fa);
      mret (set_messages ch fa, mkTask (PcGot bb ok) (ready t) (nrt t) (rotTimer t))
  | _ => Block
  end.

(** [for bb := range fa.messages { fa.out.Write(bb) }]: every buffered
    message is written; the range ends when the channel is closed. *)
Definition drain (fa : FileAppender) : Res FileAppender :=
  let fa' := set_messages (mkChan [] (cap (messages fa)) (closed (messages fa)))
               (set_out (fold_left (fun w bb => rfw.Write bb w)
                                   (buf (messages fa)) (out fa)) fa) in
  if closed (messages fa) then mret fa' else Block.

(** The body of the message case, under [fa.mu]: write, flush when the
    queue is empty, and when [ok] is false drain and return; the
    deferred function clears [loopRunning]. *)
Definition writeLoop_write (st : FileAppender * Task) : Res (FileAppender * Task) :=
  let '(fa, t) := st in
  match pc t with
  | PcGot bb ok =>
      let fa := set_out (rfw.Write bb (out fa)) fa in
      let fa := if chan_len (messages fa) <=? 0
                then set_out (rfw.Flush (out fa)) fa else fa in
      if negb ok then
        fa ← drain fa;
        mret (set_loopRunning false fa, mkTask PcDone (ready t) (nrt t) (rotTimer t))
      else mret (fa, mkTask PcSelect (ready t) (nrt t) (rotTimer t))
  | _ => Block
  end.

(** [case <-rotTimer.C]. *)
Definition writeLoop_timer (now1 now2 : time.Time) (st : FileAppender * Task)
  : Res (FileAppender * Task) :=
  let '(fa, t) := st in
  match pc t with
  | PcSelect =>
      let nrt := nextTime now1 (cycle fa) (clock fa) in
      let rotTimer := time.Sub nrt now2 in
      let fa := if (0 <? cycle fa) && (maxsize fa <? rfw.Size (out fa))
                then set_out (rfw.Rotate (out fa)) fa else fa in
      mret (fa, mkTask PcSelect (ready t) nrt (Some rotTimer))
  | _ => Block
  end.

(** [case <-fa.loopReset]. *)
Definition writeLoop_reset (now1 now2 : time.Time) (st : FileAppender * Task)
  : Res (FileAppender * Task) :=
  let '(fa, t) := st in
  match pc t with
  | PcSelect =>
      '(_, _, ch) ← chan_recv time.zero (loopReset fa);
      let fa := set_loopReset ch fa in
      let nrt := nextTime now1 (cycle fa) (clock fa) in
      let rotTimer := time.Sub nrt now2 in
      mret (fa, mkTask PcSelect (ready t) nrt (Some rotTimer))
  | _ => Block
  end.

(** *** The appender and its goroutines *)

Record System : Type := mkSystem {
  appender : FileAppender;
  tasks : list Task
}.

(** [Init()], up to and including [go fa.writeLoop(ready)]. *)
Definition Init (s : System) : System :=
  if loopRunning (appender s) then s
  else mkSystem (set_loopRunning true (appender s))
                (tasks s ++ [mkTask PcStart false time.zero None]).

(** The goroutine whose [ready] channel the call of [Init] then waits
    on; [None] when the call has returned at once. *)
Definition Init_waits_on (s : System) : option nat :=
  if loopRunning (appender s) then None else Some (length (tasks s)).

(** [<-ready] of [Init] for the goroutine [i]. *)
Definition Init_return (i : nat) (s : System) : Res System :=
  match tasks s !! i with
  | Some t => if ready t then mret s else Block
  | None => Block
  end.

(** [Close()] is [close(fa.messages)], then a polling loop that sleeps
    and reads [len(fa.messages)] at most ten times, then the release of
    the writer and of [loopReset]. *)
Definition Close_begin (fa : FileAppender) : Res FileAppender :=
  ch ← chan_close (messages fa);
  mret (set_messages ch fa).

Definition Close_end (fa : FileAppender) : Res FileAppender :=
  let fa := set_out (rfw.Close (out fa)) fa in
  ch ← chan_close (loopReset fa);
  mret (set_loopReset ch fa).

(** The atomic steps of the system. *)
Inductive Action : Type :=
| ActWrite (rec : LogRecord)
| ActSetOption (name : string) (v : Value) (now : time.Time)
| ActInit
| ActInitReturn (i : nat)
| ActCloseBegin
| ActCloseEnd
| ActLoopStart (i : nat) (now1 now2 : time.Time)
| ActLoopRecv (i : nat)
| ActLoopWrite (i : nat)
| ActLoopTimer (i : nat) (now1 now2 : time.Time)
| ActLoopReset (i : nat) (now1 now2 : time.Time).

Definition on_app (f : FileAppender -> Res FileAppender) (s : System) : Res System :=
  fa ← f (appender s); mret (mkSystem fa (tasks s)).

Definition on_task (i : nat) (f : FileAppender * Task -> Res (FileAppender * Task))
           (s : System) : Res System :=
  match tasks s !! i with
  | Some t => '(fa, t') ← f (appender s, t); mret (mkSystem fa (<[i := t']> (tasks s)))
  | None => Block
  end.

Definition step (a : Action) (s : System) : Res System :=
  match a with
  | ActWrite rec => on_app (Write rec) s
  | ActSetOption name v now =>
      on_app (fun fa => r ← SetOption name v now fa; mret (snd r)) s
  | ActInit => mret (Init s)
  | ActInitReturn i => Init_return i s
  | ActCloseBegin => on_app Close_begin s
  | ActCloseEnd => on_app Close_end s
  | ActLoopStart i now1 now2 => on_task i (writeLoop_start now1 now2) s
  | ActLoopRecv i => on_task i writeLoop_recv s
  | ActLoopWrite i => on_task i writeLoop_write s
  | ActLoopTimer i now1 now2 => on_task i (writeLoop_timer now1 now2) s
  | ActLoopReset i now1 now2 => on_task i (writeLoop_reset now1 now2) s
  end.

(** A run: the steps of a schedule, one after the other. *)
Fixpoint run (tr : list Action) (s : System) : Res System :=
  match tr with
  | [] => mret s
  | a :: tr' => s' ← step a s; run tr' s'
  end.

(** The message a step puts on the queue, and the messages the [Write]
    calls of a run put on it, in call order. *)
Definition emitted (a : Action) (s : System) : list (list Byte.byte) :=
  match a with
  | ActWrite rec => [Format (layout (appender s)) rec]
  | _ => []
  end.

Fixpoint sent (tr : list Action) (s : System) : list (list Byte.byte) :=
  match tr with
  | [] => []
  | a :: tr' =>
      match step a s with
      | Ret s' => emitted a s ++ sent tr' s'
      | _ => []
      end
  end.

(** The state right after [NewAppender]: no goroutine yet. *)
Definition boot (filename : string) (maxbackup : Z) : System :=
  mkSystem (NewAppender filename maxbackup) [].

(** *** Vocabulary of the properties *)

(** The option names [SetOption] has a case for. *)
Definition recognized_options : list string :=
  ["filename"; "flush"; "maxbackup"; "maxsize"; "pattern"; "format"; "utc";
   "head"; "foot"; "cycle"; "clock"; "delay0"; "daily"].

(** The options [SetOption] decides by itself (the others go to the
    layout), and for each the values it has a case for. *)
Definition typed_options : list string :=
  ["filename"; "flush"; "maxbackup"; "maxsize"; "head"; "foot"; "cycle";
   "clock"; "delay0"; "daily"].

Definition accepted (name : string) (v : Value) : bool :=
  if String.eqb name "filename" then
    match v with VString s => negb (String.eqb s "") | _ => false end
  else if String.eqb name "head" || String.eqb name "foot" then
    match v with VString _ => true | _ => false end
  else if String.eqb name "daily" then
    match v with VString _ | VBool _ => true | _ => false end
  else
    match v with VInt _ | VString _ => true | _ => false end.

(** The token of [SetOption] can be sent at once: when the loop runs,
    [loopReset] is open and has room. *)
Definition can_post (fa : FileAppender) : Prop :=
  loopRunning fa = true ->
  closed (loopReset fa) = false
  /\ (length (buf (loopReset fa)) < cap (loopReset fa))%nat.

(** [loopReset] after the [cycle], [clock] and [daily] cases. *)
Definition posted (now : time.Time) (fa : FileAppender) : Chan time.Time :=
  if loopRunning fa then enqueue now (loopReset fa) else loopReset fa.



(** The value a task holds between its receive and its write. *)
Definition pending (t : Task) : list (list Byte.byte) :=
  match pc t with
  | PcGot bb _ => [bb]
  | _ => []
  end.

(** The task has observed the queue closed ([ok] was false). *)
Definition saw_closed (t : Task) : bool :=
  match pc t with
  | PcGot _ false | PcDone => true
  | _ => false
  end.

(** The goroutine has not returned. *)
Definition alive (t : Task) : bool :=
  match pc t with
  | PcDone => false
  | _ => true
  end.

Definition all_pending (ts : list Task) : list (list Byte.byte) :=
  flat_map pending ts.

Definition b2n (b : bool) : nat := if b then 1%nat else 0%nat.

Fixpoint count (p : Task -> bool) (ts : list Task) : nat :=
  match ts with
  | [] => 0%nat
  | t :: ts' => (b2n (p t) + count p ts')%nat
  end.

Definition closed_seen (ts : list Task) : nat := count saw_closed ts.

Definition alive_tasks (ts : list Task) : nat := count alive ts.

Definition written (s : System) : list (list Byte.byte) :=
  rfw.writes (rfw.calls (out (appender s))).

(** No goroutine was started, and the queue is open and empty. *)
Definition quiescent (s : System) : Prop :=
  tasks s = [] /\ loopRunning (appender s) = false /\
  closed (messages (appender s)) = false /\ buf (messages (appender s)) = [].

(** Every [writeLoop] that was started has returned, and one was. *)
Definition loops_returned (s : System) : Prop :=
  tasks s <> [] /\ Forall (fun t => pc t = PcDone) (tasks s).

(** What holds of every state [s] reached from [s0] by the schedule
    [tr], with [X] the messages written before [s0] followed by the
    messages sent since: the messages written, held and queued are
    [X], followed by one empty message for every task that saw the
    queue closed; such a task exists only when the queue is closed and
    empty, and the value it received is empty; at most one goroutine is
    alive, and none when [loopRunning] is false. *)
Definition loop_inv_at (X : list (list Byte.byte)) (s : System) : Prop :=
  written s ++ all_pending (tasks s) ++ buf (messages (appender s))
    = X ++ repeat [] (closed_seen (tasks s))
  /\ ((0 < closed_seen (tasks s))%nat ->
      closed (messages (appender s)) = true /\ buf (messages (appender s)) = [])
  /\ Forall (fun t => forall bb, pc t = PcGot bb false -> bb = []) (tasks s)
  /\ (alive_tasks (tasks s) <= 1)%nat
  /\ (loopRunning (appender s) = false -> alive_tasks (tasks s) = 0%nat).

Definition loop_inv (s0 : System) (tr : list Action) (s : System) : Prop :=
  loop_inv_at (written s0 ++ sent tr s0) s.

(** The schedule in which goroutine [i] alone runs [n] rounds of
    receive and write. *)
Fixpoint rounds (i : nat) (n : nat) : list Action :=
  match n with
  | O => []
  | S n' => ActLoopRecv i :: ActLoopWrite i :: rounds i n'
  end.

(** The prologue of goroutine [i] is part of the schedule. *)
Definition started (i : nat) (tr : list Action) : Prop :=
  exists now1 now2, In (ActLoopStart i now1 now2) tr.

(** The rotation rule of section 4.3 of the specification, as a relation
    between the appender and the threshold of its writer. *)
Definition mode_exclusive (fa : FileAppender) : Prop :=
  rfw.maxsize (out fa) = if cycle fa <=? 0 then maxsize fa else 0.

End Filelog.

End filelog.

Import filelog.

(* ================================================================== *)
(** ** Vocabulary of the properties of the helpers *)



(** A decimal numeral as the list of its digits, most significant first:
    its value and its spelling. *)
Definition decimal_value (ds : list Z) : Z :=
  fold_left (fun acc d => 10 * acc + d) ds 0.

Definition digit_char (d : Z) : ascii := ascii_of_nat (Z.to_nat (48 + d)).

Fixpoint decimal_string (ds : list Z) : string :=
  match ds with
  | [] => EmptyString
  | d :: ds' => String (digit_char d) (decimal_string ds')
  end.

Definition is_decimal (ds : list Z) : Prop :=
  ds <> [] /\ Forall (fun d => 0 <= d <= 9) ds.

(** The suffixes [StrToNumSuffix] knows, with the power of the multiplier
    each stands for. *)
Definition suffix_power (c : ascii) : option Z :=
  if Ascii.eqb c "K" || Ascii.eqb c "k" then Some 1
  else if Ascii.eqb c "M" || Ascii.eqb c "m" then Some 2
  else if Ascii.eqb c "G" || Ascii.eqb c "g" then Some 3
  else None.

Definition suffix_factor (c : option ascii) : option Z :=
  match c with
  | None => Some 1
  | Some c =>
      match suffix_power c with
      | Some k => Some (1024 ^ k)
      | None => None
      end
  end.

Definition with_suffix (s : string) (c : option ascii) : string :=
  match c with
  | None => s
  | Some c => (s ++ String c "")%string
  end.

(** The bytes the parsers treat specially; a digit is none of them. *)
Definition special_bytes : list ascii :=
  ["G"; "g"; "M"; "m"; "K"; "k"; "-"; "+"]%char ++ list_ascii_of_string cutset_ws.

(* ================================================================== *)
(** ** An environment for the examples *)

Module example.

(** A layout that renders a record (a string) as its bytes and keeps the
    pattern and the time zone flag it was given. *)
Record EchoLayout : Type := mkEcho { pattern : string; utc : bool }.

Definition echo_SetOption (name : string) (v : l4g.Value) (l : EchoLayout)
  : option l4g.error * EchoLayout :=
  if String.eqb name "pattern" || String.eqb name "format" then
    match v with
    | l4g.VString p => (None, mkEcho p (utc l))
    | _ => (Some l4g.ErrBadValue, l)
    end
  else if String.eqb name "utc" then
    match v with
    | l4g.VBool b => (None, mkEcho (pattern l) b)
    | _ => (Some l4g.ErrBadValue, l)
    end
  else (Some l4g.ErrBadOption, l).

#[global] Instance EchoLayout_Layout : l4g.Layout string EchoLayout := {|
  l4g.Format := fun _ rec => list_byte_of_string rec;
  l4g.LayoutSetOption := echo_SetOption
|}.

Definition NewPatternLayout : EchoLayout := mkEcho "[%D %T] [%L] (%s) %M" false.

Definition NewRotateFileWriter (filename : string) : rfw.RotateFileWriter :=
  rfw.mkWriter filename 0 0 0 "" "" 0 [].

Definition LogBufferLength : nat := 32.

Definition MkdirAll (filename : string) : option l4g.error := None.

(** A reading of [time.ParseDuration] for duration strings without a
    fraction: an optional sign, then groups of decimal digits followed
    by one of the units ns, us, ms, s, m, h; anything else is an error
    with duration 0. *)
Definition unit_ns (u : string) : option Z :=
  if String.eqb u "ns" then Some 1
  else if String.eqb u "us" then Some 1000
  else if String.eqb u "ms" then Some 1000000
  else if String.eqb u "s" then Some 1000000000
  else if String.eqb u "m" then Some 60000000000
  else if String.eqb u "h" then Some 3600000000000
  else None.

Fixpoint span (p : ascii -> bool) (s : string) : string * string :=
  match s with
  | EmptyString => (EmptyString, EmptyString)
  | String c s' =>
      if p c then let '(a, b) := span p s' in (String c a, b)
      else (EmptyString, s)
  end.

Fixpoint groups (fuel : nat) (acc : Z) (s : string) : option Z :=
  match fuel with
  | O => None
  | S fuel' =>
      let '(ds, r) := span strconv.is_digit s in
      let '(u, r') := span (fun c => negb (strconv.is_digit c || Ascii.eqb c ".")) r in
      match strconv.parse_digits ds, unit_ns u with
      | Some v, Some k =>
          let acc' := acc + v * k in
          if MaxInt64 <? acc' then None
          else if String.eqb r' "" then Some acc' else groups fuel' acc' r'
      | _, _ => None
      end
  end.

Definition ParseDuration (s : string) : time.Duration * bool :=
  let '(neg, body) :=
    match s with
    | String c rest =>
        if Ascii.eqb c "-" then (true, rest)
        else if Ascii.eqb c "+" then (false, rest) else (false, s)
    | EmptyString => (false, s)
    end in
  if String.eqb body "0" then (0, false)
  else
    match groups (String.length body) 0 body with
    | Some d => (if neg then - d else d, false)
    | None => (0, true)
    end.

(** The definitions of the appender in this environment. *)
Definition NewAppender : string -> Z -> FileAppender :=
  filelog.NewAppender NewPatternLayout NewRotateFileWriter LogBufferLength.

Abbreviation SetOption := (filelog.SetOption ParseDuration MkdirAll).

Abbreviation step := (filelog.step ParseDuration MkdirAll).

Abbreviation run := (filelog.run ParseDuration MkdirAll).

Abbreviation sent := (filelog.sent ParseDuration MkdirAll).

Definition boot : string -> Z -> System :=
  filelog.boot NewPatternLayout NewRotateFileWriter LogBufferLength.

Definition t0 : time.Time := time.mkTime 0 (time.mkLocation 0).

(** 2024-03-10 15:30:00 at one hour east of UTC. *)
Definition afternoon : time.Time :=
  time.mkTime 1710081000000000000 (time.mkLocation 3600).

Definition fresh : FileAppender := NewAppender "app.log" 3.

(** A task at the [select] of the loop. *)
Definition selecting : Task := mkTask PcSelect true t0 (Some 0).

(** A session: start, two records, shutdown; and its first part, up to
    the receive that finds the queue closed. *)
Definition until_closed : list (@Action string) :=
  [ActInit; ActLoopStart 0 afternoon afternoon; ActInitReturn 0;
   ActWrite "first"; ActWrite "second";
   ActLoopRecv 0; ActLoopWrite 0; ActCloseBegin;
   ActLoopRecv 0; ActLoopWrite 0; ActLoopRecv 0].

Definition session : list (@Action string) :=
  until_closed ++ [ActLoopWrite 0; ActCloseEnd].

(** The digits of 2 to the power 53. *)
Definition big_digits : list Z := [9; 0; 0; 7; 1; 9; 9; 2; 5; 4; 7; 4; 0; 9; 9; 2].

End example.

(* ================================================================== *)
(** ** Package [nxlog4go]: the casts *)

Module cast.

Import l4g.

(** [strconv.ParseBool(str)], as [(value, err != nil)]: six spellings
    of true, six of false, and a syntax error on every other string. *)
Definition ParseBool (str : string) : bool * bool :=
  if existsb (String.eqb str) ["1"; "t"; "T"; "true"; "TRUE"; "True"]
  then (true, false)
  else if existsb (String.eqb str) ["0"; "f"; "F"; "false"; "FALSE"; "False"]
  then (false, false)
  else (false, true).

(** The error of a parser of the standard library, when it failed. *)
Definition parse_error (fn : string) (failed : bool) : option error :=
  if failed then Some (ErrOther fn) else None.

(** [ToString(i)]. *)
Definition ToString (i : Value) : string * option error :=
  match i with
  | VString s => (s, None)
  | VBytes bs => (string_of_list_byte bs, None)
  | _ => (EmptyString, Some ErrBadValue)
  end.

(** [ToBool(i)]; the string case returns what [strconv.ParseBool]
    returns. *)
Definition ToBool (i : Value) : bool * option error :=
  match i with
  | VBool b => (b, None)
  | VInt n => (0 <? n, None)
  | VString s =>
      let '(b, failed) := ParseBool s in
      (b, parse_error "strconv.ParseBool" failed)
  | _ => (false, Some ErrBadValue)
  end.

(** [strToNumSuffix(str, mult)], the unexported twin of
    [StrToNumSuffix] that also returns the error of [strconv.Atoi]. *)
Definition strToNumSuffix (str : string) (mult : Z) : Z * option error :=
  let num := 1 in
  let '(num, str) :=
    if 1 <? Z.of_nat (String.length str) then
      let c := last_byte str in
      if byte_is c "G" || byte_is c "g" then
        (mul64 (mul64 (mul64 num mult) mult) mult, drop_last str)
      else if byte_is c "M" || byte_is c "m" then
        (mul64 (mul64 num mult) mult, drop_last str)
      else if byte_is c "K" || byte_is c "k" then
        (mul64 num mult, drop_last str)
      else (num, str)
    else (num, str) in
  let '(parsed, failed) := strconv.Atoi str in
  (mul64 parsed num, parse_error "strconv.Atoi" failed).

(** [ToInt(i)]. *)
Definition ToInt (i : Value) : Z * option error :=
  match i with
  | VInt n => (n, None)
  | VString s => strToNumSuffix s 1024
  | _ => (0, Some ErrBadValue)
  end.

(** [ToSeconds(i)], for a given [time.ParseDuration]. *)
Definition ToSeconds (ParseDuration : string -> time.Duration * bool)
           (i : Value) : Z * option error :=
  match i with
  | VInt n => (n, None)
  | VString s =>
      let '(dur_int64, failed) := ParseDuration s in
      (Z.quot dur_int64 time.Second, parse_error "time.ParseDuration" failed)
  | _ => (0, Some ErrBadValue)
  end.

End cast.

(* ================================================================== *)
(** ** Package [nxlog4go]: appenders and their configuration *)

Module appender.

(** [AppenderProp]. *)
Record AppenderProp : Type := mkProp { Name : string; Value : string }.

(** The interface [Appender], for the method the configuration calls:
    [SetOption(name, v)], which returns its error and leaves the
    appender changed, or blocks, or panics. *)
Class Appender (A : Type) : Type := {
  SetOption : string -> l4g.Value -> A -> Res (option l4g.error * A)
}.

(** The lines [AppenderConfigure] writes with [LogLogError]. *)
Inductive Report : Type :=
| BadValueOf (name : string)
| UnknownProperty (name : string).

(** The loop of [AppenderConfigure], from the property list left, the
    value of [ok], the lines written so far and the appender. *)
Fixpoint configure_loop {A : Type} `{!Appender A} (props : list AppenderProp)
         (ok : bool) (log : list Report) (app : A) : Res (bool * list Report * A) :=
  match props with
  | [] => mret (ok, log, app)
  | prop :: props' =>
      '(err, app) ← SetOption (Name prop)
                      (l4g.VString (strings.Trim (Value prop) cutset_ws)) app;
      match err with
      | Some l4g.ErrBadValue =>
          configure_loop props' false (log ++ [BadValueOf (Name prop)]) app
      | Some l4g.ErrBadOption =>
          configure_loop props' ok (log ++ [UnknownProperty (Name prop)]) app
      | _ => configure_loop props' ok log app
      end
  end.

(** [AppenderConfigure(app, props)]: the value returned, the lines
    written and the appender as it is left. *)
Definition AppenderConfigure {A : Type} `{!Appender A} (app : A)
           (props : list AppenderProp) : Res (bool * list Report * A) :=
  configure_loop props true [] app.

End appender.

(* ================================================================== *)
(** ** Package [filelog]: the appender as an [Appender] *)

Section FilelogAppender.

Context {LogRecord L : Type} `{!l4g.Layout LogRecord L}.
Variable ParseDuration : string -> time.Duration * bool.
Variable MkdirAll : string -> option l4g.error.

(** [Set(name, v)]: [SetOption] with its error dropped; the receiver is
    returned for the next call of a chain. *)
Definition Set_ (name : string) (v : l4g.Value) (now : time.Time)
           (fa : @FileAppender L) : Res (@FileAppender L) :=
  r ← filelog.SetOption ParseDuration MkdirAll name v now fa;
  mret (snd r).

(** [*FileAppender] implements [Appender]; [now] is the reading of
    [time.Now()] for a token sent on [loopReset]. *)
Definition FileAppender_Appender (now : time.Time)
  : appender.Appender (@FileAppender L) :=
  {| appender.SetOption :=
       fun name v fa => filelog.SetOption ParseDuration MkdirAll name v now fa |}.

End FilelogAppender.

(* ================================================================== *)
(** ** Package [nxlog4go]: loading a configuration *)

Module config.

Record NameValue : Type := mkNameValue { Name : string; Value : string }.

(** [FilterConfig]; the field [Type] is [Type_] here. *)
Record FilterConfig : Type := mkFilterConfig {
  Enabled : string;
  Tag : string;
  Type_ : string;
  Level : string;
  Pattern : string;
  Properties : list NameValue
}.

Record LoggerConfig : Type := mkLoggerConfig { Filters : list FilterConfig }.

(** The calls [LoadConfiguration] makes on the logger [log], on the
    internal logger [GetLogLog()] and on the filters it builds, in
    call order. *)
Inductive Effect (A : Type) : Type :=
| LogLogSetLevel (level : Z)
| LogLogSetPattern (pattern : string)
| LogSetOutputNil
| LogSetLevel (level : Z)
| LogSetPattern (pattern : string)
| FiltersAdd (tag : string) (level : Z) (app : A)
| LogSetFilters.

Arguments LogLogSetLevel {A} level.
Arguments LogLogSetPattern {A} pattern.
Arguments LogSetOutputNil {A}.
Arguments LogSetLevel {A} level.
Arguments LogSetPattern {A} pattern.
Arguments FiltersAdd {A} tag level app.
Arguments LogSetFilters {A}.

Section Load.

(** What the loader takes from outside the files at hand: the type of
    the appenders, the level [SILENT], [GetLevel], the registry
    behind [GetAppenderNewFunc] (a constructor may return nil) and
    [strings.ToLower]. *)
Context {A : Type} `{!appender.Appender A}.
Variable SILENT : Z.
Variable GetLevel : string -> Z.
Variable GetAppenderNewFunc : string -> option (unit -> option A).
Variable ToLower : string -> string.

(** [loadLogLog(level, pattern)]. *)
Definition loadLogLog (level : Z) (pattern : string) : list (Effect A) :=
  if SILENT <=? level then []
  else
    LogLogSetLevel level ::
    (if negb (String.eqb pattern "") then [LogLogSetPattern pattern] else []).

(** [loadStdout(log, level, pattern)]. *)
Definition loadStdout (level : Z) (pattern : string) : list (Effect A) :=
  if SILENT <=? level then [LogSetOutputNil]
  else
    LogSetLevel level ::
    (if negb (String.eqb pattern "") then [LogSetPattern pattern] else []).

(** The loop of [loadAppender]: every property is set, errors are
    only reported. *)
Fixpoint set_properties (props : list NameValue) (app : A) : Res A :=
  match props with
  | [] => mret app
  | prop :: props' =>
      let v := strings.Trim (Value prop) cutset_ws in
      '(_, app) ← appender.SetOption (Name prop) (l4g.VString v) app;
      set_properties props' app
  end.

(** [loadAppender(level, typ, props)]; [None] is nil. *)
Definition loadAppender (level : Z) (typ : string) (props : list NameValue)
  : Res (option A) :=
  if SILENT <=? level then mret None
  else
    match GetAppenderNewFunc typ with
    | None => mret None
    | Some newFunc =>
        match newFunc tt with
        | None => mret None
        | Some app => app ← set_properties props app; mret (Some app)
        end
    end.

(** The body of the loop of [LoadConfiguration] for one filter. *)
Definition load_filter (fc : FilterConfig) : Res (list (Effect A)) :=
  if String.eqb (Tag fc) "" && String.eqb (Type_ fc) "" then mret []
  else
    let fc :=
      if String.eqb (Tag fc) "" then
        mkFilterConfig (Enabled fc) (Type_ fc) (Type_ fc) (Level fc)
                       (Pattern fc) (Properties fc)
      else if String.eqb (Type_ fc) "" then
        mkFilterConfig (Enabled fc) (Tag fc) (ToLower (Tag fc)) (Level fc)
                       (Pattern fc) (Properties fc)
      else fc in
    let '(enabled, err) := cast.ToBool (l4g.VString (Enabled fc)) in
    if (match err with Some _ => true | None => false end) || negb enabled
    then mret []
    else
      let level := GetLevel (Level fc) in
      if String.eqb (Type_ fc) "loglog" then mret (loadLogLog level (Pattern fc))
      else if String.eqb (Type_ fc) "stdout"
      then mret (loadStdout level (Pattern fc))
      else
        app ← loadAppender level (Type_ fc) (Properties fc);
        match app with
        | Some app => mret [FiltersAdd (Tag fc) level app]
        | None => mret []
        end.

Fixpoint load_filters (fcs : list FilterConfig) : Res (list (Effect A)) :=
  match fcs with
  | [] => mret []
  | fc :: fcs' =>
      e ← load_filter fc;
      es ← load_filters fcs';
      mret (e ++ es)
  end.

(** [LoadConfiguration(log, lc)]; [None] is the nil configuration. *)
Definition LoadConfiguration (lc : option LoggerConfig) : Res (list (Effect A)) :=
  match lc with
  | None => mret []
  | Some lc =>
      if Z.of_nat (length (Filters lc)) <=? 0 then mret []
      else
        es ← load_filters (Filters lc);
        mret (es ++ [LogSetFilters])
  end.

End Load.

End config.


(* ================================================================== *)
(** ** Vocabulary of the properties of the casts and of the loader *)

(** The split [strToNumSuffix] makes of its argument: how many times the
    multiplier is applied, and the string handed to [strconv.Atoi]. *)
Definition suffix_split (str : string) : Z * string :=
  if 1 <? Z.of_nat (String.length str) then
    match last_byte str with
    | Some c =>
        match suffix_power c with
        | Some k => (k, drop_last str)
        | None => (0, str)
        end
    | None => (0, str)
    end
  else (0, str).

(** A signed numeral: an optional sign ([Some true] is minus), decimal
    digits and an optional suffix byte; the value of its digits under
    the sign, and the digit values [strconv.Atoi] takes. *)
Definition sign_string (sg : option bool) : string :=
  match sg with
  | None => ""
  | Some true => "-"
  | Some false => "+"
  end.

Definition numeral (sg : option bool) (ds : list Z) (c : option ascii) : string :=
  (sign_string sg ++ with_suffix (decimal_string ds) c)%string.

Definition signed (sg : option bool) (v : Z) : Z :=
  match sg with
  | Some true => - v
  | _ => v
  end.

Definition fits_int (sg : option bool) (v : Z) : Prop :=
  MinInt64 <= signed sg v <= MaxInt64.

(** The value [SetOption] casts for the numeric options: a string
    without its surrounding white space, any other value as it is. *)
Definition trimmed (v : l4g.Value) : l4g.Value :=
  match v with
  | l4g.VString s => l4g.VString (strings.Trim s cutset_ws)
  | _ => v
  end.

(** The options of the file appender that take any string. *)
Definition lenient_options : list string :=
  ["flush"; "maxbackup"; "maxsize"; "head"; "foot"; "cycle"; "clock"; "delay0";
   "daily"].

(** What [AppenderConfigure] makes of the error of one [SetOption]: the
    line it writes, and whether the error is the one that makes it
    return false. *)
Definition report_of (name : string) (err : option l4g.error) : list appender.Report :=
  match err with
  | Some l4g.ErrBadValue => [appender.BadValueOf name]
  | Some l4g.ErrBadOption => [appender.UnknownProperty name]
  | _ => []
  end.

Definition is_bad_value (err : option l4g.error) : bool :=
  match err with
  | Some l4g.ErrBadValue => true
  | _ => false
  end.

(** The tag and the type [LoadConfiguration] loads a filter with: a
    missing tag is the type, a missing type the tag in lower case. *)
Definition loaded_tag (fc : config.FilterConfig) : string :=
  if String.eqb (config.Tag fc) "" then config.Type_ fc else config.Tag fc.

Definition loaded_type (ToLower : string -> string) (fc : config.FilterConfig)
  : string :=
  if String.eqb (config.Tag fc) "" then config.Type_ fc
  else if String.eqb (config.Type_ fc) "" then ToLower (config.Tag fc)
  else config.Type_ fc.

(** The filter has neither tag nor type, or its attribute [enabled] is
    not one of the spellings of true. *)
Definition skipped (fc : config.FilterConfig) : bool :=
  (String.eqb (config.Tag fc) "" && String.eqb (config.Type_ fc) "")
  || negb (fst (cast.ParseBool (config.Enabled fc))).

(** A property of a filter as a property of an appender. *)
Definition to_prop (nv : config.NameValue) : appender.AppenderProp :=
  appender.mkProp (config.Name nv) (config.Value nv).

(* ================================================================== *)
(** ** A configuration for the examples *)

Module scenario.

(** Levels as numbers, the last one silent; an unknown name reads as
    the level of information. *)
Definition SILENT : Z := 8.

Definition GetLevel (name : string) : Z :=
  if String.eqb name "DEBUG" then 2
  else if String.eqb name "WARN" then 5
  else if String.eqb name "SILENT" then SILENT
  else 4.

(** The registry knows one type of appender, the file appender. *)
Definition GetAppenderNewFunc (typ : string)
  : option (unit -> option (@FileAppender example.EchoLayout)) :=
  if String.eqb typ "file" then Some (fun _ => Some example.fresh) else None.

Definition lower (c : ascii) : ascii :=
  let n := nat_of_ascii c in
  if (65 <=? n)%nat && (n <=? 90)%nat then ascii_of_nat (n + 32) else c.

Fixpoint ToLower (s : string) : string :=
  match s with
  | EmptyString => EmptyString
  | String c s' => String (lower c) (ToLower s')
  end.

Definition file_appender : appender.Appender (@FileAppender example.EchoLayout) :=
  FileAppender_Appender example.ParseDuration example.MkdirAll example.t0.

Abbreviation LoadConfiguration :=
  (@config.LoadConfiguration _ file_appender SILENT GetLevel GetAppenderNewFunc
                             ToLower).

(** Three filters: the console at the level of debugging, a file that
    is switched off, and a file of ten mebibytes rotated every hour. *)
Definition console : config.FilterConfig :=
  config.mkFilterConfig "true" "STDOUT" "" "DEBUG" "" [].

Definition audit : config.FilterConfig :=
  config.mkFilterConfig "no" "audit" "file" "WARN" "" [].

Definition logfile : config.FilterConfig :=
  config.mkFilterConfig "true" "" "file" "INFO" ""
    [config.mkNameValue "maxsize" " 10M "; config.mkNameValue "cycle" "1h";
     config.mkNameValue "colour" "blue"].

Definition lc : config.LoggerConfig :=
  config.mkLoggerConfig [console; audit; logfile].

(** A started appender with two records in its queue. *)
Definition burst : list (@Action string) :=
  [ActInit; ActLoopStart 0 example.afternoon example.afternoon; ActInitReturn 0;
   ActWrite "first"; ActWrite "second"].

(** The same session after the cycle was set to zero, with a timer
    event at its end. *)
Definition by_size : list (@Action string) :=
  burst ++ [ActLoopRecv 0; ActLoopWrite 0; ActLoopRecv 0; ActLoopWrite 0;
            ActLoopTimer 0 example.afternoon example.afternoon].

(** Properties with a good value, an unknown name and a bad value; and
    properties whose values no parser reads. *)
Definition mixed_props : list appender.AppenderProp :=
  [appender.mkProp "maxsize" " 10M "; appender.mkProp "colour" "blue";
   appender.mkProp "filename" " "].

Definition odd_props : list appender.AppenderProp :=
  [appender.mkProp "maxsize" "banana"; appender.mkProp "cycle" "soon";
   appender.mkProp "daily" "0"].

End scenario.

(* ================================================================== *)
(** ** Proof tools *)

(** The ten cases of a decimal digit. *)
Ltac each_digit d Hd :=
  let H := fresh in
  assert (H : d = 0 \/ d = 1 \/ d = 2 \/ d = 3 \/ d = 4 \/ d = 5 \/ d = 6
              \/ d = 7 \/ d = 8 \/ d = 9) by lia;
  destruct H as [-> | [-> | [-> | [-> | [-> | [-> | [-> | [-> | [-> | ->]]]]]]]]].

(** Projections of updated records. *)
Ltac fields :=
  cbn [layout messages out maxsize cycle clock loopRunning loopReset
       set_layout set_messages set_out set_maxsize set_cycle set_clock
       set_loopRunning set_loopReset
       rfw.filename rfw.flush rfw.maxbackup rfw.maxsize rfw.head rfw.foot
       rfw.size rfw.calls rfw.SetFileName rfw.SetFlush rfw.SetMaxBackup
       rfw.SetMaxSize rfw.SetHead rfw.SetFoot rfw.record] in *.

Ltac by_cases :=
  fields;
  repeat (match goal with
          | |- context [if ?b then _ else _] => destruct b eqn:?
          end; fields);
  auto; try congruence.

(** Lists built with [++], flattened. *)
Ltac norm_app :=
  repeat rewrite <- app_assoc in *; repeat rewrite app_nil_r in *.

(** The closing steps of a case of the invariant: arithmetic, the
    hypothesis on [loopRunning], the tasks other than the one that
    moved, the hypothesis on the closed queue. *)
Ltac fin :=
  repeat split; auto; try lia;
  try (let Hf := fresh in intros Hf;
       match goal with H5 : loopRunning _ = false -> _ |- _ => specialize (H5 Hf) end;
       lia);
  try (match goal with F3 : forall t, _ -> Forall _ _ |- _ => apply F3 end;
       intros ? ?; congruence);
  try (match goal with
       | H2 : (0 < _)%nat -> _ /\ _ |- _ => destruct H2 as [? ?]; [lia | congruence]
       end).


(** ** Machine integers *)

Lemma wrap64_small z : in_int64 z -> wrap64 z = z.
Proof.
  unfold in_int64, wrap64, MinInt64, MaxInt64.
  change (2 ^ 63) with 9223372036854775808.
  change (2 ^ 64) with 18446744073709551616. lia.
Qed.

Lemma mul64_small a b : in_int64 (a * b) -> mul64 a b = a * b.
Proof. apply wrap64_small. Qed.

(** ** Strings *)

Lemma TrimLeft_keeps c s cutset :
  strings.in_cutset cutset c = false ->
  strings.TrimLeft (String c s) cutset = String c s.
Proof. intros Hc. simpl. now rewrite Hc. Qed.

Lemma TrimRight_keeps s cutset c :
  last_byte s = Some c -> strings.in_cutset cutset c = false ->
  strings.TrimRight s cutset = s.
Proof.
  intros Hl Hc. induction s as [| a s IH]; [discriminate |].
  destruct s as [| b s'].
  - simpl in Hl. injection Hl as ->. simpl. now rewrite Hc.
  - change (last_byte (String a (String b s'))) with (last_byte (String b s')) in Hl.
    specialize (IH Hl).
    change (strings.TrimRight (String a (String b s')) cutset)
      with (match strings.TrimRight (String b s') cutset with
            | EmptyString => if strings.in_cutset cutset a then EmptyString
                             else String a EmptyString
            | r => String a r
            end).
    now rewrite IH.
Qed.

Lemma Trim_keeps a s cutset c :
  strings.in_cutset cutset a = false ->
  last_byte (String a s) = Some c -> strings.in_cutset cutset c = false ->
  strings.Trim (String a s) cutset = String a s.
Proof.
  intros Ha Hl Hc. unfold strings.Trim.
  rewrite TrimLeft_keeps by assumption. now apply TrimRight_keeps with c.
Qed.

Lemma last_byte_snoc s c : last_byte (s ++ String c "")%string = Some c.
Proof.
  induction s as [| a s IH]; [reflexivity |].
  simpl. destruct (s ++ String c "")%string eqn:E; [discriminate | exact IH].
Qed.

Lemma drop_last_snoc s c : drop_last (s ++ String c "")%string = s.
Proof.
  induction s as [| a s IH]; [reflexivity |].
  simpl. destruct (s ++ String c "")%string eqn:E.
  - destruct s; discriminate.
  - now rewrite IH.
Qed.

Lemma length_snoc s c :
  String.length (s ++ String c "")%string = S (String.length s).
Proof. induction s as [| a s IH]; simpl; [reflexivity | now rewrite IH]. Qed.

(** ** Decimal numerals *)

Lemma digit_char_is_digit d : 0 <= d <= 9 ->
  strconv.is_digit (digit_char d) = true /\ strconv.digit_val (digit_char d) = d.
Proof. intros Hd. each_digit d Hd; split; reflexivity. Qed.

Lemma digit_char_plain d c : 0 <= d <= 9 -> In c special_bytes ->
  Ascii.eqb (digit_char d) c = false.
Proof.
  intros Hd Hc. unfold special_bytes in Hc. simpl in Hc.
  each_digit d Hd; intuition (subst; reflexivity).
Qed.

Lemma digit_char_not_ws d : 0 <= d <= 9 ->
  strings.in_cutset cutset_ws (digit_char d) = false.
Proof. intros Hd. each_digit d Hd; reflexivity. Qed.

Lemma digits_from_decimal ds acc :
  Forall (fun d => 0 <= d <= 9) ds ->
  strconv.digits_from acc (decimal_string ds)
  = Some (fold_left (fun a d => 10 * a + d) ds acc).
Proof.
  intros Hds. revert acc. induction Hds as [| d ds Hd _ IH]; intros acc; [reflexivity |].
  simpl. destruct (digit_char_is_digit d Hd) as [-> ->].
  rewrite IH. do 2 f_equal. lia.
Qed.

Lemma decimal_value_nonneg ds :
  Forall (fun d => 0 <= d <= 9) ds -> 0 <= decimal_value ds.
Proof.
  unfold decimal_value. intros Hds.
  assert (G : forall acc, 0 <= acc -> 0 <= fold_left (fun a d => 10 * a + d) ds acc).
  { induction Hds as [| d ds Hd _ IH]; intros acc Hacc; simpl; [lia |]. apply IH. lia. }
  apply G. lia.
Qed.

Lemma Atoi_decimal ds :
  is_decimal ds -> decimal_value ds <= MaxInt64 ->
  strconv.Atoi (decimal_string ds) = (decimal_value ds, false).
Proof.
  intros [Hne Hds] Hmax. destruct ds as [| d ds]; [contradiction |].
  unfold strconv.Atoi. cbn [decimal_string].
  inversion Hds as [| ? ? Hd Hds']; subst.
  rewrite (digit_char_plain d "-") by (trivial; unfold special_bytes; simpl; tauto).
  rewrite (digit_char_plain d "+") by (trivial; unfold special_bytes; simpl; tauto).
  cbn [orb]. unfold strconv.parse_digits.
  change (String (digit_char d) (decimal_string ds)) with (decimal_string (d :: ds)).
  rewrite digits_from_decimal by assumption.
  fold (decimal_value (d :: ds)).
  cbn [decimal_string].
  destruct (Z.leb_spec (2 ^ 63) (decimal_value (d :: ds))) as [Hbig |]; [| reflexivity].
  unfold MaxInt64 in Hmax. lia.
Qed.

Lemma last_byte_decimal ds : is_decimal ds ->
  exists d, 0 <= d <= 9 /\ last_byte (decimal_string ds) = Some (digit_char d).
Proof.
  intros [Hne Hds]. induction Hds as [| d ds Hd Hds IH]; [contradiction |].
  destruct ds as [| d' ds'].
  - exists d. split; [assumption | reflexivity].
  - destruct IH as (e & He & Hl); [discriminate |]. exists e. split; [assumption |].
    exact Hl.
Qed.

Lemma length_decimal ds : String.length (decimal_string ds) = length ds.
Proof. induction ds as [| d ds IH]; simpl; [reflexivity | now rewrite IH]. Qed.

(** The numeral [ds], alone or followed by a suffix byte. *)
Lemma suffix_power_cases c k : suffix_power c = Some k ->
  ((c = "K" \/ c = "k") /\ k = 1 \/ (c = "M" \/ c = "m") /\ k = 2
   \/ (c = "G" \/ c = "g") /\ k = 3)%char.
Proof.
  unfold suffix_power. intros H.
  repeat match type of H with
         | context [Ascii.eqb c ?x] =>
             destruct (Ascii.eqb_spec c x); [subst c; cbn in H |]
         end; cbn in H; try discriminate; injection H as <-; tauto.
Qed.

Lemma StrToNumSuffix_plain ds :
  is_decimal ds -> decimal_value ds <= MaxInt64 ->
  l4g.StrToNumSuffix (decimal_string ds) 1024 = decimal_value ds.
Proof.
  intros Hds Hmax. unfold l4g.StrToNumSuffix.
  destruct (last_byte_decimal ds Hds) as (d & Hd & Hl). rewrite Hl.
  unfold byte_is. 
  repeat rewrite (digit_char_plain d) by (trivial; unfold special_bytes; simpl; tauto).
  cbn [orb].
  assert (E : (if 1 <? Z.of_nat (String.length (decimal_string ds))
               then (1, decimal_string ds) else (1, decimal_string ds))
              = (1, decimal_string ds)) by (destruct (1 <? _); reflexivity).
  rewrite E. rewrite Atoi_decimal by assumption. cbn [fst].
  destruct Hds as [_ Hds]. pose proof (decimal_value_nonneg ds Hds).
  rewrite mul64_small; [lia | unfold in_int64, MinInt64; lia].
Qed.

Lemma suffix_factor_value :
  mul64 1 1024 = 1024 ^ 1 /\ mul64 (mul64 1 1024) 1024 = 1024 ^ 2
  /\ mul64 (mul64 (mul64 1 1024) 1024) 1024 = 1024 ^ 3.
Proof. repeat split; reflexivity. Qed.

Lemma StrToNumSuffix_suffixed ds c k :
  is_decimal ds -> suffix_power c = Some k ->
  decimal_value ds * 1024 ^ k <= MaxInt64 ->
  l4g.StrToNumSuffix (decimal_string ds ++ String c "")%string 1024
  = decimal_value ds * 1024 ^ k.
Proof.
  intros Hds Hc Hmax. unfold l4g.StrToNumSuffix.
  rewrite length_snoc, length_decimal, last_byte_snoc, drop_last_snoc.
  assert (Hlen : (1 <? Z.of_nat (S (length ds))) = true).
  { apply Z.ltb_lt. destruct Hds as [Hne _]. destruct ds; [contradiction | simpl; lia]. }
  rewrite Hlen.
  assert (Hv : 0 <= decimal_value ds) by (apply decimal_value_nonneg, Hds).
  assert (Hk : 1 <= 1024 ^ k).
  { destruct (suffix_power_cases c k Hc) as [[_ ->] | [[_ ->] | [_ ->]]]; now vm_compute. }
  assert (Hfit : decimal_value ds <= MaxInt64) by nia.
  assert (Hnum : (if byte_is (Some c) "G" || byte_is (Some c) "g"
                  then (mul64 (mul64 (mul64 1 1024) 1024) 1024, decimal_string ds)
                  else if byte_is (Some c) "M" || byte_is (Some c) "m"
                  then (mul64 (mul64 1 1024) 1024, decimal_string ds)
                  else if byte_is (Some c) "K" || byte_is (Some c) "k"
                  then (mul64 1 1024, decimal_string ds)
                  else (1, decimal_string ds ++ String c "")%string)
                 = (1024 ^ k, decimal_string ds)).
  { destruct suffix_factor_value as (E1 & E2 & E3). rewrite E3, E2, E1.
    destruct (suffix_power_cases c k Hc)
      as [[[-> | ->] ->] | [[[-> | ->] ->] | [[-> | ->] ->]]]; reflexivity. }
  rewrite Hnum. rewrite Atoi_decimal by assumption. cbn [fst].
  apply mul64_small. unfold in_int64, MinInt64. nia.
Qed.

(** A numeral, with or without its suffix, has no white space to trim
    and reads as its value times the factor of the suffix. *)
Lemma Trim_numeral ds c f :
  is_decimal ds -> suffix_factor c = Some f ->
  strings.Trim (with_suffix (decimal_string ds) c) cutset_ws
  = with_suffix (decimal_string ds) c.
Proof.
  intros Hds Hf. pose proof Hds as [Hne Hall].
  destruct ds as [| d ds]; [contradiction |].
  inversion Hall as [| ? ? Hd _]; subst.
  destruct c as [c |]; cbn [with_suffix].
  - assert (E : (decimal_string (d :: ds) ++ String c "")%string
                 = String (digit_char d) (decimal_string ds ++ String c "")%string)
      by reflexivity.
    rewrite E. apply Trim_keeps with c.
    + now apply digit_char_not_ws.
    + rewrite <- E. apply last_byte_snoc.
    + unfold suffix_factor in Hf. destruct (suffix_power c) as [k |] eqn:Hk; [| discriminate].
      destruct (suffix_power_cases c k Hk)
        as [[[-> | ->] _] | [[[-> | ->] _] | [[-> | ->] _]]]; reflexivity.
  - destruct (last_byte_decimal (d :: ds) Hds) as (e & He & Hl).
    cbn [decimal_string] in *. apply Trim_keeps with (digit_char e); trivial;
      now apply digit_char_not_ws.
Qed.

Lemma StrToNumSuffix_numeral ds c f :
  is_decimal ds -> suffix_factor c = Some f ->
  decimal_value ds * f <= MaxInt64 ->
  l4g.StrToNumSuffix (with_suffix (decimal_string ds) c) 1024 = decimal_value ds * f.
Proof.
  intros Hds Hf Hmax. destruct c as [c |]; cbn [with_suffix suffix_factor] in *.
  - destruct (suffix_power c) as [k |] eqn:Hk; [| discriminate].
    injection Hf as <-. now apply StrToNumSuffix_suffixed.
  - injection Hf as <-. rewrite StrToNumSuffix_plain; [lia | assumption | lia].
Qed.

(** ** The calendar *)





Example civil_epoch : time.civil_from_days 0 = (1970, 1, 1).
Proof. reflexivity. Qed.

Example civil_leap_day : time.civil_from_days 19782 = (2024, 2, 29).
Proof. reflexivity. Qed.

Example civil_century : time.civil_from_days (-25508) = (1900, 3, 1).
Proof. reflexivity. Qed.

Example days_millennium : time.days_from_civil 2000 1 1 = 10957.
Proof. reflexivity. Qed.






(* ================================================================== *)
(** ** Properties of the appender *)

Section FilelogProps.

Import l4g.

Context {LogRecord L : Type} `{!Layout LogRecord L}.
Variable ParseDuration : string -> time.Duration * bool.
Variable MkdirAll : string -> option error.

Abbreviation SetOption := (SetOption ParseDuration MkdirAll).
Abbreviation step := (step ParseDuration MkdirAll).
Abbreviation run := (run ParseDuration MkdirAll).
Abbreviation sent := (sent ParseDuration MkdirAll).
Abbreviation loop_inv := (loop_inv ParseDuration MkdirAll).
Abbreviation FileAppender := (@FileAppender L).
Abbreviation System := (@System L).

Implicit Types (fa : FileAppender) (v : Value) (now : time.Time).

(** *** [SetOption] *)

Lemma post_reset_returns now fa :
  can_post fa ->
  post_reset now fa = Ret (None, set_loopReset (posted now fa) fa).
Proof.
  unfold can_post, post_reset, posted, chan_send. intros Hp.
  destruct (loopRunning fa) eqn:Hr.
  - destruct Hp as [-> Hlt]; [reflexivity |].
    apply Nat.ltb_lt in Hlt. now rewrite Hlt.
  - now destruct fa.
Qed.

Lemma post_reset_inv now fa e fa' :
  post_reset now fa = Ret (e, fa') ->
  e = None /\ fa' = set_loopReset (posted now fa) fa.
Proof.
  unfold post_reset, posted, chan_send. destruct (loopRunning fa) eqn:Hr.
  - destruct (closed (loopReset fa)); [discriminate |].
    destruct (_ <? _)%nat; [| discriminate].
    cbn. intros [= <- <-]. auto.
  - cbn. intros [= <- <-]. split; [reflexivity | now destruct fa].
Qed.

(** The equations of the cases of [SetOption]. *)
Lemma SetOption_maxsize v now fa :
  SetOption "maxsize" v now fa
  = let store n :=
      Ret (None, if cycle fa <=? 0
                 then set_out (rfw.SetMaxSize n (out fa)) (set_maxsize n fa)
                 else set_maxsize n fa) in
    match v with
    | VInt value => store value
    | VString value => store (StrToNumSuffix (strings.Trim value cutset_ws) 1024)
    | _ => Ret (Some ErrBadValue, fa)
    end.
Proof. destruct v; reflexivity. Qed.

Lemma SetOption_cycle v now fa :
  SetOption "cycle" v now fa
  = let store c :=
      post_reset now
        (set_out (rfw.SetMaxSize (if c <=? 0 then maxsize fa else 0) (out fa))
                 (set_cycle c fa)) in
    match v with
    | VInt value => store value
    | VString value => store (Z.quot (fst (ParseDuration value)) time.Second)
    | _ => Ret (Some ErrBadValue, fa)
    end.
Proof.
  destruct v as [c | value | | |]; try reflexivity; cbv zeta.
  - transitivity
      (post_reset now
         (if c <=? 0
          then set_out (rfw.SetMaxSize (maxsize fa) (out fa)) (set_cycle c fa)
          else set_out (rfw.SetMaxSize 0 (out fa)) (set_cycle c fa)));
      [reflexivity | now destruct (c <=? 0)].
  - set (c := Z.quot (fst (ParseDuration value)) time.Second).
    transitivity
      (post_reset now
         (if c <=? 0
          then set_out (rfw.SetMaxSize (maxsize fa) (out fa)) (set_cycle c fa)
          else set_out (rfw.SetMaxSize 0 (out fa)) (set_cycle c fa)));
      [reflexivity | now destruct (c <=? 0)].
Qed.

Lemma SetOption_clock name v now fa :
  name = "clock" \/ name = "delay0" ->
  SetOption name v now fa
  = match v with
    | VInt value => post_reset now (set_clock value fa)
    | VString value =>
        post_reset now (set_clock (Z.quot (fst (ParseDuration value)) time.Second) fa)
    | _ => Ret (Some ErrBadValue, fa)
    end.
Proof. intros [-> | ->]; destruct v; reflexivity. Qed.

Lemma SetOption_daily_eq v now fa :
  SetOption "daily" v now fa
  = let switch (daily : bool) :=
      if daily then
        post_reset now
          (set_out (rfw.SetMaxSize 0 (out fa))
                   (set_maxsize 0 (set_clock 0 (set_cycle 86400 fa))))
      else Ret (None, fa) in
    match v with
    | VString value =>
        switch (negb (String.eqb (strings.Trim value cutset_ws) "false"))
    | VBool value => switch value
    | _ => Ret (Some ErrBadValue, fa)
    end.
Proof. destruct v; reflexivity. Qed.

Lemma SetOption_unknown name v now fa :
  ~ In name recognized_options ->
  SetOption name v now fa = Ret (Some ErrBadOption, fa).
Proof.
  intros Hn. unfold SetOption.
  repeat match goal with
         | |- context [String.eqb name ?k] =>
             replace (String.eqb name k) with false
               by (symmetry; apply String.eqb_neq; intros ->; apply Hn;
                   unfold recognized_options; simpl; tauto)
         end.
  reflexivity.
Qed.

(** A case analysis over the option names: one goal for every
    recognised name, with the conditional of [SetOption] evaluated in
    [H], and one for the other names. *)
Ltac option_cases name H :=
  let Hin := fresh "Hin" in
  destruct (in_dec string_dec name recognized_options) as [Hin | Hin];
  [ unfold recognized_options in Hin; simpl in Hin;
    repeat (destruct Hin as [<- | Hin]); [ .. | contradiction ];
    lazy beta iota zeta delta
      [filelog.SetOption String.eqb Ascii.eqb Bool.eqb orb mret Res_ret] in H
  | rewrite (SetOption_unknown _ _ _ _ Hin) in H ].

(** Inversion of a case of [SetOption] that returned. *)
Ltac returned H :=
  repeat match type of H with
         | Ret _ = Ret _ => simplify_eq
         | Block = Ret _ => discriminate H
         | Panic = Ret _ => discriminate H
         | post_reset _ _ = Ret _ =>
             let He := fresh in
             let Hfa := fresh in
             apply post_reset_inv in H; destruct H as [He Hfa];
             first [ discriminate He | subst ]
         | (let '(_, _) := ?p in _) = Ret _ => destruct p
         | match ?x with _ => _ end = Ret _ => destruct x eqn:?
         end.

(** [SetOption] touches neither the queue nor [loopRunning], and makes
    no call that writes, flushes, rotates or closes. *)
Lemma SetOption_frame name v now fa e fa' :
  SetOption name v now fa = Ret (e, fa') ->
  messages fa' = messages fa /\ loopRunning fa' = loopRunning fa
  /\ rfw.calls (out fa') = rfw.calls (out fa).
Proof.
  intros H0. option_cases name H0; returned H0; by_cases.
Qed.

(** CLAIM C7: for every name that is not one of the recognised option
    names and every value, [SetOption] returns [ErrBadOption] and leaves
    the appender, its writer included, as it was. *)
Theorem SetOption_unsupported name v now fa :
  ~ In name recognized_options ->
  SetOption name v now fa = Ret (Some ErrBadOption, fa).
Proof. apply SetOption_unknown. Qed.

(** CLAIM C4: after [SetOption("cycle", v)] the threshold of the writer
    is [maxsize] when the new cycle is not positive and 0 when it is;
    after [SetOption("maxsize", v)] the threshold is set to the new
    [maxsize] exactly when the cycle is not positive; and no call of
    [SetOption] breaks the rule once it holds. *)
Theorem SetOption_keeps_modes_exclusive v now fa fa' :
  (SetOption "cycle" v now fa = Ret (None, fa') ->
   maxsize fa' = maxsize fa
   /\ out fa' = rfw.SetMaxSize (if cycle fa' <=? 0 then maxsize fa' else 0) (out fa))
  /\ (SetOption "maxsize" v now fa = Ret (None, fa') ->
      cycle fa' = cycle fa
      /\ out fa' = if cycle fa' <=? 0
                   then rfw.SetMaxSize (maxsize fa') (out fa) else out fa)
  /\ (forall name e,
        mode_exclusive fa -> SetOption name v now fa = Ret (e, fa') ->
        mode_exclusive fa').
Proof.
  split; [| split].
  - rewrite SetOption_cycle. intros H0. cbv zeta in H0. returned H0; by_cases.
  - rewrite SetOption_maxsize. intros H0. cbv zeta in H0. returned H0; by_cases.
  - intros name e Hm H0. unfold mode_exclusive in *.
    option_cases name H0; returned H0; cbn in *; by_cases.
Qed.


(** CLAIM C6 (as amended): for every option [SetOption] decides by
    itself, a value of a dynamic type the option has no case for (and
    for [filename] the empty string) gives [ErrBadValue] and leaves the
    appender as it was.  A string is never refused by [cycle], [clock],
    [maxsize] or [daily]: the call returns no error, [cycle] and [clock]
    become the whole seconds of the duration the parser returned,
    [maxsize] becomes the value of [StrToNumSuffix], and [daily] takes
    every string but "false" as true. *)
Theorem SetOption_bad_value name v s now fa :
  (In name typed_options -> accepted name v = false ->
   SetOption name v now fa = Ret (Some ErrBadValue, fa))
  /\ (forall e fa', SetOption "cycle" (VString s) now fa = Ret (e, fa') ->
      e = None /\ cycle fa' = Z.quot (fst (ParseDuration s)) time.Second)
  /\ (forall e fa', name = "clock" \/ name = "delay0" ->
      SetOption name (VString s) now fa = Ret (e, fa') ->
      e = None /\ clock fa' = Z.quot (fst (ParseDuration s)) time.Second)
  /\ (exists fa', SetOption "maxsize" (VString s) now fa = Ret (None, fa')
      /\ maxsize fa' = StrToNumSuffix (strings.Trim s cutset_ws) 1024)
  /\ (forall e fa', strings.Trim s cutset_ws <> "false" ->
      SetOption "daily" (VString s) now fa = Ret (e, fa') ->
      e = None /\ cycle fa' = 86400 /\ clock fa' = 0 /\ maxsize fa' = 0).
Proof.
  split; [| split; [| split; [| split]]].
  - intros Hin Hacc. unfold typed_options in Hin. simpl in Hin.
    repeat (destruct Hin as [<- | Hin]); [ .. | contradiction ];
      destruct v as [n | x | b | bs | ty]; try discriminate Hacc; try reflexivity.
    change (negb (String.eqb x "") = false) in Hacc.
    apply negb_false_iff, String.eqb_eq in Hacc. subst x. reflexivity.
  - intros e fa'. rewrite SetOption_cycle. cbv beta iota zeta.
    intros H0. returned H0. by_cases.
  - intros e fa' Hn. rewrite (SetOption_clock _ _ _ _ Hn).
    intros H0. returned H0. by_cases.
  - rewrite SetOption_maxsize. cbv beta iota zeta.
    eexists. split; [reflexivity |]. by_cases.
  - intros e fa' Hs. rewrite SetOption_daily_eq. cbv beta iota zeta.
    apply String.eqb_neq in Hs. rewrite Hs. cbn [negb].
    intros H0. returned H0. by_cases.
Qed.

(** CLAIM C9 (as amended): for a string of decimal digits, alone or
    followed by one of K, k, M, m, G, g, whose value times 1, 1024,
    1024 squared or 1024 cubed fits in a 64-bit [int],
    [StrToNumSuffix(s, 1024)] is that product, and
    [SetOption("maxsize", s)] stores it as [maxsize]. *)
Theorem StrToNumSuffix_decimal ds c f now fa :
  is_decimal ds -> suffix_factor c = Some f ->
  decimal_value ds * f <= MaxInt64 ->
  StrToNumSuffix (with_suffix (decimal_string ds) c) 1024 = decimal_value ds * f
  /\ exists fa',
      SetOption "maxsize" (VString (with_suffix (decimal_string ds) c)) now fa
      = Ret (None, fa')
      /\ maxsize fa' = decimal_value ds * f.
Proof.
  intros Hds Hf Hmax. split; [now apply StrToNumSuffix_numeral |].
  rewrite SetOption_maxsize. cbv beta iota zeta.
  rewrite (Trim_numeral ds c f Hds Hf), (StrToNumSuffix_numeral ds c f Hds Hf Hmax).
  eexists. split; [reflexivity |]. by_cases.
Qed.

(** *** The calls the writer receives *)

Lemma writes_app cs1 cs2 :
  rfw.writes (cs1 ++ cs2) = rfw.writes cs1 ++ rfw.writes cs2.
Proof.
  induction cs1 as [| c cs1 IH]; [reflexivity |].
  destruct c; simpl; now rewrite IH.
Qed.

Lemma rotations_app cs1 cs2 :
  rfw.rotations (cs1 ++ cs2) = (rfw.rotations cs1 + rfw.rotations cs2)%nat.
Proof.
  induction cs1 as [| c cs1 IH]; [reflexivity |].
  destruct c; simpl; now rewrite IH.
Qed.

Lemma writes_Write bb w :
  rfw.writes (rfw.calls (rfw.Write bb w)) = rfw.writes (rfw.calls w) ++ [bb].
Proof. unfold rfw.Write, rfw.record. cbn [rfw.calls]. now rewrite writes_app. Qed.

Lemma writes_Flush w :
  rfw.writes (rfw.calls (rfw.Flush w)) = rfw.writes (rfw.calls w).
Proof.
  unfold rfw.Flush, rfw.record. cbn [rfw.calls].
  rewrite writes_app. apply app_nil_r.
Qed.

Lemma writes_Rotate w :
  rfw.writes (rfw.calls (rfw.Rotate w)) = rfw.writes (rfw.calls w).
Proof.
  unfold rfw.Rotate, rfw.record. cbn [rfw.calls].
  rewrite writes_app. apply app_nil_r.
Qed.

Lemma writes_Close w :
  rfw.writes (rfw.calls (rfw.Close w)) = rfw.writes (rfw.calls w).
Proof.
  unfold rfw.Close, rfw.record. cbn [rfw.calls].
  rewrite writes_app. apply app_nil_r.
Qed.

Lemma writes_fold bbs w :
  rfw.writes (rfw.calls (fold_left (fun w bb => rfw.Write bb w) bbs w))
  = rfw.writes (rfw.calls w) ++ bbs.
Proof.
  revert w. induction bbs as [| bb bbs IH]; intros w; cbn [fold_left].
  - now rewrite app_nil_r.
  - rewrite IH, writes_Write, <- app_assoc. reflexivity.
Qed.

(** *** The steps of the write loop *)

Lemma bind_inv {A B : Type} (r : Res A) (k : A -> Res B) (b : B) :
  (r ≫= k) = Ret b -> exists a, r = Ret a /\ k a = Ret b.
Proof. destruct r as [a | |]; [eauto | discriminate | discriminate]. Qed.

(** The rotation check of the entry and of the timer case. *)
Lemma rotation_check fa :
  let fa' := if (0 <? cycle fa) && (maxsize fa <? rfw.Size (out fa))
             then set_out (rfw.Rotate (out fa)) fa else fa in
  (rfw.rotations (rfw.calls (out fa')) = S (rfw.rotations (rfw.calls (out fa)))
   <-> 0 < cycle fa /\ maxsize fa < rfw.Size (out fa))
  /\ (~ (0 < cycle fa /\ maxsize fa < rfw.Size (out fa)) -> fa' = fa)
  /\ rfw.writes (rfw.calls (out fa')) = rfw.writes (rfw.calls (out fa))
  /\ messages fa' = messages fa /\ loopRunning fa' = loopRunning fa
  /\ cycle fa' = cycle fa /\ clock fa' = clock fa /\ maxsize fa' = maxsize fa.
Proof.
  cbv zeta.
  destruct (Z.ltb_spec 0 (cycle fa)) as [Hc | Hc];
    destruct (Z.ltb_spec (maxsize fa) (rfw.Size (out fa))) as [Hs | Hs];
    cbn [andb]; fields.
  1: { unfold rfw.Rotate, rfw.record. cbn [rfw.calls].
       rewrite rotations_app, writes_app, app_nil_r. cbn [rfw.rotations].
       repeat split; try tauto; try lia. }
  all: repeat split; try tauto; try lia.
Qed.

(** CLAIM C3: on a timer event the loop computes the next deadline
    from the time it reads, arms the timer with it, and calls [Rotate]
    if and only if the cycle is positive and the size of the writer
    exceeds [maxsize]; on a token of [loopReset] it computes the
    deadline and arms the timer, and makes no call to the writer. *)
Theorem writeLoop_timer_and_reset now1 now2 fa t :
  pc t = PcSelect ->
  (exists fa' t',
      writeLoop_timer now1 now2 (fa, t) = Ret (fa', t')
      /\ nrt t' = nextTime now1 (cycle fa) (clock fa)
      /\ rotTimer t' = Some (time.Sub (nrt t') now2)
      /\ pc t' = PcSelect
      /\ (rfw.calls (out fa') = rfw.calls (out fa) ++ [rfw.CallRotate]
          <-> 0 < cycle fa /\ maxsize fa < rfw.Size (out fa))
      /\ (~ (0 < cycle fa /\ maxsize fa < rfw.Size (out fa)) -> fa' = fa))
  /\ (buf (loopReset fa) <> [] ->
      exists fa' t', writeLoop_reset now1 now2 (fa, t) = Ret (fa', t'))
  /\ (forall fa' t',
        writeLoop_reset now1 now2 (fa, t) = Ret (fa', t') ->
        nrt t' = nextTime now1 (cycle fa) (clock fa)
        /\ rotTimer t' = Some (time.Sub (nrt t') now2)
        /\ pc t' = PcSelect
        /\ out fa' = out fa).
Proof.
  intros Hpc. split; [| split].
  - unfold writeLoop_timer. rewrite Hpc. do 2 eexists. split; [reflexivity |].
    cbn [nrt rotTimer pc].
    split; [reflexivity | split; [reflexivity | split; [reflexivity |]]].
    assert (Hlen : rfw.calls (out fa) <> rfw.calls (out fa) ++ [rfw.CallRotate]).
    { intros E. apply (f_equal (@length _)) in E. rewrite length_app in E.
      cbn in E. lia. }
    destruct (Z.ltb_spec 0 (cycle fa));
      destruct (Z.ltb_spec (maxsize fa) (rfw.Size (out fa)));
      cbn [andb]; (split; [split |]); intros; try tauto; try lia; try reflexivity;
      congruence.
  - intros Hbuf. unfold writeLoop_reset, chan_recv. rewrite Hpc.
    destruct (buf (loopReset fa)) as [| x rest]; [contradiction |].
    do 2 eexists. reflexivity.
  - intros fa' t'. unfold writeLoop_reset. rewrite Hpc. intros H0.
    apply bind_inv in H0 as ([[x ok] ch] & _ & H0).
    cbv [mret Res_ret] in H0. simplify_eq.
    cbn [nrt rotTimer pc]. fields. auto.
Qed.

(** *** Lists of tasks *)

Lemma count_app p (l1 l2 : list (@Task)) :
  count p (l1 ++ l2) = (count p l1 + count p l2)%nat.
Proof. induction l1 as [| t l1 IH]; simpl; [reflexivity | rewrite IH; lia]. Qed.

Lemma count_middle p (l1 l2 : list (@Task)) t :
  count p (l1 ++ t :: l2) = (count p l1 + b2n (p t) + count p l2)%nat.
Proof. rewrite count_app. simpl. lia. Qed.

Lemma all_pending_middle (l1 l2 : list (@Task)) t :
  all_pending (l1 ++ t :: l2) = all_pending l1 ++ pending t ++ all_pending l2.
Proof. unfold all_pending. now rewrite flat_map_app. Qed.

Lemma lookup_split (l : list (@Task)) i t :
  l !! i = Some t ->
  exists l1 l2, l = l1 ++ t :: l2 /\ forall t', <[i := t']> l = l1 ++ t' :: l2.
Proof.
  intros Hi. exists (take i l), (drop (S i) l). split.
  - symmetry. now apply take_drop_middle.
  - intros t'. apply insert_take_drop. now apply lookup_lt_Some with t.
Qed.

Lemma no_alive_no_pending (l : list (@Task)) :
  alive_tasks l = 0%nat -> all_pending l = [].
Proof.
  unfold alive_tasks. induction l as [| t l IH]; [reflexivity |].
  change (all_pending (t :: l)) with (pending t ++ all_pending l).
  cbn [count]. unfold alive, pending.
  destruct (pc t); cbn [b2n]; try (intros; lia). exact IH.
Qed.

Lemma all_done_counts (l : list (@Task)) :
  Forall (fun t => pc t = PcDone) l ->
  all_pending l = [] /\ closed_seen l = length l.
Proof.
  induction 1 as [| t l Ht _ [IH1 IH2]]; [auto |].
  change (all_pending (t :: l)) with (pending t ++ all_pending l).
  change (closed_seen (t :: l)) with (b2n (saw_closed t) + closed_seen l)%nat.
  unfold pending, saw_closed. rewrite Ht, IH1, IH2. auto.
Qed.

(** A step of the one goroutine that is alive. *)
Lemma alive_step_view (l1 l2 : list (@Task)) t t' :
  alive t = true -> (alive_tasks (l1 ++ t :: l2) <= 1)%nat ->
  all_pending (l1 ++ t :: l2) = pending t
  /\ all_pending (l1 ++ t' :: l2) = pending t'
  /\ (closed_seen (l1 ++ t' :: l2) + b2n (saw_closed t)
      = closed_seen (l1 ++ t :: l2) + b2n (saw_closed t'))%nat
  /\ alive_tasks (l1 ++ t' :: l2) = b2n (alive t')
  /\ alive_tasks (l1 ++ t :: l2) = 1%nat
  /\ (b2n (saw_closed t) <= closed_seen (l1 ++ t :: l2))%nat.
Proof.
  intros Ha Hle. unfold alive_tasks, closed_seen in *.
  rewrite !count_middle in *. rewrite Ha in *. cbn [b2n] in *.
  assert (H1 : count alive l1 = 0%nat) by lia.
  assert (H2 : count alive l2 = 0%nat) by lia.
  rewrite !all_pending_middle.
  rewrite (no_alive_no_pending l1 H1), (no_alive_no_pending l2 H2), !app_nil_r.
  repeat split; try reflexivity; lia.
Qed.

(** *** Inversion of the steps *)

Lemma on_app_inv f (s s' : System) :
  on_app f s = Ret s' ->
  exists fa', f (appender s) = Ret fa' /\ s' = mkSystem fa' (tasks s).
Proof.
  unfold on_app. intros H0. apply bind_inv in H0 as (fa' & Hf & H0).
  cbv [mret Res_ret] in H0. simplify_eq. eauto.
Qed.

Lemma on_task_inv i f (s s' : System) :
  on_task i f s = Ret s' ->
  exists t fa' t',
    tasks s !! i = Some t /\ f (appender s, t) = Ret (fa', t')
    /\ s' = mkSystem fa' (<[i := t']> (tasks s)).
Proof.
  unfold on_task. destruct (tasks s !! i) as [t |] eqn:Hi; [| discriminate].
  intros H0. apply bind_inv in H0 as ([fa' t'] & Hf & H0).
  cbv [mret Res_ret] in H0. simplify_eq. eauto 6.
Qed.

Lemma writeLoop_start_inv now1 now2 fa t fa' t' :
  writeLoop_start now1 now2 (fa, t) = Ret (fa', t') ->
  pc t = PcStart /\ pc t' = PcSelect /\ ready t' = true
  /\ (exists d, rotTimer t' = Some d)
  /\ rfw.writes (rfw.calls (out fa')) = rfw.writes (rfw.calls (out fa))
  /\ messages fa' = messages fa /\ loopRunning fa' = loopRunning fa.
Proof.
  unfold writeLoop_start. destruct (pc t) eqn:Hpc; try discriminate.
  cbv [mret Res_ret]. intros H0. simplify_eq. cbn [pc ready rotTimer].
  pose proof (rotation_check fa) as Hrc. cbv zeta in Hrc.
  repeat split; eauto; apply Hrc.
Qed.

Lemma writeLoop_timer_inv now1 now2 fa t fa' t' :
  writeLoop_timer now1 now2 (fa, t) = Ret (fa', t') ->
  pc t = PcSelect /\ pc t' = PcSelect /\ ready t' = ready t
  /\ (exists d, rotTimer t' = Some d)
  /\ rfw.writes (rfw.calls (out fa')) = rfw.writes (rfw.calls (out fa))
  /\ messages fa' = messages fa /\ loopRunning fa' = loopRunning fa.
Proof.
  unfold writeLoop_timer. destruct (pc t) eqn:Hpc; try discriminate.
  cbv [mret Res_ret]. intros H0. simplify_eq. cbn [pc ready rotTimer].
  pose proof (rotation_check fa) as Hrc. cbv zeta in Hrc.
  repeat split; eauto; apply Hrc.
Qed.

Lemma writeLoop_reset_inv now1 now2 fa t fa' t' :
  writeLoop_reset now1 now2 (fa, t) = Ret (fa', t') ->
  pc t = PcSelect /\ pc t' = PcSelect /\ ready t' = ready t
  /\ (exists d, rotTimer t' = Some d)
  /\ rfw.writes (rfw.calls (out fa')) = rfw.writes (rfw.calls (out fa))
  /\ messages fa' = messages fa /\ loopRunning fa' = loopRunning fa.
Proof.
  unfold writeLoop_reset. destruct (pc t) eqn:Hpc; try discriminate.
  intros H0. apply bind_inv in H0 as ([[x ok] ch] & _ & H0).
  cbv [mret Res_ret] in H0. simplify_eq. cbn [pc ready rotTimer]. fields.
  repeat split; eauto.
Qed.

Lemma writeLoop_recv_inv fa t fa' t' :
  writeLoop_recv (fa, t) = Ret (fa', t') ->
  pc t = PcSelect /\ ready t' = ready t /\ rotTimer t' = rotTimer t
  /\ out fa' = out fa /\ loopRunning fa' = loopRunning fa
  /\ closed (messages fa') = closed (messages fa)
  /\ ((exists x, buf (messages fa) = x :: buf (messages fa') /\ pc t' = PcGot x true)
      \/ (buf (messages fa) = [] /\ closed (messages fa) = true
          /\ buf (messages fa') = [] /\ pc t' = PcGot [] false)).
Proof.
  unfold writeLoop_recv. destruct (pc t) eqn:Hpc; try discriminate.
  intros H0. apply bind_inv in H0 as ([[x ok] ch] & Hr & H0).
  cbv [mret Res_ret] in H0. simplify_eq. cbn [pc ready rotTimer]. fields.
  unfold chan_recv in Hr. destruct (buf (messages fa)) as [| y rest] eqn:Hb.
  - destruct (closed (messages fa)) eqn:Hc; [| discriminate]. simplify_eq.
    repeat split; auto.
  - simplify_eq. cbn [buf closed]. repeat split; auto. left. eauto.
Qed.

Lemma writeLoop_write_inv fa t fa' t' :
  writeLoop_write (fa, t) = Ret (fa', t') ->
  exists bb ok,
    pc t = PcGot bb ok /\ ready t' = ready t /\ rotTimer t' = rotTimer t
    /\ closed (messages fa') = closed (messages fa)
    /\ (ok = true ->
        pc t' = PcSelect /\ messages fa' = messages fa
        /\ loopRunning fa' = loopRunning fa
        /\ rfw.writes (rfw.calls (out fa'))
           = rfw.writes (rfw.calls (out fa)) ++ [bb])
    /\ (ok = false ->
        pc t' = PcDone /\ closed (messages fa) = true
        /\ buf (messages fa') = [] /\ loopRunning fa' = false
        /\ rfw.writes (rfw.calls (out fa'))
           = rfw.writes (rfw.calls (out fa)) ++ [bb] ++ buf (messages fa)).
Proof.
  unfold writeLoop_write. destruct (pc t) as [| | bb ok |] eqn:Hpc; try discriminate.
  intros H0. exists bb, ok. split; [reflexivity |].
  set (fa1 := set_out (rfw.Write bb (out fa)) fa) in H0.
  set (fa2 := if chan_len (messages fa1) <=? 0
              then set_out (rfw.Flush (out fa1)) fa1 else fa1) in H0.
  assert (Hm : messages fa2 = messages fa)
    by (subst fa2 fa1; destruct (_ <=? _); reflexivity).
  assert (Hr : loopRunning fa2 = loopRunning fa)
    by (subst fa2 fa1; destruct (_ <=? _); reflexivity).
  assert (Hw : rfw.writes (rfw.calls (out fa2))
               = rfw.writes (rfw.calls (out fa)) ++ [bb]).
  { subst fa2 fa1. destruct (_ <=? _); fields;
      rewrite ?writes_Flush; apply writes_Write. }
  clearbody fa2. clear fa1.
  destruct ok; cbn [negb] in H0.
  - cbv [mret Res_ret] in H0. simplify_eq. cbn [pc ready rotTimer].
    rewrite Hm. repeat split; auto; discriminate.
  - apply bind_inv in H0 as (fa3 & Hd & H0).
    cbv [mret Res_ret] in H0. simplify_eq. cbn [pc ready rotTimer].
    unfold drain in Hd. rewrite Hm in Hd.
    destruct (closed (messages fa)) eqn:Hc; [| discriminate].
    cbv [mret Res_ret] in Hd. simplify_eq. fields. cbn [buf closed].
    repeat split; auto; try discriminate.
    rewrite writes_fold, Hw, <- app_assoc. reflexivity.
Qed.

(** *** The invariant of the queue and the writer *)

Lemma repeat_snoc {A : Type} (x : A) n : repeat x (S n) = repeat x n ++ [x].
Proof. induction n as [| n IH]; [reflexivity |]. simpl in *. now rewrite <- IH. Qed.

(** A step that changes neither the writes, the queue, [loopRunning]
    nor the control point of a task keeps the invariant. *)
Lemma loop_inv_same X (s s' : System) :
  loop_inv_at X s ->
  written s' = written s ->
  messages (appender s') = messages (appender s) ->
  loopRunning (appender s') = loopRunning (appender s) ->
  all_pending (tasks s') = all_pending (tasks s) ->
  closed_seen (tasks s') = closed_seen (tasks s) ->
  alive_tasks (tasks s') = alive_tasks (tasks s) ->
  Forall (fun t => forall bb, pc t = PcGot bb false -> bb = []) (tasks s') ->
  loop_inv_at X s'.
Proof.
  unfold loop_inv_at. intros (H1 & H2 & H3 & H4 & H5) -> -> -> -> -> -> Hf.
  auto.
Qed.

(** The same for a step of a task that stays at a control point of the
    same kind. *)
Lemma loop_inv_task X (s : System) i t fa' t' :
  loop_inv_at X s ->
  tasks s !! i = Some t ->
  pending t' = pending t -> saw_closed t' = saw_closed t -> alive t' = alive t ->
  (forall bb, pc t' = PcGot bb false -> bb = []) ->
  rfw.writes (rfw.calls (out fa')) = rfw.writes (rfw.calls (out (appender s))) ->
  messages fa' = messages (appender s) ->
  loopRunning fa' = loopRunning (appender s) ->
  loop_inv_at X (mkSystem fa' (<[i := t']> (tasks s))).
Proof.
  intros Hinv Hi Hp Hs Ha Hn Hw Hm Hr.
  destruct (lookup_split _ _ _ Hi) as (l1 & l2 & El & Eins).
  apply (loop_inv_same X s); trivial; cbn [tasks appender]; rewrite ?Eins, ?El.
  - now rewrite !all_pending_middle, Hp.
  - unfold closed_seen. now rewrite !count_middle, Hs.
  - unfold alive_tasks. now rewrite !count_middle, Ha.
  - destruct Hinv as (_ & _ & H3 & _). rewrite El in H3.
    apply Forall_app in H3 as [F1 F2]. apply Forall_cons in F2 as [_ F2].
    apply Forall_app. split; [assumption |]. apply Forall_cons. auto.
Qed.

Lemma loop_inv_step X a (s s' : System) :
  loop_inv_at X s -> step a s = Ret s' -> loop_inv_at (X ++ emitted a s) s'.
Proof.
  intros Hinv Hstep. pose proof Hinv as (H1 & H2 & H3 & H4 & H5).
  destruct a as [rec | name v now | | i | | | i now1 now2 | i | i | i now1 now2
                 | i now1 now2];
    cbn [filelog.step emitted] in Hstep |- *; rewrite ?app_nil_r.
  - (* Write *)
    apply on_app_inv in Hstep as (fa' & Hw & ->).
    unfold Write in Hw. apply bind_inv in Hw as (ch & Hs & Hw).
    cbv [mret Res_ret] in Hw. simplify_eq.
    unfold chan_send in Hs.
    destruct (closed (messages (appender s))) eqn:Hc; [discriminate |].
    destruct (_ <? _)%nat; [| discriminate]. simplify_eq.
    assert (HK : closed_seen (tasks s) = 0%nat).
    { destruct (closed_seen (tasks s)); [reflexivity |].
      destruct H2 as [H2 _]; [lia | congruence]. }
    unfold loop_inv_at, written in *. cbn [tasks appender] in *. fields.
    cbn [buf closed enqueue]. rewrite HK in *. cbn [repeat] in *.
    norm_app. repeat split; auto; try lia.
    rewrite <- H1. now norm_app.
  - (* SetOption *)
    apply on_app_inv in Hstep as (fa' & Hw & ->).
    apply bind_inv in Hw as ([e fa1] & Hs & Hw).
    cbv [mret Res_ret] in Hw. simplify_eq. cbn [snd].
    destruct (SetOption_frame _ _ _ _ _ _ Hs) as (Em & Er & Ec).
    apply (loop_inv_same X s); trivial; unfold written; cbn [tasks appender];
      congruence.
  - (* Init *)
    cbv [mret Res_ret] in Hstep. simplify_eq. unfold Init.
    destruct (loopRunning (appender s)) eqn:Hr; [assumption |].
    specialize (H5 eq_refl).
    unfold loop_inv_at, written, alive_tasks, closed_seen, all_pending in *.
    cbn [tasks appender]. fields.
    rewrite flat_map_app, !count_app. cbn [flat_map count pending saw_closed alive pc b2n].
    norm_app. rewrite !Nat.add_0_r.
    split; [exact H1 | split; [exact H2 | split; [| split; [lia | discriminate]]]].
    apply Forall_app. split; [assumption |]. apply Forall_cons. split; [| constructor].
    cbn [pc]. discriminate.
  - (* the return of Init *)
    unfold Init_return in Hstep. destruct (tasks s !! i); [| discriminate].
    destruct (ready t); [| discriminate]. cbv [mret Res_ret] in Hstep. now simplify_eq.
  - (* Close, the queue *)
    apply on_app_inv in Hstep as (fa' & Hw & ->).
    unfold Close_begin in Hw. apply bind_inv in Hw as (ch & Hs & Hw).
    cbv [mret Res_ret] in Hw. simplify_eq. unfold chan_close in Hs.
    destruct (closed (messages (appender s))) eqn:Hc; [discriminate |]. simplify_eq.
    assert (HK : closed_seen (tasks s) = 0%nat).
    { destruct (closed_seen (tasks s)); [reflexivity |].
      destruct H2 as [H2 _]; [lia | congruence]. }
    unfold loop_inv_at, written in *. cbn [tasks appender] in *. fields.
    cbn [buf closed]. rewrite HK in *. repeat split; auto; lia.
  - (* Close, the writer and the reset channel *)
    apply on_app_inv in Hstep as (fa' & Hw & ->).
    unfold Close_end in Hw. apply bind_inv in Hw as (ch & Hs & Hw).
    cbv [mret Res_ret] in Hw. simplify_eq.
    apply (loop_inv_same X s); trivial; unfold written; cbn [tasks appender]; fields;
      trivial. apply writes_Close.
  - (* the entry of the loop *)
    apply on_task_inv in Hstep as (t & fa' & t' & Hi & Hf & ->).
    apply writeLoop_start_inv in Hf as (Hp & Hp' & _ & _ & Hw & Hm & Hr).
    apply (loop_inv_task X s i t); trivial;
      unfold pending, saw_closed, alive; rewrite ?Hp, ?Hp'; trivial; discriminate.
  - (* receive *)
    apply on_task_inv in Hstep as (t & fa' & t' & Hi & Hf & ->).
    apply writeLoop_recv_inv in Hf as (Hp & _ & _ & Ho & Hr & Hc & Hcase).
    destruct (lookup_split _ _ _ Hi) as (l1 & l2 & El & Eins).
    assert (Ha : alive t = true) by (unfold alive; now rewrite Hp).
    rewrite El in H4.
    destruct (alive_step_view l1 l2 t t' Ha H4) as (V1 & V2 & V3 & V4 & V5 & V6).
    assert (F3 : forall t'', (forall bb, pc t'' = PcGot bb false -> bb = []) ->
                 Forall (fun t => forall bb, pc t = PcGot bb false -> bb = [])
                        (l1 ++ t'' :: l2)).
    { intros t'' Ht''. rewrite El in H3.
      apply Forall_app in H3 as [F1 F2]. apply Forall_cons in F2 as [_ F2].
      apply Forall_app. split; [assumption |]. apply Forall_cons. auto. }
    unfold loop_inv_at, written in *. cbn [tasks appender] in *.
    rewrite Eins, El in *. rewrite V1 in H1. rewrite V2, V4, Ho, Hr, Hc.
    unfold pending, saw_closed, alive in *. rewrite Hp in *. cbn [b2n] in *.
    destruct Hcase as [(x & Hb & Hp') | (Hb & Hcl & Hb' & Hp')]; rewrite Hp' in *;
      cbn [b2n] in *.
    + rewrite Hb in *. cbn [app] in *.
      assert (HK : closed_seen (l1 ++ t :: l2) = 0%nat).
      { destruct (closed_seen (l1 ++ t :: l2)); [reflexivity |].
        destruct H2 as [_ H2]; [lia | discriminate]. }
      replace (closed_seen (l1 ++ t' :: l2)) with 0%nat by lia.
      rewrite HK in H1. fin.
    + rewrite Hb, Hb' in *. norm_app.
      replace (closed_seen (l1 ++ t' :: l2)) with (S (closed_seen (l1 ++ t :: l2))) by lia.
      rewrite repeat_snoc. norm_app. fin.
      cbn [app] in *. rewrite app_assoc, <- H1. now norm_app.
  - (* write *)
    apply on_task_inv in Hstep as (t & fa' & t' & Hi & Hf & ->).
    apply writeLoop_write_inv in Hf as (bb & ok & Hp & _ & _ & Hc & Hok & Hnok).
    destruct (lookup_split _ _ _ Hi) as (l1 & l2 & El & Eins).
    assert (Ha : alive t = true) by (unfold alive; now rewrite Hp).
    rewrite El in H4.
    destruct (alive_step_view l1 l2 t t' Ha H4) as (V1 & V2 & V3 & V4 & V5 & V6).
    assert (F3 : forall t'', (forall bb, pc t'' = PcGot bb false -> bb = []) ->
                 Forall (fun t => forall bb, pc t = PcGot bb false -> bb = [])
                        (l1 ++ t'' :: l2)).
    { intros t'' Ht''. rewrite El in H3.
      apply Forall_app in H3 as [F1 F2]. apply Forall_cons in F2 as [_ F2].
      apply Forall_app. split; [assumption |]. apply Forall_cons. auto. }
    unfold loop_inv_at, written in *. cbn [tasks appender] in *.
    rewrite Eins, El in *. rewrite V1 in H1. rewrite V2, V4, Hc.
    unfold pending, saw_closed, alive in *. rewrite Hp in *.
    destruct ok.
    + destruct (Hok eq_refl) as (Hp' & Hm & Hr & Hw). rewrite Hp' in *.
      cbn [b2n] in *. rewrite Hm, Hr, Hw.
      replace (closed_seen (l1 ++ t' :: l2)) with (closed_seen (l1 ++ t :: l2)) by lia.
      norm_app. fin.
    + destruct (Hnok eq_refl) as (Hp' & Hcl & Hb' & Hr & Hw). rewrite Hp' in *.
      cbn [b2n] in *. rewrite Hb', Hr, Hw.
      replace (closed_seen (l1 ++ t' :: l2)) with (closed_seen (l1 ++ t :: l2)) by lia.
      destruct H2 as [_ Hb]; [lia |]. rewrite Hb in *.
      norm_app. fin.
  - (* timer *)
    apply on_task_inv in Hstep as (t & fa' & t' & Hi & Hf & ->).
    apply writeLoop_timer_inv in Hf as (Hp & Hp' & _ & _ & Hw & Hm & Hr).
    apply (loop_inv_task X s i t); trivial;
      unfold pending, saw_closed, alive; rewrite ?Hp, ?Hp'; trivial; discriminate.
  - (* reset *)
    apply on_task_inv in Hstep as (t & fa' & t' & Hi & Hf & ->).
    apply writeLoop_reset_inv in Hf as (Hp & Hp' & _ & _ & Hw & Hm & Hr).
    apply (loop_inv_task X s i t); trivial;
      unfold pending, saw_closed, alive; rewrite ?Hp, ?Hp'; trivial; discriminate.
Qed.

(** *** Runs *)

Lemma run_cons_inv a tr (s s' : System) :
  run (a :: tr) s = Ret s' ->
  exists s1, step a s = Ret s1 /\ run tr s1 = Ret s'.
Proof. cbn [filelog.run]. apply bind_inv. Qed.

Lemma loop_inv_run tr : forall X (s s' : System),
  loop_inv_at X s -> run tr s = Ret s' -> loop_inv_at (X ++ sent tr s) s'.
Proof.
  induction tr as [| a tr IH]; intros X s s' Hinv Hrun.
  - cbv [filelog.run mret Res_ret] in Hrun. simplify_eq.
    cbn [filelog.sent]. now rewrite app_nil_r.
  - apply run_cons_inv in Hrun as (s1 & Hstep & Hrun).
    cbn [filelog.sent]. rewrite Hstep, app_assoc.
    apply (IH _ s1); [| assumption]. now apply loop_inv_step.
Qed.

Lemma loop_inv_quiescent (s0 : System) : quiescent s0 -> loop_inv_at (written s0) s0.
Proof.
  intros (Ht & Hr & Hc & Hb). unfold loop_inv_at. rewrite Ht, Hb.
  cbn. rewrite app_nil_r. repeat split; auto; lia.
Qed.

Lemma loop_inv_reachable (s0 : System) tr s :
  quiescent s0 -> run tr s0 = Ret s -> loop_inv s0 tr s.
Proof.
  intros Hq Hrun. unfold loop_inv.
  apply (loop_inv_run tr (written s0) s0 s); [now apply loop_inv_quiescent | assumption].
Qed.

(** When every loop has returned, the writer has received the messages
    sent and one empty message for each loop, and the queue is empty. *)
Lemma returned_written (s0 : System) tr s :
  loop_inv s0 tr s -> loops_returned s ->
  written s = written s0 ++ sent tr s0 ++ repeat [] (length (tasks s))
  /\ buf (messages (appender s)) = [].
Proof.
  intros (H1 & H2 & _) [Hne Hdone].
  destruct (all_done_counts _ Hdone) as [Ep Ec]. rewrite Ep, Ec in *.
  destruct H2 as [_ Hb].
  { destruct (tasks s); [contradiction | simpl; lia]. }
  rewrite Hb, !app_nil_r in H1. rewrite H1, <- app_assoc. auto.
Qed.


(** *** The loop alone on a closed queue *)


Lemma step_recv_some (s : System) i t x rest :
  tasks s !! i = Some t -> pc t = PcSelect ->
  buf (messages (appender s)) = x :: rest ->
  step (ActLoopRecv i) s
  = Ret (mkSystem
           (set_messages (mkChan rest (cap (messages (appender s)))
                                 (closed (messages (appender s)))) (appender s))
           (<[i := mkTask (PcGot x true) (ready t) (nrt t) (rotTimer t)]> (tasks s))).
Proof.
  intros Hi Hp Hb. cbn [filelog.step]. unfold on_task. rewrite Hi.
  unfold writeLoop_recv, chan_recv. rewrite Hp, Hb. reflexivity.
Qed.


Lemma step_write (s : System) i t bb ok :
  tasks s !! i = Some t -> pc t = PcGot bb ok ->
  (ok = false -> closed (messages (appender s)) = true) ->
  exists fa' t',
    step (ActLoopWrite i) s = Ret (mkSystem fa' (<[i := t']> (tasks s)))
    /\ pc t' = (if ok then PcSelect else PcDone)
    /\ closed (messages fa') = closed (messages (appender s))
    /\ buf (messages fa') = (if ok then buf (messages (appender s)) else [])
    /\ (ok = false -> loopRunning fa' = false)
    /\ rfw.writes (rfw.calls (out fa'))
       = rfw.writes (rfw.calls (out (appender s))) ++ [bb]
         ++ (if ok then [] else buf (messages (appender s))).
Proof.
  intros Hi Hp Hc.
  assert (Hret : exists r, writeLoop_write (appender s, t) = Ret r).
  { unfold writeLoop_write. rewrite Hp. destruct ok; cbn [negb].
    - eexists. reflexivity.
    - unfold drain.
      match goal with |- context [closed (messages ?fa)] =>
        replace (closed (messages fa)) with true
          by (symmetry; rewrite <- (Hc eq_refl);
              destruct (_ <=? _); reflexivity)
      end.
      eexists. reflexivity. }
  destruct Hret as [[fa' t'] Hret].
  exists fa', t'. cbn [filelog.step]. unfold on_task. rewrite Hi, Hret.
  split; [reflexivity |].
  apply writeLoop_write_inv in Hret
    as (bb' & ok' & Hp' & _ & _ & Hcl & Hok & Hnok).
  rewrite Hp in Hp'. injection Hp' as <- <-.
  destruct ok.
  - destruct (Hok eq_refl) as (-> & -> & _ & ->). rewrite app_nil_r.
    repeat split; auto. discriminate.
  - destruct (Hnok eq_refl) as (-> & _ & -> & -> & ->). repeat split; auto.
Qed.



(** CLAIM C10: a task whose receive reported the queue closed holds the
    empty message; its next step writes that one message, drains
    nothing more, and returns; so when the loops have returned the
    writer has received, beyond the messages sent, exactly one empty
    message for each loop. *)
Theorem shutdown_writes_one_empty_message (s0 : System) tr s :
  quiescent s0 -> run tr s0 = Ret s ->
  (forall i t bb,
      tasks s !! i = Some t -> pc t = PcGot bb false ->
      bb = []
      /\ exists s' t',
          step (ActLoopWrite i) s = Ret s'
          /\ written s' = written s ++ [[]]
          /\ tasks s' = <[i := t']> (tasks s) /\ pc t' = PcDone)
  /\ (loops_returned s ->
      written s = written s0 ++ sent tr s0 ++ repeat [] (length (tasks s))).
Proof.
  intros Hq Hrun. pose proof (loop_inv_reachable s0 tr s Hq Hrun) as Hinv.
  split.
  - intros i t bb Hi Hp. destruct Hinv as (_ & H2 & H3 & H4 & _).
    destruct (lookup_split _ _ _ Hi) as (l1 & l2 & El & _).
    assert (Hbb : bb = []).
    { rewrite El in H3. apply Forall_app in H3 as [_ H3].
      apply Forall_cons in H3 as [H3 _]. now apply H3. }
    assert (HK : (0 < closed_seen (tasks s))%nat).
    { rewrite El. unfold closed_seen. rewrite count_middle.
      unfold saw_closed at 2. rewrite Hp. cbn [b2n]. lia. }
    destruct (H2 HK) as [Hc Hb]. split; [exact Hbb |].
    destruct (step_write s i t bb false Hi Hp (fun _ => Hc))
      as (fa' & t' & Hs & Hp' & _ & _ & _ & Hw).
    exists (mkSystem fa' (<[i := t']> (tasks s))), t'.
    unfold written. cbn [tasks appender]. rewrite Hw, Hb, Hbb. auto.
  - intros Hret. apply (returned_written s0 tr s Hinv Hret).
Qed.

(** *** [Init] and the prologue of the loop *)

(** What a step does to the task at index [i]: nothing, or the
    prologue, or a step of the loop proper. *)
Lemma step_task a (s s' : System) i t :
  step a s = Ret s' -> tasks s !! i = Some t ->
  exists t',
    tasks s' !! i = Some t'
    /\ (t' = t
        \/ ((exists now1 now2, a = ActLoopStart i now1 now2)
            /\ pc t = PcStart /\ pc t' <> PcStart /\ ready t' = true
            /\ exists d, rotTimer t' = Some d)
        \/ (pc t <> PcStart /\ pc t' <> PcStart /\ ready t' = ready t
            /\ ((exists d, rotTimer t' = Some d) \/ rotTimer t' = rotTimer t))).
Proof.
  intros Hstep Hi.
  assert (Htask : forall j f,
             on_task j f s = Ret s' ->
             (forall fa' t', f (appender s, t) = Ret (fa', t') ->
                ((exists now1 now2, a = ActLoopStart j now1 now2)
                 /\ pc t = PcStart /\ pc t' <> PcStart /\ ready t' = true
                 /\ exists d, rotTimer t' = Some d)
                \/ (pc t <> PcStart /\ pc t' <> PcStart /\ ready t' = ready t
                    /\ ((exists d, rotTimer t' = Some d)
                        \/ rotTimer t' = rotTimer t))) ->
             exists t',
               tasks s' !! i = Some t'
               /\ (t' = t
                   \/ ((exists now1 now2, a = ActLoopStart i now1 now2)
                       /\ pc t = PcStart /\ pc t' <> PcStart /\ ready t' = true
                       /\ exists d, rotTimer t' = Some d)
                   \/ (pc t <> PcStart /\ pc t' <> PcStart /\ ready t' = ready t
                       /\ ((exists d, rotTimer t' = Some d)
                           \/ rotTimer t' = rotTimer t)))).
  { intros j f Hon Hf.
    apply on_task_inv in Hon as (t0 & fa' & t1 & Hj & Hr & ->). cbn [tasks].
    destruct (decide (j = i)) as [-> | Hne].
    - rewrite Hi in Hj. injection Hj as <-. exists t1.
      split; [apply list_lookup_insert_eq; now apply lookup_lt_Some with t |].
      right. now apply (Hf fa').
    - exists t. split; [now rewrite list_lookup_insert_ne | now left]. }
  destruct a as [rec | name v now | | j | | | j now1 now2 | j | j | j now1 now2
                 | j now1 now2]; cbn [filelog.step] in Hstep.
  1, 2, 5, 6: apply on_app_inv in Hstep as (fa' & _ & ->); cbn [tasks]; eauto.
  - cbv [mret Res_ret] in Hstep. simplify_eq. unfold Init.
    destruct (loopRunning (appender s)); [eauto |]. cbn [tasks].
    exists t. split; [now apply lookup_app_l_Some | now left].
  - unfold Init_return in Hstep. destruct (tasks s !! j); [| discriminate].
    destruct (ready t0); [| discriminate].
    cbv [mret Res_ret] in Hstep. simplify_eq. eauto.
  - apply (Htask j _ Hstep). intros fa' t' Hf.
    apply writeLoop_start_inv in Hf as (Hp & Hp' & Hr & Hd & _).
    left. repeat split; eauto. rewrite Hp'. discriminate.
  - apply (Htask j _ Hstep). intros fa' t' Hf.
    apply writeLoop_recv_inv in Hf as (Hp & Hr & Hd & _ & _ & _ & Hcase).
    right. rewrite Hp.
    repeat split; auto; try discriminate.
    destruct Hcase as [(x & _ & ->) | (_ & _ & _ & ->)]; discriminate.
  - apply (Htask j _ Hstep). intros fa' t' Hf.
    apply writeLoop_write_inv in Hf as (bb & ok & Hp & Hr & Hd & _ & Hok & Hnok).
    right. rewrite Hp. repeat split; auto; try discriminate.
    destruct ok; [destruct (Hok eq_refl) as (-> & _) | destruct (Hnok eq_refl) as (-> & _)];
      discriminate.
  - apply (Htask j _ Hstep). intros fa' t' Hf.
    apply writeLoop_timer_inv in Hf as (Hp & Hp' & Hr & Hd & _).
    right. rewrite Hp, Hp'. repeat split; auto; discriminate.
  - apply (Htask j _ Hstep). intros fa' t' Hf.
    apply writeLoop_reset_inv in Hf as (Hp & Hp' & Hr & Hd & _).
    right. rewrite Hp, Hp'. repeat split; auto; discriminate.
Qed.

(** Once the prologue has run, the task stays past it, its [ready]
    channel stays closed and its timer armed. *)
Lemma started_stable tr : forall (s s' : System) i t,
  run tr s = Ret s' -> tasks s !! i = Some t ->
  pc t <> PcStart -> ready t = true -> (exists d, rotTimer t = Some d) ->
  exists t', tasks s' !! i = Some t' /\ pc t' <> PcStart /\ ready t' = true
             /\ exists d, rotTimer t' = Some d.
Proof.
  induction tr as [| a tr IH]; intros s s' i t Hrun Hi Hp Hr Hd.
  - cbv [filelog.run mret Res_ret] in Hrun. simplify_eq. eauto.
  - apply run_cons_inv in Hrun as (s1 & Hstep & Hrun).
    destruct (step_task a s s1 i t Hstep Hi)
      as (t1 & Hi1 & [-> | [(_ & Hp0 & _) | (_ & Hp1 & Hr1 & Hd1)]]).
    + now apply (IH s1 s' i t).
    + contradiction.
    + apply (IH s1 s' i t1); trivial; [congruence |].
      destruct Hd1 as [Hd1 | Hd1]; [assumption | now rewrite Hd1].
Qed.

(** A task at its entry stays there with [ready] open until its
    prologue runs. *)
Lemma waits_for_start tr : forall (s s' : System) i t,
  run tr s = Ret s' -> tasks s !! i = Some t ->
  pc t = PcStart -> ready t = false ->
  exists t',
    tasks s' !! i = Some t'
    /\ ((pc t' = PcStart /\ ready t' = false)
        \/ (started i tr /\ pc t' <> PcStart /\ ready t' = true
            /\ exists d, rotTimer t' = Some d)).
Proof.
  induction tr as [| a tr IH]; intros s s' i t Hrun Hi Hp Hr.
  - cbv [filelog.run mret Res_ret] in Hrun. simplify_eq. eauto.
  - apply run_cons_inv in Hrun as (s1 & Hstep & Hrun).
    destruct (step_task a s s1 i t Hstep Hi)
      as (t1 & Hi1 & [-> | [((now1 & now2 & ->) & _ & Hp1 & Hr1 & Hd1) | (Hp0 & _)]]).
    + destruct (IH s1 s' i t Hrun Hi1 Hp Hr) as (t' & Hi' & [Hw | (Hs & Hrest)]).
      * eauto.
      * exists t'. split; [assumption | right]. split; [| assumption].
        destruct Hs as (n1 & n2 & Hin). exists n1, n2. now right.
    + destruct (started_stable tr s1 s' i t1 Hrun Hi1 Hp1 Hr1 Hd1)
        as (t' & Hi' & Hrest).
      exists t'. split; [assumption | right]. split; [| assumption].
      exists now1, now2. now left.
    + contradiction.
Qed.

(** CLAIM C8: the first call of [Init] sets [loopRunning], starts
    exactly one [writeLoop] goroutine and waits on its [ready] channel,
    which is closed only by the prologue of that goroutine, after its
    rotation check and with its first deadline computed and its timer
    armed; the prologue can always run.  A call made while
    [loopRunning] is true changes nothing and waits for nothing. *)
Theorem Init_idempotent (s : System) :
  (loopRunning (appender s) = false ->
   let i := length (tasks s) in
   loopRunning (appender (Init s)) = true
   /\ tasks (Init s) = tasks s ++ [mkTask PcStart false time.zero None]
   /\ Init_waits_on s = Some i
   /\ Init_return i (Init s) = Block
   /\ (forall tr s',
         run tr (Init s) = Ret s' -> Init_return i s' = Ret s' ->
         started i tr
         /\ exists t d,
             tasks s' !! i = Some t /\ pc t <> PcStart /\ rotTimer t = Some d)
   /\ (forall now1 now2, exists s' t,
         step (ActLoopStart i now1 now2) (Init s) = Ret s'
         /\ Init_return i s' = Ret s'
         /\ tasks s' !! i = Some t
         /\ nrt t = nextTime now1 (cycle (appender s)) (clock (appender s))
         /\ rotTimer t = Some (time.Sub (nrt t) now2)
         /\ (rfw.calls (out (appender s'))
             = rfw.calls (out (appender s)) ++ [rfw.CallRotate]
             <-> 0 < cycle (appender s)
                 /\ maxsize (appender s) < rfw.Size (out (appender s)))))
  /\ (loopRunning (appender s) = true ->
      Init s = s /\ Init_waits_on s = None).
Proof.
  split.
  - intros Hr i. unfold Init, Init_waits_on. rewrite Hr.
    set (t0 := mkTask PcStart false time.zero None).
    set (s1 := mkSystem (set_loopRunning true (appender s)) (tasks s ++ [t0])).
    assert (Hi : tasks s1 !! i = Some t0).
    { subst s1 i. cbn [tasks]. rewrite lookup_app_r by lia.
      now rewrite Nat.sub_diag. }
    split; [reflexivity | split; [reflexivity | split; [reflexivity |]]].
    split; [| split].
    + unfold Init_return. now rewrite Hi.
    + intros tr s' Hrun Hret.
      destruct (waits_for_start tr s1 s' i t0 Hrun Hi eq_refl eq_refl)
        as (t' & Hi' & [[_ Hnr] | (Hs & Hp & _ & d & Hd)]).
      * unfold Init_return in Hret. rewrite Hi', Hnr in Hret. discriminate.
      * split; [assumption |]. eauto.
    + intros now1 now2. cbn [filelog.step]. unfold on_task. rewrite Hi.
      cbn [writeLoop_start pc t0].
      cbv [mbind Res_bind mret Res_ret].
      do 2 eexists. split; [reflexivity |].
      assert (Hlt : (i < length (tasks s1))%nat).
      { now apply lookup_lt_Some with t0. }
      unfold Init_return. cbn [tasks appender].
      rewrite list_lookup_insert_eq by exact Hlt. cbn [ready nrt rotTimer].
      split; [reflexivity | split; [reflexivity |]].
      subst s1. cbn [appender].
      assert (Hlen : rfw.calls (out (appender s))
                     <> rfw.calls (out (appender s)) ++ [rfw.CallRotate]).
      { intros E. apply (f_equal (@length _)) in E. rewrite length_app in E.
        cbn in E. lia. }
      fields.
      destruct (Z.ltb_spec 0 (cycle (appender s)));
        destruct (Z.ltb_spec (maxsize (appender s)) (rfw.Size (out (appender s))));
        cbn [andb]; fields;
        (split; [reflexivity | split; [reflexivity |]]);
        split; intros; try tauto; try lia; try reflexivity; congruence.
  - intros Hr. unfold Init, Init_waits_on. now rewrite Hr.
Qed.

End FilelogProps.

(* ================================================================== *)
(** ** The helpers on concrete inputs *)

Example StrToNumSuffix_10M : l4g.StrToNumSuffix "10M" 1024 = 10485760.
Proof. reflexivity. Qed.

Example StrToNumSuffix_2g : l4g.StrToNumSuffix "2g" 1024 = 2147483648.
Proof. reflexivity. Qed.

Example StrToNumSuffix_4096 : l4g.StrToNumSuffix "4096" 1024 = 4096.
Proof. reflexivity. Qed.

Example StrToNumSuffix_K_alone : l4g.StrToNumSuffix "K" 1024 = 0.
Proof. reflexivity. Qed.

Example StrToNumSuffix_not_a_number : l4g.StrToNumSuffix "lots" 1024 = 0.
Proof. reflexivity. Qed.

Example StrToNumSuffix_negative : l4g.StrToNumSuffix "-3k" 1024 = -3072.
Proof. reflexivity. Qed.

Example Atoi_range : strconv.Atoi "9223372036854775808" = (MaxInt64, true).
Proof. reflexivity. Qed.

Example Atoi_syntax : strconv.Atoi "12a" = (0, true).
Proof. reflexivity. Qed.

Example Trim_both_ends : strings.Trim "  10M  " cutset_ws = "10M".
Proof. reflexivity. Qed.

Example Trim_inner_kept : strings.Trim " a b " cutset_ws = "a b".
Proof. reflexivity. Qed.

Example Trim_all_blank : strings.Trim "   " cutset_ws = "".
Proof. reflexivity. Qed.

Example ParseDuration_hours : example.ParseDuration "1h30m" = (5400000000000, false).
Proof. reflexivity. Qed.

Example ParseDuration_invalid : example.ParseDuration "soon" = (0, true).
Proof. reflexivity. Qed.

Example nextTime_daily_at_one :
  nextTime example.afternoon 0 3600
  = time.mkTime 1710115200000000000 (time.mkLocation 3600).
Proof. reflexivity. Qed.

Example nextTime_in_an_hour :
  nextTime example.afternoon 3600 (-1)
  = time.mkTime 1710084600000000000 (time.mkLocation 3600).
Proof. reflexivity. Qed.

Example session_writes :
  exists s, example.run example.session (example.boot "app.log" 3) = Ret s
            /\ written s = [list_byte_of_string "first";
                            list_byte_of_string "second"; []]
            /\ loopRunning (appender s) = false.
Proof. eexists. split; [vm_compute; reflexivity | split; reflexivity]. Qed.

Example Write_after_Close_panics :
  example.run [ActCloseBegin; ActWrite "late"] (example.boot "app.log" 3) = Panic.
Proof. reflexivity. Qed.

(* ================================================================== *)
(** ** The claims on concrete inputs *)




(** C3 on a fresh appender whose writer holds one byte: the timer case
    rotates. *)
Lemma writeLoop_timer_and_reset_witness :
  pc example.selecting = PcSelect
  /\ exists fa' t',
      writeLoop_timer example.afternoon example.afternoon
        (set_out (rfw.Write (list_byte_of_string "x") (out example.fresh)) example.fresh,
         example.selecting) = Ret (fa', t')
      /\ nrt t' = nextTime example.afternoon 86400 (-1)
      /\ rfw.calls (out fa')
         = [rfw.CallWrite (list_byte_of_string "x"); rfw.CallRotate].
Proof.
  split; [reflexivity |].
  destruct (writeLoop_timer_and_reset (L := example.EchoLayout)
              example.afternoon example.afternoon
              (set_out (rfw.Write (list_byte_of_string "x") (out example.fresh))
                       example.fresh)
              example.selecting eq_refl)
    as ((fa' & t' & Hstep & Hnrt & _ & _ & Hrot & _) & _).
  exists fa', t'. split; [exact Hstep | split; [exact Hnrt |]].
  rewrite (proj2 Hrot); [reflexivity | split; vm_compute; reflexivity].
Defined.

(** C4 on a fresh appender: a cycle of one hour sets the threshold of the
    writer to 0. *)
Lemma SetOption_keeps_modes_exclusive_witness :
  exists fa',
    example.SetOption "cycle" (l4g.VString "1h") example.t0 example.fresh
    = Ret (None, fa')
    /\ cycle fa' = 3600
    /\ out fa' = rfw.SetMaxSize 0 (out example.fresh).
Proof.
  eexists. split; [vm_compute; reflexivity |].
  match goal with
  | |- cycle ?fa' = _ /\ _ =>
      assert (Hret : example.SetOption "cycle" (l4g.VString "1h") example.t0
                       example.fresh = Ret (None, fa')) by (vm_compute; reflexivity);
      destruct (SetOption_keeps_modes_exclusive example.ParseDuration example.MkdirAll
                  (l4g.VString "1h") example.t0 example.fresh fa') as (Hcycle & _);
      destruct (Hcycle Hret) as (_ & Hout)
  end.
  split; [reflexivity | exact Hout].
Defined.


(** C6 (as amended) on a fresh appender: a bool is no value for [cycle]. *)
Lemma SetOption_bad_value_witness :
  In "cycle" typed_options /\ accepted "cycle" (l4g.VBool true) = false
  /\ example.SetOption "cycle" (l4g.VBool true) example.t0 example.fresh
     = Ret (Some l4g.ErrBadValue, example.fresh).
Proof.
  assert (Hin : In "cycle" typed_options) by (unfold typed_options; simpl; tauto).
  split; [exact Hin | split; [reflexivity |]].
  destruct (SetOption_bad_value example.ParseDuration example.MkdirAll
              "cycle" (l4g.VBool true) "" example.t0 example.fresh) as (Htype & _).
  exact (Htype Hin eq_refl).
Defined.

(** C6 as stated fails: strings that do not parse are taken without an
    error, and the appender changes. *)
Lemma SetOption_unparseable_counterexample :
  example.SetOption "cycle" (l4g.VString "soon") example.t0 example.fresh
  = Ret (None, set_out (rfw.SetMaxSize 0 (out example.fresh))
                       (set_cycle 0 example.fresh))
  /\ example.SetOption "clock" (l4g.VString "soon") example.t0 example.fresh
     = Ret (None, set_clock 0 example.fresh)
  /\ example.SetOption "maxsize" (l4g.VString "lots") example.t0
       (set_maxsize 4096 example.fresh)
     = Ret (None, set_maxsize 0 example.fresh)
  /\ example.SetOption "daily" (l4g.VString "perhaps") example.t0 example.fresh
     = Ret (None, set_out (rfw.SetMaxSize 0 (out example.fresh))
                          (set_clock 0 example.fresh))
  /\ example.SetOption "daily" (l4g.VString "perhaps") example.t0 example.fresh
     <> Ret (Some l4g.ErrBadValue, example.fresh).
Proof. repeat split; try reflexivity. vm_compute. discriminate. Qed.

(** C7 on a fresh appender. *)
Lemma SetOption_unsupported_witness :
  ~ In "bogus" recognized_options
  /\ example.SetOption "bogus" (l4g.VInt 1) example.t0 example.fresh
     = Ret (Some l4g.ErrBadOption, example.fresh).
Proof.
  assert (Hn : ~ In "bogus" recognized_options).
  { unfold recognized_options. simpl. intuition discriminate. }
  split; [exact Hn |].
  exact (SetOption_unsupported example.ParseDuration example.MkdirAll
           "bogus" (l4g.VInt 1) example.t0 example.fresh Hn).
Defined.

(** C8 on a new appender: the first [Init] starts one goroutine, the
    second changes nothing. *)
Lemma Init_idempotent_witness :
  loopRunning (appender (example.boot "app.log" 3)) = false
  /\ length (tasks (Init (example.boot "app.log" 3))) = 1%nat
  /\ Init_waits_on (example.boot "app.log" 3) = Some 0%nat
  /\ Init (Init (example.boot "app.log" 3)) = Init (example.boot "app.log" 3)
  /\ Init_waits_on (Init (example.boot "app.log" 3)) = None.
Proof.
  split; [reflexivity |].
  destruct (Init_idempotent example.ParseDuration example.MkdirAll
              (example.boot "app.log" 3)) as (Hfirst & _).
  destruct (Hfirst eq_refl) as (Hrun & Htasks & Hwait & _).
  destruct (Init_idempotent example.ParseDuration example.MkdirAll
              (Init (example.boot "app.log" 3))) as (_ & Hlater).
  destruct (Hlater Hrun) as (Hsame & Hnone).
  split; [rewrite Htasks; reflexivity | split; [exact Hwait | split; assumption]].
Defined.

(** C9 (as amended) on 10M. *)
Lemma StrToNumSuffix_decimal_witness :
  is_decimal [1; 0] /\ suffix_factor (Some "M"%char) = Some 1048576
  /\ decimal_value [1; 0] * 1048576 <= MaxInt64
  /\ l4g.StrToNumSuffix "10M" 1024 = 10485760
  /\ exists fa',
      example.SetOption "maxsize" (l4g.VString "10M") example.t0 example.fresh
      = Ret (None, fa')
      /\ maxsize fa' = 10485760.
Proof.
  assert (Hd : is_decimal [1; 0]).
  { split; [discriminate | repeat constructor; lia]. }
  assert (Hf : suffix_factor (Some "M"%char) = Some 1048576) by reflexivity.
  assert (Hm : decimal_value [1; 0] * 1048576 <= MaxInt64) by (vm_compute; discriminate).
  split; [exact Hd | split; [exact Hf | split; [exact Hm |]]].
  exact (StrToNumSuffix_decimal example.ParseDuration example.MkdirAll
           [1; 0] (Some "M"%char) 1048576 example.t0 example.fresh Hd Hf Hm).
Defined.

(** C9 as stated fails for 9007199254740992K: the product is 2 to the
    power 63 and wraps around to its negative. *)
Lemma StrToNumSuffix_overflow_counterexample :
  is_decimal example.big_digits
  /\ decimal_string example.big_digits = "9007199254740992"
  /\ suffix_factor (Some "K"%char) = Some 1024
  /\ decimal_value example.big_digits * 1024 = 2 ^ 63
  /\ l4g.StrToNumSuffix (with_suffix (decimal_string example.big_digits) (Some "K"%char)) 1024
     = - 2 ^ 63.
Proof.
  split; [split; [discriminate | repeat constructor; lia] |].
  repeat split; reflexivity.
Qed.

(** C10 on the session, at the receive that finds the queue closed. *)
Lemma shutdown_writes_one_empty_message_witness :
  exists s s',
    quiescent (example.boot "app.log" 3)
    /\ example.run example.until_closed (example.boot "app.log" 3) = Ret s
    /\ (exists t, tasks s !! 0%nat = Some t /\ pc t = PcGot [] false)
    /\ example.step (ActLoopWrite 0) s = Ret s'
    /\ written s' = written s ++ [[]].
Proof.
  assert (Hq : quiescent (example.boot "app.log" 3)) by (repeat split; reflexivity).
  destruct (example.run example.until_closed (example.boot "app.log" 3))
    as [s | |] eqn:Hrun; try (vm_compute in Hrun; discriminate Hrun).
  destruct (shutdown_writes_one_empty_message example.ParseDuration example.MkdirAll
              (example.boot "app.log" 3) example.until_closed s Hq Hrun)
    as (Hstep & _).
  assert (Ht : exists t, tasks s !! 0%nat = Some t /\ pc t = PcGot [] false).
  { vm_compute in Hrun. injection Hrun as <-. eexists. split; reflexivity. }
  destruct Ht as (t & Hi & Hp).
  destruct (Hstep 0%nat t [] Hi Hp) as (_ & s' & t' & Hs & Hw & _).
  exists s, s'. repeat split; eauto.
Defined.

(* ================================================================== *)
(** ** The casts and the suffixed numbers *)

Lemma wrap64_rep z : exists k, wrap64 z = z + k * 2 ^ 64.
Proof.
  exists (- ((z + 2 ^ 63) / 2 ^ 64)). unfold wrap64.
  change (2 ^ 63) with 9223372036854775808.
  change (2 ^ 64) with 18446744073709551616. lia.
Qed.

Lemma wrap64_shift z k : wrap64 (z + k * 2 ^ 64) = wrap64 z.
Proof.
  unfold wrap64.
  replace (z + k * 2 ^ 64 + 2 ^ 63) with (z + 2 ^ 63 + k * 2 ^ 64) by ring.
  now rewrite Z.mod_add by (now vm_compute).
Qed.

Lemma mul64_wrap_l a b : mul64 (wrap64 a) b = mul64 a b.
Proof.
  unfold mul64. destruct (wrap64_rep a) as [k ->].
  replace ((a + k * 2 ^ 64) * b) with (a * b + (k * b) * 2 ^ 64) by ring.
  apply wrap64_shift.
Qed.

Lemma mul64_wrap_r a b : mul64 a (wrap64 b) = mul64 a b.
Proof.
  unfold mul64. rewrite (Z.mul_comm a (wrap64 b)), (Z.mul_comm a b).
  apply mul64_wrap_l.
Qed.

(** The multiplier applied [k] times, as the source computes it. *)
Lemma suffix_product mult :
  mul64 1 mult = wrap64 (mult ^ 1)
  /\ mul64 (mul64 1 mult) mult = wrap64 (mult ^ 2)
  /\ mul64 (mul64 (mul64 1 mult) mult) mult = wrap64 (mult ^ 3).
Proof.
  assert (E1 : mul64 1 mult = wrap64 (mult ^ 1)) by (unfold mul64; f_equal; ring).
  assert (E2 : mul64 (mul64 1 mult) mult = wrap64 (mult ^ 2)).
  { rewrite E1. unfold mul64 at 1. fold (mul64 (wrap64 (mult ^ 1)) mult).
    rewrite mul64_wrap_l. unfold mul64. f_equal. ring. }
  repeat split; trivial.
  rewrite E2. rewrite mul64_wrap_l. unfold mul64. f_equal. ring.
Qed.

Lemma suffix_power_byte c :
  suffix_power c
  = if Ascii.eqb c "G" || Ascii.eqb c "g" then Some 3
    else if Ascii.eqb c "M" || Ascii.eqb c "m" then Some 2
    else if Ascii.eqb c "K" || Ascii.eqb c "k" then Some 1
    else None.
Proof.
  unfold suffix_power.
  repeat match goal with
         | |- context [Ascii.eqb c ?x] =>
             destruct (Ascii.eqb_spec c x); [subst c; reflexivity |]
         end; reflexivity.
Qed.

(** The switch of [strToNumSuffix] and of [StrToNumSuffix]. *)
Lemma suffix_switch str mult :
  (if 1 <? Z.of_nat (String.length str) then
     let c := last_byte str in
     if byte_is c "G" || byte_is c "g" then
       (mul64 (mul64 (mul64 1 mult) mult) mult, drop_last str)
     else if byte_is c "M" || byte_is c "m" then
       (mul64 (mul64 1 mult) mult, drop_last str)
     else if byte_is c "K" || byte_is c "k" then
       (mul64 1 mult, drop_last str)
     else (1, str)
   else (1, str))
  = (wrap64 (mult ^ fst (suffix_split str)), snd (suffix_split str)).
Proof.
  unfold suffix_split.
  destruct (1 <? Z.of_nat (String.length str)); [| reflexivity].
  destruct (suffix_product mult) as (E1 & E2 & E3). rewrite E3, E2, E1.
  destruct (last_byte str) as [c |]; [| reflexivity].
  rewrite suffix_power_byte. cbn [byte_is].
  destruct (Ascii.eqb c "G" || Ascii.eqb c "g"); [reflexivity |].
  destruct (Ascii.eqb c "M" || Ascii.eqb c "m"); [reflexivity |].
  destruct (Ascii.eqb c "K" || Ascii.eqb c "k"); reflexivity.
Qed.

(** Both functions in closed form. *)
Lemma strToNumSuffix_eq (str : string) (mult : Z) :
  cast.strToNumSuffix str mult
  = (wrap64 (fst (strconv.Atoi (snd (suffix_split str))) * mult ^ fst (suffix_split str)),
     cast.parse_error "strconv.Atoi" (snd (strconv.Atoi (snd (suffix_split str)))))
  /\ l4g.StrToNumSuffix str mult = fst (cast.strToNumSuffix str mult).
Proof.
  unfold cast.strToNumSuffix, l4g.StrToNumSuffix.
  rewrite suffix_switch.
  destruct (strconv.Atoi (snd (suffix_split str))) as [v failed]. cbn [fst snd].
  rewrite mul64_wrap_r. split; reflexivity.
Qed.

(** PROPERTY X1: whatever the string and the multiplier, [strToNumSuffix]
    returns the number [strconv.Atoi] reads from the string without its
    suffix byte, times the multiplier to the power of the suffix, wrapped to
    64 bits, with the error of [strconv.Atoi]; [StrToNumSuffix] returns the
    same number and no error. *)
Theorem strToNumSuffix_closed_form (str : string) (mult : Z) :
  let k := fst (suffix_split str) in
  let parsed := strconv.Atoi (snd (suffix_split str)) in
  cast.strToNumSuffix str mult
  = (wrap64 (fst parsed * mult ^ k), cast.parse_error "strconv.Atoi" (snd parsed))
  /\ l4g.StrToNumSuffix str mult = fst (cast.strToNumSuffix str mult).
Proof.
  cbv zeta. unfold cast.strToNumSuffix, l4g.StrToNumSuffix.
  rewrite suffix_switch.
  destruct (strconv.Atoi (snd (suffix_split str))) as [v failed]. cbn [fst snd].
  rewrite mul64_wrap_r. split; reflexivity.
Qed.

(** ** The strings [strconv.Atoi] reads *)

(** The bounds of [int] as numerals. *)
Ltac bounds :=
  unfold fits_int, signed, MinInt64, MaxInt64 in *;
  change (2 ^ 63) with 9223372036854775808 in *;
  change (2 ^ 64) with 18446744073709551616 in *.

Lemma digit_val_char c : strconv.is_digit c = true ->
  0 <= strconv.digit_val c <= 9 /\ digit_char (strconv.digit_val c) = c.
Proof.
  unfold strconv.is_digit, strconv.digit_val, digit_char. cbv zeta.
  intros H. apply andb_true_iff in H as [H1 H2].
  apply Z.leb_le in H1, H2. split; [lia |].
  replace (Z.to_nat (48 + (Z.of_nat (nat_of_ascii c) - 48))) with (nat_of_ascii c) by lia.
  apply ascii_nat_embedding.
Qed.

Lemma digits_from_inv s : forall acc v,
  strconv.digits_from acc s = Some v ->
  exists ds, s = decimal_string ds /\ Forall (fun d => 0 <= d <= 9) ds
             /\ v = fold_left (fun a d => 10 * a + d) ds acc.
Proof.
  induction s as [| c s IH]; intros acc v H; simpl in H.
  - injection H as <-. exists []. repeat split. constructor.
  - destruct (strconv.is_digit c) eqn:Hc; [| discriminate].
    destruct (digit_val_char c Hc) as [Hr Hd].
    destruct (IH _ _ H) as (ds & -> & Hds & ->).
    exists (strconv.digit_val c :: ds). cbn [decimal_string fold_left].
    rewrite Hd. repeat split; [now constructor |]. f_equal. lia.
Qed.

Lemma parse_digits_inv s v :
  strconv.parse_digits s = Some v ->
  exists ds, s = decimal_string ds /\ is_decimal ds /\ v = decimal_value ds.
Proof.
  unfold strconv.parse_digits. destruct s as [| c s]; [discriminate |].
  intros H. destruct (digits_from_inv _ _ _ H) as (ds & E & Hds & ->).
  exists ds. repeat split; trivial. intros ->. discriminate.
Qed.

Lemma parse_digits_decimal ds : is_decimal ds ->
  strconv.parse_digits (decimal_string ds) = Some (decimal_value ds).
Proof.
  intros [Hne Hds]. destruct ds as [| d ds]; [contradiction |].
  unfold strconv.parse_digits. cbn [decimal_string].
  change (String (digit_char d) (decimal_string ds)) with (decimal_string (d :: ds)).
  now rewrite digits_from_decimal.
Qed.

Lemma Atoi_inv s v :
  strconv.Atoi s = (v, false) ->
  exists sg ds, s = (sign_string sg ++ decimal_string ds)%string /\ is_decimal ds
                /\ fits_int sg (decimal_value ds) /\ v = signed sg (decimal_value ds).
Proof.
  unfold strconv.Atoi. destruct s as [| c rest]; [discriminate |].
  cbv zeta. intros H.
  destruct (Ascii.eqb_spec c "-") as [-> | Hm]; cbn [orb] in H.
  - destruct (strconv.parse_digits rest) as [un |] eqn:Hp; [| discriminate].
    destruct (parse_digits_inv _ _ Hp) as (ds & -> & Hds & ->).
    destruct (Z.ltb_spec (2 ^ 63) (decimal_value ds)); [discriminate |].
    injection H as <-. exists (Some true), ds.
    split; [reflexivity | split; [exact Hds | split; [split | reflexivity]]].
    + bounds. lia.
    + pose proof (decimal_value_nonneg ds (proj2 Hds)).
      bounds. lia.
  - destruct (Ascii.eqb_spec c "+") as [-> | Hp'].
    + destruct (strconv.parse_digits rest) as [un |] eqn:Hp; [| discriminate].
      destruct (parse_digits_inv _ _ Hp) as (ds & -> & Hds & ->).
      destruct (Z.leb_spec (2 ^ 63) (decimal_value ds)); [discriminate |].
      injection H as <-. exists (Some false), ds.
      split; [reflexivity | split; [exact Hds | split; [split | reflexivity]]].
      * pose proof (decimal_value_nonneg ds (proj2 Hds)).
        bounds. lia.
      * bounds. lia.
    + destruct (strconv.parse_digits (String c rest)) as [un |] eqn:Hp; [| discriminate].
      destruct (parse_digits_inv _ _ Hp) as (ds & E & Hds & ->).
      destruct (Z.leb_spec (2 ^ 63) (decimal_value ds)); [discriminate |].
      injection H as <-. exists None, ds.
      split; [exact E | split; [exact Hds | split; [split | reflexivity]]].
      * pose proof (decimal_value_nonneg ds (proj2 Hds)).
        bounds. lia.
      * bounds. lia.
Qed.

Lemma Atoi_signed sg ds :
  is_decimal ds -> fits_int sg (decimal_value ds) ->
  strconv.Atoi (sign_string sg ++ decimal_string ds)%string
  = (signed sg (decimal_value ds), false).
Proof.
  intros Hds [Hlo Hhi]. destruct sg as [[|] |]; cbn [sign_string signed] in *.
  - change ("-" ++ decimal_string ds)%string with (String "-" (decimal_string ds)).
    unfold strconv.Atoi. cbv zeta. change (Ascii.eqb "-" "-") with true. cbn [orb].
    rewrite parse_digits_decimal by assumption.
    destruct (Z.ltb_spec (2 ^ 63) (decimal_value ds)); [| reflexivity].
    bounds. lia.
  - change ("+" ++ decimal_string ds)%string with (String "+" (decimal_string ds)).
    unfold strconv.Atoi. cbv zeta. change (Ascii.eqb "+" "-") with false.
    change (Ascii.eqb "+" "+") with true. cbn [orb].
    rewrite parse_digits_decimal by assumption.
    destruct (Z.leb_spec (2 ^ 63) (decimal_value ds)); [| reflexivity].
    bounds. lia.
  - change ("" ++ decimal_string ds)%string with (decimal_string ds).
    apply Atoi_decimal; assumption.
Qed.

(** ** The suffix of a numeral *)

Lemma string_snoc s c : last_byte s = Some c -> s = (drop_last s ++ String c "")%string.
Proof.
  induction s as [| a s IH]; [discriminate |].
  destruct s as [| b s'].
  - simpl. now intros [= ->].
  - intros H. change (last_byte (String a (String b s'))) with (last_byte (String b s')) in H.
    change (drop_last (String a (String b s'))) with (String a (drop_last (String b s'))).
    change (String a (drop_last (String b s')) ++ String c "")%string
      with (String a (drop_last (String b s') ++ String c ""))%string.
    now rewrite <- IH.
Qed.

Lemma append_assoc_snoc (a b : string) c :
  (a ++ (b ++ String c ""))%string = ((a ++ b) ++ String c "")%string.
Proof.
  induction a as [| x a IH]; [reflexivity |].
  change (String x (a ++ (b ++ String c "")) = String x ((a ++ b) ++ String c ""))%string.
  now rewrite IH.
Qed.

Lemma last_byte_append (a b : string) : b <> EmptyString ->
  last_byte (a ++ b)%string = last_byte b.
Proof.
  intros Hb. induction a as [| x a IH]; [reflexivity |].
  simpl. destruct (a ++ b)%string eqn:E; [| exact IH].
  destruct a; simpl in E; [contradiction | discriminate].
Qed.

Lemma decimal_string_nonempty ds : is_decimal ds -> decimal_string ds <> EmptyString.
Proof. intros [Hne _]. destruct ds; [contradiction | discriminate]. Qed.

Lemma length_append (a b : string) :
  String.length (a ++ b)%string = (String.length a + String.length b)%nat.
Proof.
  induction a as [| x a IH]; [reflexivity |].
  change (S (String.length (a ++ b)%string) = S (String.length a + String.length b)).
  now rewrite IH.
Qed.

Lemma suffix_power_digit d : 0 <= d <= 9 -> suffix_power (digit_char d) = None.
Proof. intros Hd. each_digit d Hd; reflexivity. Qed.

Lemma suffix_split_numeral sg ds c f :
  is_decimal ds -> suffix_factor c = Some f ->
  exists k, f = 1024 ^ k
    /\ suffix_split (numeral sg ds c) = (k, (sign_string sg ++ decimal_string ds)%string).
Proof.
  intros Hds Hf. unfold numeral, suffix_split.
  destruct c as [c |]; cbn [with_suffix suffix_factor] in *.
  - destruct (suffix_power c) as [k |] eqn:Hk; [| discriminate]. injection Hf as <-.
    exists k. split; [reflexivity |].
    rewrite append_assoc_snoc, length_snoc, last_byte_snoc, drop_last_snoc, Hk.
    rewrite length_append, length_decimal.
    destruct Hds as [Hne _]. destruct ds; [contradiction |].
    destruct (Z.ltb_spec 1 (Z.of_nat (S (String.length (sign_string sg) + length (z :: ds)))));
      [reflexivity | simpl in *; lia].
  - injection Hf as <-. exists 0. split; [reflexivity |].
    destruct (last_byte_decimal ds Hds) as (d & Hd & Hl).
    rewrite last_byte_append by now apply decimal_string_nonempty.
    rewrite Hl, suffix_power_digit by assumption.
    now destruct (1 <? _).
Qed.

Lemma suffix_split_inv s k body :
  suffix_split s = (k, body) ->
  exists c f, s = with_suffix body c /\ suffix_factor c = Some f /\ f = 1024 ^ k.
Proof.
  unfold suffix_split. intros H.
  destruct (1 <? Z.of_nat (String.length s)).
  - destruct (last_byte s) as [c |] eqn:Hl.
    + destruct (suffix_power c) as [k' |] eqn:Hk; injection H as <- <-.
      * exists (Some c), (1024 ^ k'). cbn [with_suffix suffix_factor]. rewrite Hk.
        repeat split. now apply string_snoc.
      * exists None, 1. repeat split.
    + injection H as <- <-. exists None, 1. repeat split.
  - injection H as <- <-. exists None, 1. repeat split.
Qed.

(** PROPERTY X2: the strings [ToInt] reads without an error are exactly the
    signed numerals: an optional sign, one or more decimal digits whose
    value under the sign is in the range of [int], and an optional suffix
    byte among K, k, M, m, G, g; the number returned is the value times the
    factor of the suffix, wrapped to 64 bits. *)
Theorem ToInt_reads_numerals (s : string) :
  (snd (cast.ToInt (l4g.VString s)) = None
   <-> exists sg ds c f,
         s = numeral sg ds c /\ is_decimal ds /\ suffix_factor c = Some f
         /\ fits_int sg (decimal_value ds))
  /\ (forall sg ds c f,
        is_decimal ds -> suffix_factor c = Some f -> fits_int sg (decimal_value ds) ->
        cast.ToInt (l4g.VString (numeral sg ds c))
        = (wrap64 (signed sg (decimal_value ds) * f), None)).
Proof.
  assert (Hnum : forall sg ds c f,
             is_decimal ds -> suffix_factor c = Some f -> fits_int sg (decimal_value ds) ->
             cast.ToInt (l4g.VString (numeral sg ds c))
             = (wrap64 (signed sg (decimal_value ds) * f), None)).
  { intros sg ds c f Hds Hf Hfit. cbn [cast.ToInt].
    destruct (strToNumSuffix_eq (numeral sg ds c) 1024) as [-> _].
    destruct (suffix_split_numeral sg ds c f Hds Hf) as (k & -> & ->). cbn [fst snd].
    now rewrite Atoi_signed. }
  split; [| exact Hnum]. split.
  - cbn [cast.ToInt].
    destruct (strToNumSuffix_eq s 1024) as [-> _]. cbn [snd].
    destruct (suffix_split s) as [k body] eqn:Hs. cbn [fst snd].
    destruct (strconv.Atoi body) as [v failed] eqn:Ha. cbn [snd].
    destruct failed; [discriminate |]. intros _.
    destruct (Atoi_inv _ _ Ha) as (sg & ds & -> & Hds & Hfit & _).
    destruct (suffix_split_inv _ _ _ Hs) as (c & f & -> & Hf & _).
    exists sg, ds, c, f. repeat split; trivial; try apply Hds; try apply Hfit.
    unfold numeral. destruct c as [c |]; cbn [with_suffix]; [| reflexivity].
    symmetry. apply append_assoc_snoc.
  - intros (sg & ds & c & f & -> & Hds & Hf & Hfit).
    now rewrite (Hnum sg ds c f).
Qed.

(* ================================================================== *)
(** ** The options of the file appender and the casts *)

Section OptionsAndCasts.

Context {LogRecord L : Type} `{!l4g.Layout LogRecord L}.
Variable ParseDuration : string -> time.Duration * bool.
Variable MkdirAll : string -> option l4g.error.

Abbreviation SetOption' := (filelog.SetOption ParseDuration MkdirAll).
Abbreviation Set' := (Set_ ParseDuration MkdirAll).
Abbreviation ToSeconds' := (cast.ToSeconds ParseDuration).

Lemma ToInt_string_value s :
  fst (cast.ToInt (l4g.VString s)) = l4g.StrToNumSuffix s 1024
  /\ snd (cast.ToInt (l4g.VString s)) <> Some l4g.ErrBadValue.
Proof.
  cbn [cast.ToInt]. destruct (strToNumSuffix_eq s 1024) as [E ->].
  split; [reflexivity |]. rewrite E. cbn [snd].
  destruct (snd (strconv.Atoi _)); discriminate.
Qed.

Lemma ToSeconds_string_value s :
  fst (ToSeconds' (l4g.VString s)) = Z.quot (fst (ParseDuration s)) time.Second
  /\ snd (ToSeconds' (l4g.VString s)) <> Some l4g.ErrBadValue.
Proof.
  cbn [cast.ToSeconds]. destruct (ParseDuration s) as [d failed]. cbn [fst snd].
  split; [reflexivity |]. destruct failed; discriminate.
Qed.

(** PROPERTY X3: for the numeric options, [SetOption] stores what the casts
    of the package read from the value: [ToInt] of the trimmed value for
    [maxsize], [ToSeconds] of the value for [cycle], [clock] and [delay0];
    it returns [ErrBadValue] exactly when the cast does, and no error
    otherwise, also when the cast reports a string it cannot parse. *)
Theorem SetOption_stores_casts name v now (fa : @FileAppender L) e fa' :
  SetOption' name v now fa = Ret (e, fa') ->
  (name = "maxsize" ->
     (e = Some l4g.ErrBadValue <-> snd (cast.ToInt (trimmed v)) = Some l4g.ErrBadValue)
     /\ (e <> Some l4g.ErrBadValue ->
         e = None /\ maxsize fa' = fst (cast.ToInt (trimmed v))))
  /\ (name = "cycle" ->
     (e = Some l4g.ErrBadValue <-> snd (ToSeconds' v) = Some l4g.ErrBadValue)
     /\ (e <> Some l4g.ErrBadValue ->
         e = None /\ cycle fa' = fst (ToSeconds' v)))
  /\ (name = "clock" \/ name = "delay0" ->
     (e = Some l4g.ErrBadValue <-> snd (ToSeconds' v) = Some l4g.ErrBadValue)
     /\ (e <> Some l4g.ErrBadValue ->
         e = None /\ clock fa' = fst (ToSeconds' v))).
Proof.
  intros Hret. split; [| split].
  - intros ->. rewrite SetOption_maxsize in Hret. cbv zeta in Hret.
    destruct v as [n | s | b | bs | ty]; cbn [trimmed];
      try (injection Hret as <- <-; split; [tauto | congruence]).
    + injection Hret as <- <-. split; [split; discriminate |].
      intros _. split; [reflexivity |]. by_cases.
    + injection Hret as <- <-.
      destruct (ToInt_string_value (strings.Trim s cutset_ws)) as [Ev Ee].
      split; [split; [discriminate | intros; contradiction] |].
      intros _. split; [reflexivity |]. rewrite Ev. by_cases.
  - intros ->. rewrite SetOption_cycle in Hret. cbv zeta in Hret.
    destruct v as [n | s | b | bs | ty];
      try (injection Hret as <- <-; split; [tauto | congruence]).
    + apply post_reset_inv in Hret as [-> ->]. split; [split; discriminate |].
      intros _. split; reflexivity.
    + apply post_reset_inv in Hret as [-> ->].
      destruct (ToSeconds_string_value s) as [Ev Ee].
      split; [split; [discriminate | intros; contradiction] |].
      intros _. split; [reflexivity |]. now rewrite Ev.
  - intros Hn. rewrite (SetOption_clock _ _ _ _ _ _ Hn) in Hret.
    destruct v as [n | s | b | bs | ty];
      try (injection Hret as <- <-; split; [tauto | congruence]).
    + apply post_reset_inv in Hret as [-> ->]. split; [split; discriminate |].
      intros _. split; reflexivity.
    + apply post_reset_inv in Hret as [-> ->].
      destruct (ToSeconds_string_value s) as [Ev Ee].
      split; [split; [discriminate | intros; contradiction] |].
      intros _. split; [reflexivity |]. now rewrite Ev.
Qed.

Lemma ParseBool_spellings s b :
  cast.ToBool (l4g.VString s) = (b, None) ->
  In s ["1"; "t"; "T"; "true"; "TRUE"; "True"; "0"; "f"; "F"; "false"; "FALSE"; "False"].
Proof.
  cbn [cast.ToBool]. unfold cast.ParseBool. cbn [existsb In].
  repeat match goal with
         | |- context [String.eqb s ?x] =>
             destruct (String.eqb_spec s x); [subst s; tauto |]
         end.
  cbn. discriminate.
Qed.

(** PROPERTY X4: [daily] does not read its string as [ToBool] does: of the
    twelve spellings [ToBool] accepts, true or false, every one but
    ["false"] switches the daily rotation on. *)
Theorem daily_differs_from_ToBool s b now (fa : @FileAppender L) :
  cast.ToBool (l4g.VString s) = (b, None) -> s <> "false" -> can_post fa ->
  exists fa',
    SetOption' "daily" (l4g.VString s) now fa = Ret (None, fa')
    /\ cycle fa' = 86400 /\ clock fa' = 0 /\ maxsize fa' = 0
    /\ rfw.maxsize (out fa') = 0.
Proof.
  intros Hb Hs Hpost. apply ParseBool_spellings in Hb.
  assert (Ht : strings.Trim s cutset_ws <> "false").
  { cbn [In] in Hb.
    repeat (destruct Hb as [<- | Hb]; [try (vm_compute; discriminate); try contradiction |]).
    contradiction. }
  rewrite SetOption_daily_eq. cbv zeta.
  destruct (String.eqb_spec (strings.Trim s cutset_ws) "false"); [contradiction |].
  cbn [negb]. rewrite post_reset_returns.
  - eexists. split; [reflexivity |]. repeat split.
  - exact Hpost.
Qed.

(** Unfolding of a chain of calls on an appender given by its fields. *)
Ltac chain_simp :=
  cbv beta iota zeta delta
    [post_reset chan_send enqueue mbind Res_bind mret Res_ret fst snd
     layout messages out maxsize cycle clock loopRunning loopReset
     set_layout set_messages set_out set_maxsize set_cycle set_clock
     set_loopRunning set_loopReset buf cap closed
     rfw.filename rfw.flush rfw.maxbackup rfw.maxsize rfw.head rfw.foot
     rfw.size rfw.calls rfw.SetMaxSize].

(** PROPERTY X5: the order in which [maxsize] and [cycle] are set does not
    matter: the two chains of [Set] leave the same appender, whatever the
    values, and one blocks or panics when the other does. *)
Theorem Set_maxsize_cycle_commute v1 v2 now1 now2 (fa : @FileAppender L) :
  (fa1 ← Set' "maxsize" v1 now1 fa; Set' "cycle" v2 now2 fa1)
  = (fa2 ← Set' "cycle" v2 now2 fa; Set' "maxsize" v1 now1 fa2).
Proof.
  unfold Set_.
  destruct fa as [ly ms o mx cy ck lr [rb rc rcl]].
  destruct (cy <=? 0) eqn:Hcy;
    destruct v1 as [n | s | b' | bs' | ty'], v2 as [c | d | b | bs | ty];
    destruct lr, rcl, (length rb <? rc)%nat eqn:Hroom;
    repeat (rewrite ?SetOption_maxsize, ?SetOption_cycle; chain_simp;
            rewrite ?Hcy, ?Hroom; chain_simp);
    try reflexivity;
    repeat match goal with
           | |- context [if ?x <=? 0 then _ else _] => destruct (x <=? 0)
           end;
    reflexivity.
Qed.

End OptionsAndCasts.

(* ================================================================== *)
(** ** Configuring an appender *)

Section Configure.

Context {A : Type} `{!appender.Appender A}.

Lemma configure_loop_cons p props ok log (app : A) :
  appender.configure_loop (p :: props) ok log app
  = '(err, app1) ← appender.SetOption (appender.Name p)
                     (l4g.VString (strings.Trim (appender.Value p) cutset_ws)) app;
    appender.configure_loop props (ok && negb (is_bad_value err))
                            (log ++ report_of (appender.Name p) err) app1.
Proof.
  cbn [appender.configure_loop].
  destruct (appender.SetOption _ _ app) as [[err app1] | |]; [| reflexivity ..].
  cbn [mbind Res_bind].
  destruct err as [[| | msg] |]; cbn [is_bad_value report_of negb];
    rewrite ?andb_true_r, ?andb_false_r, ?app_nil_r; reflexivity.
Qed.

Lemma configure_loop_acc props : forall ok log (app : A),
  appender.configure_loop props ok log app
  = '(ok', log', app') ← appender.configure_loop props true [] app;
    mret (ok && ok', log ++ log', app').
Proof.
  induction props as [| p props IH]; intros ok log app.
  - cbn. now rewrite andb_true_r, app_nil_r.
  - rewrite !configure_loop_cons.
    destruct (appender.SetOption _ _ app) as [[err app1] | |]; [| reflexivity ..].
    cbn [mbind Res_bind].
    rewrite (IH (ok && _) (log ++ _)), (IH (true && _) ([] ++ _)).
    destruct (appender.configure_loop props true [] app1) as [[[ok1 log1] app2] | |];
      [| reflexivity ..].
    cbn [mbind Res_bind mret Res_ret andb]. rewrite app_nil_l.
    now rewrite andb_assoc, app_assoc.
Qed.

Lemma AppenderConfigure_cons p props (app : A) :
  appender.AppenderConfigure app (p :: props)
  = '(err, app1) ← appender.SetOption (appender.Name p)
                     (l4g.VString (strings.Trim (appender.Value p) cutset_ws)) app;
    '(ok', log', app') ← appender.AppenderConfigure app1 props;
    mret (negb (is_bad_value err) && ok', report_of (appender.Name p) err ++ log', app').
Proof.
  unfold appender.AppenderConfigure. rewrite configure_loop_cons.
  destruct (appender.SetOption _ _ app) as [[err app1] | |]; [| reflexivity ..].
  cbn [mbind Res_bind]. now rewrite configure_loop_acc.
Qed.

Lemma configure_loop_app ps1 ps2 : forall ok log (app : A),
  appender.configure_loop (ps1 ++ ps2) ok log app
  = '(ok1, log1, app1) ← appender.configure_loop ps1 ok log app;
    appender.configure_loop ps2 ok1 log1 app1.
Proof.
  induction ps1 as [| p ps1 IH]; intros ok log app; [reflexivity |].
  change ((p :: ps1) ++ ps2) with (p :: (ps1 ++ ps2)).
  rewrite !configure_loop_cons.
  destruct (appender.SetOption _ _ app) as [[err app1] | |]; [| reflexivity ..].
  cbn [mbind Res_bind]. apply IH.
Qed.

(** PROPERTY X6: configuring with two property lists in a row is configuring
    with their concatenation: the appender goes through both, the lines
    written follow each other, and the result is true when both are. *)
Theorem AppenderConfigure_app ps1 ps2 (app : A) :
  appender.AppenderConfigure app (ps1 ++ ps2)
  = '(ok1, log1, app1) ← appender.AppenderConfigure app ps1;
    '(ok2, log2, app2) ← appender.AppenderConfigure app1 ps2;
    mret (ok1 && ok2, log1 ++ log2, app2).
Proof.
  unfold appender.AppenderConfigure. rewrite configure_loop_app.
  destruct (appender.configure_loop ps1 true [] app) as [[[ok1 log1] app1] | |];
    [| reflexivity ..].
  cbn [mbind Res_bind]. apply configure_loop_acc.
Qed.

(** PROPERTY X7: when [AppenderConfigure] returns, its result is true
    exactly when it wrote no line about a bad value: an unknown property is
    reported and does not make it false. Every line it wrote names a
    property of the list, and there are no more lines than properties. *)
Theorem AppenderConfigure_verdict props : forall (app : A) ok log app',
  appender.AppenderConfigure app props = Ret (ok, log, app') ->
  (ok = true <-> forall name, ~ In (appender.BadValueOf name) log)
  /\ (forall r, In r log ->
        exists p, In p props
                  /\ (r = appender.BadValueOf (appender.Name p)
                      \/ r = appender.UnknownProperty (appender.Name p)))
  /\ (length log <= length props)%nat.
Proof.
  induction props as [| p props IH]; intros app ok log app' Hc.
  - cbn in Hc. injection Hc as <- <- <-. repeat split; cbn; auto; try tauto; lia.
  - rewrite AppenderConfigure_cons in Hc.
    destruct (appender.SetOption _ _ app) as [[err app1] | |]; try discriminate.
    cbn [mbind Res_bind] in Hc.
    destruct (appender.AppenderConfigure app1 props) as [[[ok1 log1] app2] | |] eqn:E;
      try discriminate.
    cbn [mbind Res_bind mret Res_ret] in Hc. injection Hc as <- <- <-.
    destruct (IH _ _ _ _ E) as (Hok & Hin & Hlen).
    split; [| split].
    + rewrite andb_true_iff, Hok. split.
      * intros [Hb Hno] name Hi. apply in_app_or in Hi as [Hi | Hi].
        -- destruct err as [[| | msg] |]; cbn in Hb, Hi; try discriminate;
             intuition discriminate.
        -- exact (Hno name Hi).
      * intros Hno. split.
        -- destruct err as [[| | msg] |]; cbn; trivial.
           exfalso. apply (Hno (appender.Name p)). apply in_or_app. left. cbn. tauto.
        -- intros name Hi. apply (Hno name). apply in_or_app. now right.
    + intros r Hr. apply in_app_or in Hr as [Hr | Hr].
      * exists p. split; [now left |].
        destruct err as [[| | msg] |]; cbn in Hr; intuition.
      * destruct (Hin r Hr) as (q & Hq & Hrq). exists q. split; [now right | exact Hrq].
    + rewrite length_app. cbn [length].
      assert (length (report_of (appender.Name p) err) <= 1)%nat
        by (destruct err as [[| | msg] |]; cbn; lia).
      lia.
Qed.

End Configure.

(** ** Configuring a file appender *)

Section ConfigureFile.

Context {LogRecord L : Type} `{!l4g.Layout LogRecord L}.
Variable ParseDuration : string -> time.Duration * bool.
Variable MkdirAll : string -> option l4g.error.

Lemma SetOption_lenient name s now (fa : @FileAppender L) :
  In name lenient_options -> loopRunning fa = false ->
  exists fa', filelog.SetOption ParseDuration MkdirAll name (l4g.VString s) now fa
              = Ret (None, fa').
Proof.
  intros Hin Hrun.
  assert (Hpost : forall fa1 : @FileAppender L,
             loopRunning fa1 = loopRunning fa ->
             exists fa', post_reset now fa1 = Ret (None, fa')).
  { intros fa1 E. eexists. apply post_reset_returns. intros Hr. congruence. }
  unfold lenient_options in Hin. cbn [In] in Hin.
  destruct Hin as [<- | [<- | [<- | [<- | [<- | [<- | [<- | [<- | [<- | []]]]]]]]]].
  - eexists. reflexivity.
  - eexists. reflexivity.
  - rewrite SetOption_maxsize. eexists. reflexivity.
  - eexists. reflexivity.
  - eexists. reflexivity.
  - rewrite SetOption_cycle. apply Hpost. reflexivity.
  - rewrite (SetOption_clock _ _ "clock") by tauto. apply Hpost. reflexivity.
  - rewrite (SetOption_clock _ _ "delay0") by tauto. apply Hpost. reflexivity.
  - rewrite SetOption_daily_eq. cbv zeta.
    destruct (negb _); [apply Hpost; reflexivity | eexists; reflexivity].
Qed.

(** PROPERTY X8: a file appender whose loop does not run takes any string
    for the options [flush], [maxbackup], [maxsize], [head], [foot],
    [cycle], [clock], [delay0] and [daily]: configuring it with such
    properties returns true and reports nothing, whatever the values are;
    the queue and the history of the writer are left as they were. *)
Theorem AppenderConfigure_file_lenient now props : forall fa : @FileAppender L,
  Forall (fun p => In (appender.Name p) lenient_options) props ->
  loopRunning fa = false ->
  exists fa',
    @appender.AppenderConfigure _ (FileAppender_Appender ParseDuration MkdirAll now)
      fa props = Ret (true, [], fa')
    /\ loopRunning fa' = false /\ messages fa' = messages fa
    /\ rfw.calls (out fa') = rfw.calls (out fa).
Proof.
  induction props as [| p props IH]; intros fa Hall Hrun.
  - exists fa. repeat split; trivial.
  - inversion Hall as [| ? ? Hp Hall']; subst.
    rewrite AppenderConfigure_cons. cbn [appender.SetOption FileAppender_Appender].
    destruct (SetOption_lenient (appender.Name p)
                (strings.Trim (appender.Value p) cutset_ws) now fa Hp Hrun) as [fa1 E].
    rewrite E. cbn [mbind Res_bind].
    destruct (SetOption_frame _ _ _ _ _ _ _ _ E) as (Hm & Hr & Hc).
    destruct (IH fa1 Hall') as (fa' & -> & Hr' & Hm' & Hc'); [congruence |].
    exists fa'. repeat split; trivial; congruence.
Qed.

End ConfigureFile.

(* ================================================================== *)
(** ** Deadlines at a time of day *)







(* ================================================================== *)
(** ** The appender and its goroutines, over runs *)

Section Runs.

Context {LogRecord L : Type} `{!l4g.Layout LogRecord L}.
Variable ParseDuration : string -> time.Duration * bool.
Variable MkdirAll : string -> option l4g.error.

Abbreviation step' := (filelog.step ParseDuration MkdirAll).
Abbreviation run' := (filelog.run ParseDuration MkdirAll).

(** What a step does to the goroutines, to [loopRunning] and to the
    queue: it leaves the goroutines and [loopRunning] alone, or it is the
    [Init] that starts a goroutine, or it moves one live goroutine, which
    clears [loopRunning] if it returns; a closed queue stays closed. *)
Lemma step_shape a (s s' : @System L) :
  step' a s = Ret s' ->
  (closed (messages (appender s)) = true -> closed (messages (appender s')) = true)
  /\ ((tasks s' = tasks s /\ loopRunning (appender s') = loopRunning (appender s))
      \/ (loopRunning (appender s) = false /\ loopRunning (appender s') = true
          /\ exists t, tasks s' = tasks s ++ [t] /\ alive t = true)
      \/ (exists i t t',
            tasks s !! i = Some t /\ tasks s' = <[i := t']> (tasks s)
            /\ alive t = true
            /\ ((alive t' = true
                 /\ loopRunning (appender s') = loopRunning (appender s))
                \/ (alive t' = false /\ loopRunning (appender s') = false)))).
Proof.
  intros Hstep.
  destruct a as [rec | name v now | | i | | | i now1 now2 | i | i | i now1 now2
                 | i now1 now2];
    cbn [filelog.step] in Hstep.
  - apply on_app_inv in Hstep as (fa' & Hw & ->).
    unfold Write in Hw. apply bind_inv in Hw as (ch & Hs & Hw).
    cbv [mret Res_ret] in Hw. simplify_eq. unfold chan_send in Hs.
    destruct (closed (messages (appender s))) eqn:Hc; [discriminate |].
    split; [discriminate |]. left. split; reflexivity.
  - apply on_app_inv in Hstep as (fa' & Hw & ->).
    apply bind_inv in Hw as ([e fa1] & Hs & Hw).
    cbv [mret Res_ret] in Hw. simplify_eq. cbn [snd tasks appender].
    destruct (SetOption_frame _ _ _ _ _ _ _ _ Hs) as (Em & Er & Ec).
    split; [now rewrite Em |]. left. split; [reflexivity | exact Er].
  - cbv [mret Res_ret] in Hstep. simplify_eq. unfold Init.
    destruct (loopRunning (appender s)) eqn:Hr.
    + split; [trivial |]. left. split; [reflexivity | congruence].
    + cbn [tasks appender]. fields. split; [trivial |]. right. left.
      split; [congruence | split; [reflexivity |]]. eexists. split; reflexivity.
  - unfold Init_return in Hstep. destruct (tasks s !! i); [| discriminate].
    destruct (ready t); [| discriminate]. cbv [mret Res_ret] in Hstep. simplify_eq.
    split; [trivial |]. left. split; reflexivity.
  - apply on_app_inv in Hstep as (fa' & Hw & ->).
    unfold Close_begin in Hw. apply bind_inv in Hw as (ch & Hs & Hw).
    cbv [mret Res_ret] in Hw. simplify_eq. unfold chan_close in Hs.
    destruct (closed (messages (appender s))); [discriminate |]. simplify_eq.
    cbn [tasks appender]. fields. split; [reflexivity |]. left. split; reflexivity.
  - apply on_app_inv in Hstep as (fa' & Hw & ->).
    unfold Close_end in Hw. apply bind_inv in Hw as (ch & Hs & Hw).
    cbv [mret Res_ret] in Hw. simplify_eq.
    cbn [tasks appender]. fields. split; [trivial |]. left. split; reflexivity.
  - apply on_task_inv in Hstep as (t & fa' & t' & Hi & Hf & ->).
    apply writeLoop_start_inv in Hf as (Hp & Hp' & _ & _ & Hw & Hm & Hr).
    cbn [tasks appender]. split; [now rewrite Hm |]. right. right.
    exists i, t, t'. unfold alive. rewrite Hp, Hp'. intuition auto.
  - apply on_task_inv in Hstep as (t & fa' & t' & Hi & Hf & ->).
    apply writeLoop_recv_inv in Hf as (Hp & _ & _ & Ho & Hr & Hc & Hcase).
    cbn [tasks appender]. split; [now rewrite Hc |]. right. right.
    exists i, t, t'. unfold alive. rewrite Hp.
    destruct Hcase as [(x & _ & ->) | (_ & _ & _ & ->)]; intuition auto.
  - apply on_task_inv in Hstep as (t & fa' & t' & Hi & Hf & ->).
    apply writeLoop_write_inv in Hf as (bb & ok & Hp & _ & _ & Hc & Hok & Hnok).
    cbn [tasks appender]. split; [now rewrite Hc |]. right. right.
    exists i, t, t'. unfold alive. rewrite Hp. destruct ok.
    + destruct (Hok eq_refl) as (-> & _ & Hr & _). intuition auto.
    + destruct (Hnok eq_refl) as (-> & _ & _ & Hr & _). intuition auto.
  - apply on_task_inv in Hstep as (t & fa' & t' & Hi & Hf & ->).
    apply writeLoop_timer_inv in Hf as (Hp & Hp' & _ & _ & Hw & Hm & Hr).
    cbn [tasks appender]. split; [now rewrite Hm |]. right. right.
    exists i, t, t'. unfold alive. rewrite Hp, Hp'. intuition auto.
  - apply on_task_inv in Hstep as (t & fa' & t' & Hi & Hf & ->).
    apply writeLoop_reset_inv in Hf as (Hp & Hp' & _ & _ & Hw & Hm & Hr).
    cbn [tasks appender]. split; [now rewrite Hm |]. right. right.
    exists i, t, t'. unfold alive. rewrite Hp, Hp'. intuition auto.
Qed.

Lemma run_app tr1 : forall tr2 (s : @System L),
  run' (tr1 ++ tr2) s = s1 ← run' tr1 s; run' tr2 s1.
Proof.
  induction tr1 as [| a tr1 IH]; intros tr2 s; [reflexivity |].
  change ((a :: tr1) ++ tr2) with (a :: (tr1 ++ tr2)). cbn [filelog.run].
  destruct (step' a s) as [s1 | |]; [| reflexivity ..].
  cbn [mbind Res_bind]. apply IH.
Qed.

Lemma closed_run tr : forall (s s' : @System L),
  run' tr s = Ret s' ->
  closed (messages (appender s)) = true -> closed (messages (appender s')) = true.
Proof.
  induction tr as [| a tr IH]; intros s s' Hrun Hc.
  - cbv [filelog.run mret Res_ret] in Hrun. now simplify_eq.
  - apply run_cons_inv in Hrun as (s1 & Hstep & Hrun).
    apply (IH s1 s' Hrun). now apply (step_shape a s s1 Hstep).
Qed.



(** PROPERTY X12: [Close] is final for the queue: in every state a run
    reaches after the queue was closed, a [Write] panics and so does a
    second [Close], whatever happened in between. *)
Theorem closed_queue_stays_closed (s0 : @System L) tr1 tr2 s :
  run' (tr1 ++ ActCloseBegin :: tr2) s0 = Ret s ->
  closed (messages (appender s)) = true
  /\ (forall rec, step' (ActWrite rec) s = Panic)
  /\ step' ActCloseBegin s = Panic.
Proof.
  intros Hrun. rewrite run_app in Hrun.
  apply bind_inv in Hrun as (s1 & _ & Hrun).
  apply run_cons_inv in Hrun as (s2 & Hstep & Hrun).
  assert (Hc2 : closed (messages (appender s2)) = true).
  { cbn [filelog.step] in Hstep. apply on_app_inv in Hstep as (fa' & Hw & ->).
    unfold Close_begin in Hw. apply bind_inv in Hw as (ch & Hs & Hw).
    cbv [mret Res_ret] in Hw. simplify_eq. unfold chan_close in Hs.
    destruct (closed (messages (appender s1))); [discriminate |]. now simplify_eq. }
  pose proof (closed_run tr2 s2 s Hrun Hc2) as Hc.
  split; [exact Hc |]. split.
  - intros rec. cbn [filelog.step]. unfold on_app, Write, chan_send. now rewrite Hc.
  - cbn [filelog.step]. unfold on_app, Close_begin, chan_close. now rewrite Hc.
Qed.

(** One round of the loop on a queue that holds a message. *)
Lemma round_open (s : @System L) i t x rest :
  tasks s !! i = Some t -> pc t = PcSelect ->
  buf (messages (appender s)) = x :: rest ->
  exists s',
    run' (rounds i 1) s = Ret s'
    /\ tasks s' = <[i := mkTask PcSelect (ready t) (nrt t) (rotTimer t)]> (tasks s)
    /\ buf (messages (appender s')) = rest
    /\ rfw.calls (out (appender s'))
       = rfw.calls (out (appender s)) ++ rfw.CallWrite x
           :: match rest with [] => [rfw.CallFlush] | _ => [] end.
Proof.
  intros Hi Hp Hb. cbn [rounds filelog.run].
  rewrite (step_recv_some _ _ s i t x rest Hi Hp Hb). cbv [mbind Res_bind].
  cbn [filelog.step]. unfold on_task. cbn [tasks appender].
  rewrite list_lookup_insert_eq by (now apply lookup_lt_Some with t).
  unfold writeLoop_write. cbn [pc negb ready nrt rotTimer]. fields.
  unfold chan_len. cbn [buf mbind Res_bind mret Res_ret].
  rewrite list_insert_insert_eq.
  eexists. split; [reflexivity |]. cbn [tasks appender].
  split; [reflexivity |].
  destruct rest as [| y rest]; cbn [length].
  - change (Z.of_nat 0 <=? 0) with true. unfold rfw.Flush, rfw.Write. fields.
    split; [reflexivity |]. now rewrite <- app_assoc.
  - replace (Z.of_nat (S (length rest)) <=? 0) with false
      by (symmetry; apply Z.leb_gt; lia).
    unfold rfw.Write. fields. split; reflexivity.
Qed.

(** PROPERTY X13: a burst is flushed once: when the loop, alone, takes the
    messages the queue holds one after the other, the writer receives them
    in order, each in one [Write], and one [Flush] after the last of them.
    *)
Theorem burst_flushed_once msgs : forall (s : @System L) i t,
  tasks s !! i = Some t -> pc t = PcSelect -> msgs <> [] ->
  buf (messages (appender s)) = msgs ->
  exists s' t',
    run' (rounds i (length msgs)) s = Ret s'
    /\ tasks s' = <[i := t']> (tasks s) /\ pc t' = PcSelect
    /\ buf (messages (appender s')) = []
    /\ rfw.calls (out (appender s'))
       = rfw.calls (out (appender s)) ++ map rfw.CallWrite msgs ++ [rfw.CallFlush].
Proof.
  induction msgs as [| x rest IH]; intros s i t Hi Hp Hne Hb; [contradiction |].
  destruct (round_open s i t x rest Hi Hp Hb) as (s1 & Hr1 & Ht1 & Hb1 & Hc1).
  change (@rounds LogRecord i (length (x :: rest)))
    with (@rounds LogRecord i 1 ++ rounds i (length rest)).
  rewrite run_app, Hr1. cbn [mbind Res_bind].
  destruct rest as [| y rest].
  - cbn [length rounds filelog.run mret Res_ret]. eexists s1, _.
    split; [reflexivity |]. split; [exact Ht1 |]. split; [reflexivity |].
    split; [exact Hb1 |]. rewrite Hc1. reflexivity.
  - assert (Hi1 : tasks s1 !! i = Some (mkTask PcSelect (ready t) (nrt t) (rotTimer t))).
    { rewrite Ht1. apply list_lookup_insert_eq. now apply lookup_lt_Some with t. }
    destruct (IH s1 i _ Hi1 eq_refl) as (s' & t' & Hrun & Ht & Hp' & Hb' & Hc');
      [discriminate | exact Hb1 |].
    exists s', t'. split; [exact Hrun |].
    split; [now rewrite Ht, Ht1, list_insert_insert_eq |].
    split; [exact Hp' |]. split; [exact Hb' |].
    rewrite Hc', Hc1. cbn [map app]. now rewrite <- app_assoc.
Qed.

End Runs.

(* ================================================================== *)
(** ** Loading a configuration *)

Section Loading.

Context {A : Type} `{!appender.Appender A}.
Variable SILENT : Z.
Variable GetLevel : string -> Z.
Variable GetAppenderNewFunc : string -> option (unit -> option A).
Variable ToLower : string -> string.

Abbreviation loadAppender' := (config.loadAppender SILENT GetAppenderNewFunc).
Abbreviation load_filter' :=
  (config.load_filter SILENT GetLevel GetAppenderNewFunc ToLower).
Abbreviation load_filters' :=
  (config.load_filters SILENT GetLevel GetAppenderNewFunc ToLower).
Abbreviation LoadConfiguration' :=
  (config.LoadConfiguration SILENT GetLevel GetAppenderNewFunc ToLower).

Lemma ParseBool_failed s : snd (cast.ParseBool s) = true -> fst (cast.ParseBool s) = false.
Proof.
  unfold cast.ParseBool.
  destruct (existsb _ _); [discriminate |]. now destruct (existsb _ _).
Qed.

(** The filter as it is after the defaults of its tag and type. *)
Lemma load_filter_eq fc :
  load_filter' fc
  = if skipped fc then Ret []
    else
      let level := GetLevel (config.Level fc) in
      if String.eqb (loaded_type ToLower fc) "loglog"
      then Ret (config.loadLogLog SILENT level (config.Pattern fc))
      else if String.eqb (loaded_type ToLower fc) "stdout"
      then Ret (config.loadStdout SILENT level (config.Pattern fc))
      else
        app ← loadAppender' level (loaded_type ToLower fc) (config.Properties fc);
        match app with
        | Some app => Ret [config.FiltersAdd (loaded_tag fc) level app]
        | None => Ret []
        end.
Proof.
  unfold config.load_filter, skipped, loaded_type, loaded_tag.
  destruct (String.eqb (config.Tag fc) "") eqn:Et,
           (String.eqb (config.Type_ fc) "") eqn:Ey;
    cbn [andb orb]; try reflexivity;
    cbn [config.Enabled config.Tag config.Type_ config.Level config.Pattern
         config.Properties cast.ToBool];
    pose proof (ParseBool_failed (config.Enabled fc)) as Hf;
    destruct (cast.ParseBool (config.Enabled fc)) as [b failed];
    cbn [fst snd] in *;
    destruct failed; [rewrite Hf by reflexivity; reflexivity | | 
                      rewrite Hf by reflexivity; reflexivity | |
                      rewrite Hf by reflexivity; reflexivity | ];
    destruct b; reflexivity.
Qed.

Lemma load_filters_app fs1 fs2 :
  load_filters' (fs1 ++ fs2)
  = e1 ← load_filters' fs1; e2 ← load_filters' fs2; mret (e1 ++ e2).
Proof.
  induction fs1 as [| fc fs1 IH].
  - cbn. destruct (load_filters' fs2); reflexivity.
  - change ((fc :: fs1) ++ fs2) with (fc :: (fs1 ++ fs2)).
    cbn [config.load_filters]. rewrite IH.
    destruct (load_filter' fc) as [e | |]; [| reflexivity ..]. cbn [mbind Res_bind].
    destruct (load_filters' fs1) as [e1 | |]; [| reflexivity ..]. cbn [mbind Res_bind].
    destruct (load_filters' fs2) as [e2 | |]; [| reflexivity ..].
    cbn [mbind Res_bind mret Res_ret]. now rewrite app_assoc.
Qed.

Lemma load_filters_In fcs : forall es eff,
  load_filters' fcs = Ret es -> In eff es ->
  exists fc e, In fc fcs /\ load_filter' fc = Ret e /\ In eff e.
Proof.
  induction fcs as [| fc fcs IH]; intros es eff Hl Hin.
  - cbn in Hl. injection Hl as <-. contradiction.
  - cbn [config.load_filters] in Hl.
    destruct (load_filter' fc) as [e | |] eqn:E; try discriminate.
    cbn [mbind Res_bind] in Hl.
    destruct (load_filters' fcs) as [es1 | |] eqn:E1; try discriminate.
    cbn [mbind Res_bind mret Res_ret] in Hl. injection Hl as <-.
    apply in_app_or in Hin as [Hin | Hin].
    + exists fc, e. split; [now left | split; [exact E | exact Hin]].
    + destruct (IH es1 eff eq_refl Hin) as (fc' & e' & H1 & H2 & H3).
      exists fc', e'. split; [now right | split; assumption].
Qed.

Lemma load_filter_effects fc e eff :
  load_filter' fc = Ret e -> In eff e ->
  let level := GetLevel (config.Level fc) in
  skipped fc = false
  /\ match eff with
     | config.LogSetFilters => False
     | config.FiltersAdd tag lv app =>
         tag = loaded_tag fc /\ lv = level /\ level < SILENT
         /\ loaded_type ToLower fc <> "loglog" /\ loaded_type ToLower fc <> "stdout"
         /\ exists newFunc app0,
              GetAppenderNewFunc (loaded_type ToLower fc) = Some newFunc
              /\ newFunc tt = Some app0
              /\ config.set_properties (config.Properties fc) app0 = Ret app
     | config.LogLogSetLevel lv =>
         loaded_type ToLower fc = "loglog" /\ lv = level /\ level < SILENT
     | config.LogLogSetPattern p =>
         loaded_type ToLower fc = "loglog" /\ p = config.Pattern fc /\ p <> ""
         /\ level < SILENT
     | config.LogSetOutputNil =>
         loaded_type ToLower fc = "stdout" /\ SILENT <= level
     | config.LogSetLevel lv =>
         loaded_type ToLower fc = "stdout" /\ lv = level /\ level < SILENT
     | config.LogSetPattern p =>
         loaded_type ToLower fc = "stdout" /\ p = config.Pattern fc /\ p <> ""
         /\ level < SILENT
     end.
Proof.
  rewrite load_filter_eq. destruct (skipped fc); [intros [= <-] [] |].
  cbv zeta. intros He Hin. split; [reflexivity |].
  destruct (String.eqb_spec (loaded_type ToLower fc) "loglog") as [El | El].
  { injection He as <-. unfold config.loadLogLog in Hin.
    destruct (Z.leb_spec SILENT (GetLevel (config.Level fc))); [contradiction |].
    destruct (String.eqb_spec (config.Pattern fc) ""); cbn [negb In] in Hin;
      intuition (subst; auto). }
  destruct (String.eqb_spec (loaded_type ToLower fc) "stdout") as [Es | Es].
  { injection He as <-. unfold config.loadStdout in Hin.
    destruct (Z.leb_spec SILENT (GetLevel (config.Level fc)));
      [cbn [In] in Hin; intuition (subst; auto) |].
    destruct (String.eqb_spec (config.Pattern fc) ""); cbn [negb In] in Hin;
      intuition (subst; auto). }
  unfold config.loadAppender in He.
  destruct (Z.leb_spec SILENT (GetLevel (config.Level fc))) as [Hs | Hs].
  { cbn in He. injection He as <-. contradiction. }
  destruct (GetAppenderNewFunc (loaded_type ToLower fc)) as [newFunc |] eqn:Eg;
    [| cbn in He; injection He as <-; contradiction].
  destruct (newFunc tt) as [app0 |] eqn:En;
    [| cbn in He; injection He as <-; contradiction].
  destruct (config.set_properties (config.Properties fc) app0) as [app | |] eqn:Ep;
    try discriminate.
  cbn [mbind Res_bind mret Res_ret] in He. injection He as <-.
  destruct Hin as [<- | []].
  repeat split; trivial. exists newFunc, app0. repeat split; assumption.
Qed.

(** PROPERTY X14: without a configuration or without filters, loading does
    nothing; with filters, when it returns, it has replaced the filters of
    the logger once, as its last call. *)
Theorem LoadConfiguration_sets_filters_last lc es :
  LoadConfiguration' (Some lc) = Ret es ->
  LoadConfiguration' None = Ret []
  /\ (config.Filters lc = [] -> es = [])
  /\ (config.Filters lc <> [] ->
      exists es', es = es' ++ [config.LogSetFilters]
                  /\ ~ In config.LogSetFilters es').
Proof.
  intros Hl. split; [reflexivity |]. unfold config.LoadConfiguration in Hl.
  destruct (config.Filters lc) as [| fc fcs] eqn:Ef.
  - cbn in Hl. injection Hl as <-. split; [reflexivity | congruence].
  - split; [discriminate |]. intros _.
    destruct (Z.leb_spec (Z.of_nat (length (fc :: fcs))) 0) as [Hlen | _];
      [cbn [length] in Hlen; lia |].
    destruct (load_filters' (fc :: fcs)) as [es' | |] eqn:E; try discriminate.
    cbn [mbind Res_bind mret Res_ret] in Hl. injection Hl as <-.
    exists es'. split; [reflexivity |]. intros Hin.
    destruct (load_filters_In _ _ _ E Hin) as (fc' & e & _ & He & Hi).
    now destruct (load_filter_effects fc' e _ He Hi) as [_ []].
Qed.

(** PROPERTY X15: an appender is added only for a filter that is enabled,
    whose level is below [SILENT] and whose type is neither [loglog] nor
    [stdout]: it is added under the tag of the filter, or under its type
    when the tag is missing, and it is the appender the registry makes for
    the type with the properties of the filter set in order. *)
Theorem LoadConfiguration_adds lc es tag level app :
  LoadConfiguration' (Some lc) = Ret es ->
  In (config.FiltersAdd tag level app) es ->
  exists fc,
    In fc (config.Filters lc)
    /\ cast.ToBool (l4g.VString (config.Enabled fc)) = (true, None)
    /\ tag = loaded_tag fc /\ tag <> ""
    /\ level = GetLevel (config.Level fc) /\ level < SILENT
    /\ loaded_type ToLower fc <> "loglog" /\ loaded_type ToLower fc <> "stdout"
    /\ exists newFunc app0,
         GetAppenderNewFunc (loaded_type ToLower fc) = Some newFunc
         /\ newFunc tt = Some app0
         /\ config.set_properties (config.Properties fc) app0 = Ret app.
Proof.
  intros Hl Hin. unfold config.LoadConfiguration in Hl.
  destruct (Z.of_nat (length (config.Filters lc)) <=? 0).
  { cbn in Hl. injection Hl as <-. contradiction. }
  destruct (load_filters' (config.Filters lc)) as [es' | |] eqn:E; try discriminate.
  cbn [mbind Res_bind mret Res_ret] in Hl. injection Hl as <-.
  apply in_app_or in Hin as [Hin | [Hin | []]]; [| discriminate].
  destruct (load_filters_In _ _ _ E Hin) as (fc & e & Hfc & He & Hi).
  destruct (load_filter_effects fc e _ He Hi) as (Hsk & -> & -> & Hlv & Hn1 & Hn2 & Hreg).
  exists fc. unfold skipped in Hsk. apply orb_false_iff in Hsk as [Hname Hen].
  apply negb_false_iff in Hen.
  repeat split; trivial.
  - cbn [cast.ToBool]. pose proof (ParseBool_failed (config.Enabled fc)) as Hf.
    destruct (cast.ParseBool (config.Enabled fc)) as [b failed]. cbn [fst snd] in *.
    subst b. destruct failed; [specialize (Hf eq_refl); discriminate | reflexivity].
  - unfold loaded_tag. intros Ht.
    destruct (String.eqb_spec (config.Tag fc) "") as [E1 | E1].
    + rewrite Ht in Hname. cbn in Hname. discriminate.
    + contradiction.
Qed.

(** PROPERTY X16: the filters of type [loglog] and [stdout] reach the
    internal logger and the logger itself, and nothing else does: a call on
    the internal logger comes from an enabled filter of type [loglog] with a
    level below [SILENT]; a call that sets the level or the pattern of the
    logger from an enabled filter of type [stdout] with such a level; the
    output of the logger is removed only for an enabled filter of type
    [stdout] with a level of [SILENT] or above; a pattern is set only when
    the filter has one. *)
Theorem LoadConfiguration_builtin lc es eff :
  LoadConfiguration' (Some lc) = Ret es -> In eff es ->
  match eff with
  | config.LogSetFilters | config.FiltersAdd _ _ _ => True
  | _ =>
      exists fc,
        In fc (config.Filters lc) /\ skipped fc = false
        /\ let level := GetLevel (config.Level fc) in
           match eff with
           | config.LogLogSetLevel lv =>
               loaded_type ToLower fc = "loglog" /\ lv = level /\ level < SILENT
           | config.LogLogSetPattern p =>
               loaded_type ToLower fc = "loglog" /\ p = config.Pattern fc
               /\ p <> "" /\ level < SILENT
           | config.LogSetOutputNil =>
               loaded_type ToLower fc = "stdout" /\ SILENT <= level
           | config.LogSetLevel lv =>
               loaded_type ToLower fc = "stdout" /\ lv = level /\ level < SILENT
           | config.LogSetPattern p =>
               loaded_type ToLower fc = "stdout" /\ p = config.Pattern fc
               /\ p <> "" /\ level < SILENT
           | _ => True
           end
  end.
Proof.
  intros Hl Hin. unfold config.LoadConfiguration in Hl.
  destruct (Z.of_nat (length (config.Filters lc)) <=? 0).
  { cbn in Hl. injection Hl as <-. contradiction. }
  destruct (load_filters' (config.Filters lc)) as [es' | |] eqn:E; try discriminate.
  cbn [mbind Res_bind mret Res_ret] in Hl. injection Hl as <-.
  apply in_app_or in Hin as [Hin | [<- | []]]; [| exact I].
  destruct (load_filters_In _ _ _ E Hin) as (fc & e & Hfc & He & Hi).
  pose proof (load_filter_effects fc e eff He Hi) as Heff. cbv zeta in Heff.
  destruct Heff as [Hsk Heff].
  destruct eff; trivial; exists fc; (split; [exact Hfc | split; [exact Hsk | exact Heff]]).
Qed.

Lemma skipped_load_filter fc : skipped fc = true -> load_filter' fc = Ret [].
Proof. intros Hs. now rewrite load_filter_eq, Hs. Qed.

Lemma load_filters_skip fs1 fc fs2 :
  skipped fc = true -> load_filters' (fs1 ++ fc :: fs2) = load_filters' (fs1 ++ fs2).
Proof.
  intros Hs. rewrite !load_filters_app. cbn [config.load_filters].
  rewrite (skipped_load_filter fc Hs). cbn [mbind Res_bind].
  destruct (load_filters' fs1) as [e1 | |]; [| reflexivity ..]. cbn [mbind Res_bind].
  destruct (load_filters' fs2) as [e2 | |]; reflexivity.
Qed.

(** PROPERTY X17: a filter without tag and type, or whose attribute
    [enabled] is not a spelling of true, counts for nothing beside other
    filters: the configuration loads as without it. It still counts as a
    filter: a configuration of such filters only replaces the filters of the
    logger by none, where a configuration without filters leaves them. *)
Theorem LoadConfiguration_skips fs1 fc fs2 :
  skipped fc = true ->
  (fs1 ++ fs2 <> [] ->
   LoadConfiguration' (Some (config.mkLoggerConfig (fs1 ++ fc :: fs2)))
   = LoadConfiguration' (Some (config.mkLoggerConfig (fs1 ++ fs2))))
  /\ (Forall (fun fc' => skipped fc' = true) (fs1 ++ fs2) ->
      LoadConfiguration' (Some (config.mkLoggerConfig (fs1 ++ fc :: fs2)))
      = Ret [config.LogSetFilters]).
Proof.
  intros Hs.
  assert (Hlen : (Z.of_nat (length (fs1 ++ fc :: fs2)) <=? 0) = false).
  { apply Z.leb_gt. rewrite length_app. cbn [length]. lia. }
  unfold config.LoadConfiguration. cbn [config.Filters]. rewrite Hlen. split.
  - intros Hne.
    assert (Hlen' : (Z.of_nat (length (fs1 ++ fs2)) <=? 0) = false).
    { apply Z.leb_gt. destruct (fs1 ++ fs2); [contradiction | cbn [length]; lia]. }
    rewrite Hlen'. now rewrite load_filters_skip.
  - intros Hall. rewrite load_filters_skip by assumption.
    assert (E : load_filters' (fs1 ++ fs2) = Ret []).
    { induction Hall as [| fc' fcs Hfc' _ IH]; [reflexivity |].
      cbn [config.load_filters]. now rewrite (skipped_load_filter fc' Hfc'), IH. }
    now rewrite E.
Qed.

(** PROPERTY X18: [loadAppender] sets the properties of a filter as
    [AppenderConfigure] sets the same list: it leaves the appender that
    [AppenderConfigure] leaves, and blocks or panics when it does; the
    verdict and the lines of [AppenderConfigure] have no counterpart. *)
Theorem set_properties_as_AppenderConfigure props : forall app : A,
  config.set_properties props app
  = r ← appender.AppenderConfigure app (map to_prop props); mret (snd r).
Proof.
  induction props as [| p props IH]; intros app; [reflexivity |].
  cbn [map]. rewrite AppenderConfigure_cons. cbn [config.set_properties].
  cbn [to_prop appender.Name appender.Value].
  destruct (appender.SetOption _ _ app) as [[err app1] | |]; [| reflexivity ..].
  cbn [mbind Res_bind]. rewrite IH.
  destruct (appender.AppenderConfigure app1 (map to_prop props))
    as [[[ok log] app2] | |]; reflexivity.
Qed.

End Loading.

(* ================================================================== *)
(** ** Rotation and reconfiguration over runs *)

Section Modes.

Context {LogRecord L : Type} `{!l4g.Layout LogRecord L}.
Variable ParseDuration : string -> time.Duration * bool.
Variable MkdirAll : string -> option l4g.error.

Abbreviation step'' := (filelog.step ParseDuration MkdirAll).
Abbreviation run'' := (filelog.run ParseDuration MkdirAll).

Lemma rotations_fold bbs : forall w,
  rfw.rotations (rfw.calls (fold_left (fun w bb => rfw.Write bb w) bbs w))
  = rfw.rotations (rfw.calls w).
Proof.
  induction bbs as [| bb bbs IH]; intros w; cbn [fold_left]; [reflexivity |].
  rewrite IH. unfold rfw.Write, rfw.record. cbn [rfw.calls].
  rewrite rotations_app. cbn [rfw.rotations]. lia.
Qed.

Lemma rotations_snoc cs c :
  c <> rfw.CallRotate ->
  rfw.rotations (cs ++ [c]) = rfw.rotations cs.
Proof.
  intros Hc. rewrite rotations_app. destruct c; cbn [rfw.rotations]; try lia.
  contradiction.
Qed.

(** One step with a cycle that is not positive: the cycle stays, and no
    [Rotate] is called. *)
Lemma size_mode_step a (s s' : @System L) :
  step'' a s = Ret s' ->
  (forall name v now, a <> ActSetOption name v now) ->
  cycle (appender s) <= 0 ->
  cycle (appender s') = cycle (appender s)
  /\ rfw.rotations (rfw.calls (out (appender s')))
     = rfw.rotations (rfw.calls (out (appender s))).
Proof.
  intros Hstep Hno Hcy.
  assert (Hlt : (0 <? cycle (appender s)) = false) by (apply Z.ltb_ge; lia).
  destruct a as [rec | name v now | | i | | | i now1 now2 | i | i | i now1 now2
                 | i now1 now2];
    cbn [filelog.step] in Hstep.
  - apply on_app_inv in Hstep as (fa' & Hw & ->).
    unfold Write in Hw. apply bind_inv in Hw as (ch & Hs & Hw).
    cbv [mret Res_ret] in Hw. simplify_eq. split; reflexivity.
  - now destruct (Hno name v now).
  - cbv [mret Res_ret] in Hstep. simplify_eq. unfold Init.
    destruct (loopRunning (appender s)); split; reflexivity.
  - unfold Init_return in Hstep. destruct (tasks s !! i); [| discriminate].
    destruct (ready t); [| discriminate]. cbv [mret Res_ret] in Hstep. simplify_eq.
    split; reflexivity.
  - apply on_app_inv in Hstep as (fa' & Hw & ->).
    unfold Close_begin in Hw. apply bind_inv in Hw as (ch & Hs & Hw).
    cbv [mret Res_ret] in Hw. simplify_eq. split; reflexivity.
  - apply on_app_inv in Hstep as (fa' & Hw & ->).
    unfold Close_end in Hw. apply bind_inv in Hw as (ch & Hs & Hw).
    cbv [mret Res_ret] in Hw. simplify_eq. cbn [appender]. fields.
    split; [reflexivity |]. unfold rfw.Close. fields.
    now apply rotations_snoc.
  - apply on_task_inv in Hstep as (t & fa' & t' & Hi & Hf & ->).
    unfold writeLoop_start in Hf. destruct (pc t); try discriminate.
    rewrite Hlt in Hf. cbn [andb] in Hf. cbv [mret Res_ret] in Hf. simplify_eq.
    split; reflexivity.
  - apply on_task_inv in Hstep as (t & fa' & t' & Hi & Hf & ->).
    unfold writeLoop_recv in Hf. destruct (pc t); try discriminate.
    apply bind_inv in Hf as ([[bb ok] ch] & Hs & Hf).
    cbv [mret Res_ret] in Hf. simplify_eq. split; reflexivity.
  - apply on_task_inv in Hstep as (t & fa' & t' & Hi & Hf & ->).
    unfold writeLoop_write in Hf. destruct (pc t) as [| | bb ok |]; try discriminate.
    cbn [appender].
    assert (Hw : forall fa : @FileAppender L,
               let fa1 := set_out (rfw.Write bb (out fa)) fa in
               let fa2 := if chan_len (messages fa1) <=? 0
                          then set_out (rfw.Flush (out fa1)) fa1 else fa1 in
               cycle fa2 = cycle fa
               /\ rfw.rotations (rfw.calls (out fa2)) = rfw.rotations (rfw.calls (out fa))).
    { intros fa. cbv zeta. fields. destruct (chan_len (messages fa) <=? 0); fields;
        unfold rfw.Flush, rfw.Write; fields; split; trivial;
        rewrite ?rotations_snoc by discriminate; reflexivity. }
    specialize (Hw (appender s)). cbv zeta in Hw. destruct Hw as [Hw1 Hw2].
    destruct ok; cbn [negb] in Hf.
    + cbv [mret Res_ret] in Hf. simplify_eq. split; assumption.
    + apply bind_inv in Hf as (fa1 & Hd & Hf). cbv [mret Res_ret] in Hf. simplify_eq.
      unfold drain in Hd. destruct (closed _); [| discriminate].
      cbv [mret Res_ret] in Hd. simplify_eq. fields.
      split; [assumption |]. now rewrite rotations_fold.
  - apply on_task_inv in Hstep as (t & fa' & t' & Hi & Hf & ->).
    unfold writeLoop_timer in Hf. destruct (pc t); try discriminate.
    rewrite Hlt in Hf. cbn [andb] in Hf. cbv [mret Res_ret] in Hf. simplify_eq.
    split; reflexivity.
  - apply on_task_inv in Hstep as (t & fa' & t' & Hi & Hf & ->).
    unfold writeLoop_reset in Hf. destruct (pc t); try discriminate.
    apply bind_inv in Hf as ([[x ok] ch] & Hs & Hf).
    cbv [mret Res_ret] in Hf. simplify_eq. split; reflexivity.
Qed.

(** PROPERTY X19: with a cycle that is not positive the appender never calls
    [Rotate] itself: over a run without [SetOption], whatever is written and
    whenever the timer fires, the history of the writer gains no rotation
    (the writer rotates by its own threshold). *)
Theorem size_mode_never_rotates tr : forall (s s' : @System L),
  run'' tr s = Ret s' ->
  (forall name v now, ~ In (ActSetOption name v now) tr) ->
  cycle (appender s) <= 0 ->
  cycle (appender s') = cycle (appender s)
  /\ rfw.rotations (rfw.calls (out (appender s')))
     = rfw.rotations (rfw.calls (out (appender s))).
Proof.
  induction tr as [| a tr IH]; intros s s' Hrun Hno Hcy.
  - cbv [filelog.run mret Res_ret] in Hrun. simplify_eq. split; reflexivity.
  - apply run_cons_inv in Hrun as (s1 & Hstep & Hrun).
    destruct (size_mode_step a s s1 Hstep) as [E1 E2]; [| exact Hcy |].
    { intros name v now ->. apply (Hno name v now). now left. }
    destruct (IH s1 s' Hrun) as [E3 E4].
    { intros name v now Hin. apply (Hno name v now). now right. }
    { now rewrite E1. }
    split; congruence.
Qed.


End Modes.

(** ** A new appender *)

Section NewAppender.

Context {LogRecord L : Type} `{!l4g.Layout LogRecord L}.
Variable NewPatternLayout : L.
Variable NewRotateFileWriter : string -> rfw.RotateFileWriter.
Variable LogBufferLength : nat.
Variable ParseDuration : string -> time.Duration * bool.
Variable MkdirAll : string -> option l4g.error.

(** PROPERTY X21: a new appender has no loop and an empty queue. Started,
    its loop rotates at once exactly when the size its new writer reports is
    positive, and sets its first deadline 24 hours after the time it reads;
    [Init] then returns. *)
Theorem new_appender_start filename maxbackup now1 now2 :
  let s0 := filelog.boot NewPatternLayout NewRotateFileWriter LogBufferLength
              filename maxbackup in
  quiescent s0
  /\ exists s' t,
      filelog.run ParseDuration MkdirAll
        [ActInit; ActLoopStart 0 now1 now2; ActInitReturn 0] s0 = Ret s'
      /\ tasks s' = [t] /\ pc t = PcSelect /\ loopRunning (appender s') = true
      /\ nrt t = time.Add now1 (86400 * time.Second)
      /\ rotTimer t = Some (time.Sub (nrt t) now2)
      /\ rfw.calls (out (appender s'))
         = rfw.calls (NewRotateFileWriter filename)
           ++ (if 0 <? rfw.Size (NewRotateFileWriter filename)
               then [rfw.CallRotate] else []).
Proof.
  cbv zeta. split; [repeat split; reflexivity |].
  unfold filelog.boot, filelog.NewAppender.
  cbn [filelog.run filelog.step mbind Res_bind mret Res_ret]. unfold Init.
  cbn [appender tasks loopRunning app mbind Res_bind].
  unfold on_task. cbn [tasks lookup list_lookup appender].
  unfold writeLoop_start. cbn [pc]. fields. unfold rfw.Size. fields.
  change (0 <? 86400) with true. cbn [andb].
  cbn [mbind Res_bind mret Res_ret]. unfold Init_return.
  cbn [tasks list_insert insert lookup list_lookup ready mbind Res_bind mret Res_ret].
  eexists _, _. split; [reflexivity |]. cbn [tasks appender pc nrt rotTimer].
  split; [reflexivity |]. split; [reflexivity |].
  destruct (0 <? rfw.size (NewRotateFileWriter filename)); fields;
    repeat split; try (now rewrite app_nil_r).
Qed.

End NewAppender.

(* ================================================================== *)
(** ** The further properties on the examples *)

(** X3 on a fresh appender: [maxsize] given as " 10M ". *)
Lemma SetOption_stores_casts_witness :
  exists fa',
    example.SetOption "maxsize" (l4g.VString " 10M ") example.t0 example.fresh
    = Ret (None, fa')
    /\ maxsize fa' = 10485760.
Proof.
  destruct (example.SetOption "maxsize" (l4g.VString " 10M ") example.t0 example.fresh)
    as [[e fa'] | |] eqn:E; try (vm_compute in E; discriminate E).
  destruct (SetOption_stores_casts example.ParseDuration example.MkdirAll
              "maxsize" (l4g.VString " 10M ") example.t0 example.fresh e fa' E)
    as (Hm & _).
  destruct (Hm eq_refl) as [_ Hv].
  assert (He : e = None) by (vm_compute in E; now injection E as <- _).
  subst e. destruct Hv as [_ Hv]; [discriminate |].
  exists fa'. split; [reflexivity |]. rewrite Hv. vm_compute. reflexivity.
Defined.

(** X4 on a fresh appender: ["0"], which [ToBool] reads as false. *)
Lemma daily_differs_from_ToBool_witness :
  cast.ToBool (l4g.VString "0") = (false, None)
  /\ exists fa',
      example.SetOption "daily" (l4g.VString "0") example.t0 example.fresh
      = Ret (None, fa')
      /\ cycle fa' = 86400 /\ clock fa' = 0.
Proof.
  split; [reflexivity |].
  assert (Hp : can_post example.fresh) by (intros Hr; discriminate Hr).
  assert (Hs : "0" <> "false") by discriminate.
  destruct (daily_differs_from_ToBool example.ParseDuration example.MkdirAll
              "0" false example.t0 example.fresh eq_refl Hs Hp)
    as (fa' & E & Hc & Hk & _).
  exists fa'. repeat split; assumption.
Defined.

(** X7 on a fresh file appender: a good value, an unknown name and an
    empty file name. *)
Lemma AppenderConfigure_verdict_witness :
  exists log fa',
    @appender.AppenderConfigure _ scenario.file_appender example.fresh
      scenario.mixed_props = Ret (false, log, fa')
    /\ log = [appender.UnknownProperty "colour"; appender.BadValueOf "filename"]
    /\ (length log <= length scenario.mixed_props)%nat.
Proof.
  destruct (@appender.AppenderConfigure _ scenario.file_appender example.fresh
              scenario.mixed_props) as [[[ok log] fa'] | |] eqn:E;
    try (vm_compute in E; discriminate E).
  destruct (AppenderConfigure_verdict scenario.mixed_props example.fresh ok log fa' E)
    as (_ & _ & Hlen).
  assert (Hv : ok = false
               /\ log = [appender.UnknownProperty "colour";
                         appender.BadValueOf "filename"]).
  { vm_compute in E. injection E as <- <- _. split; reflexivity. }
  destruct Hv as [-> Hlog]. exists log, fa'. repeat split; assumption.
Defined.

(** X8 on a fresh file appender: values no parser reads. *)
Lemma AppenderConfigure_file_lenient_witness :
  Forall (fun p => In (appender.Name p) lenient_options) scenario.odd_props
  /\ exists fa',
      @appender.AppenderConfigure _
        (FileAppender_Appender example.ParseDuration example.MkdirAll example.t0)
        example.fresh scenario.odd_props = Ret (true, [], fa')
      /\ loopRunning fa' = false.
Proof.
  assert (Hall : Forall (fun p => In (appender.Name p) lenient_options)
                        scenario.odd_props).
  { repeat constructor; unfold lenient_options; cbn; tauto. }
  split; [exact Hall |].
  destruct (AppenderConfigure_file_lenient example.ParseDuration example.MkdirAll
              example.t0 scenario.odd_props example.fresh Hall eq_refl)
    as (fa' & E & Hr & _).
  exists fa'. split; assumption.
Defined.




(** X12 on a started appender: a record after [Close]. *)
Lemma closed_queue_stays_closed_witness :
  exists s,
    example.run (scenario.burst ++ ActCloseBegin :: [ActLoopRecv 0])
                (example.boot "app.log" 3) = Ret s
    /\ example.step (ActWrite "late") s = Panic.
Proof.
  destruct (example.run (scenario.burst ++ ActCloseBegin :: [ActLoopRecv 0])
                        (example.boot "app.log" 3))
    as [s | |] eqn:Hrun; try (vm_compute in Hrun; discriminate Hrun).
  destruct (closed_queue_stays_closed example.ParseDuration example.MkdirAll
              (example.boot "app.log" 3) scenario.burst [ActLoopRecv 0] s Hrun)
    as (_ & Hw & _).
  exists s. split; [reflexivity | apply Hw].
Defined.

(** X13 on a started appender with two records in its queue. *)
Lemma burst_flushed_once_witness :
  exists s s',
    example.run scenario.burst (example.boot "app.log" 3) = Ret s
    /\ example.run (rounds 0 2) s = Ret s'
    /\ rfw.calls (out (appender s'))
       = [rfw.CallWrite (list_byte_of_string "first");
          rfw.CallWrite (list_byte_of_string "second"); rfw.CallFlush].
Proof.
  destruct (example.run scenario.burst (example.boot "app.log" 3))
    as [s | |] eqn:Hrun; try (vm_compute in Hrun; discriminate Hrun).
  assert (Hs : exists t, tasks s !! 0%nat = Some t /\ pc t = PcSelect
                         /\ buf (messages (appender s))
                            = [list_byte_of_string "first"; list_byte_of_string "second"]
                         /\ rfw.calls (out (appender s)) = []).
  { vm_compute in Hrun. injection Hrun as <-. eexists. repeat split. }
  destruct Hs as (t & Hi & Hp & Hb & Hc).
  assert (Hne : [list_byte_of_string "first"; list_byte_of_string "second"] <> [])
    by discriminate.
  destruct (burst_flushed_once example.ParseDuration example.MkdirAll
              [list_byte_of_string "first"; list_byte_of_string "second"]
              s 0%nat t Hi Hp Hne Hb)
    as (s' & t' & Hr & _ & _ & _ & Hcalls).
  exists s, s'. split; [reflexivity |]. split; [exact Hr |].
  rewrite Hcalls, Hc. reflexivity.
Defined.

(** X14 on the configuration of three filters. *)
Lemma LoadConfiguration_sets_filters_last_witness :
  exists es es',
    scenario.LoadConfiguration (Some scenario.lc) = Ret es
    /\ es = es' ++ [config.LogSetFilters]
    /\ length es = 3%nat.
Proof.
  destruct (scenario.LoadConfiguration (Some scenario.lc)) as [es | |] eqn:E;
    try (vm_compute in E; discriminate E).
  destruct (LoadConfiguration_sets_filters_last scenario.SILENT scenario.GetLevel
              scenario.GetAppenderNewFunc scenario.ToLower scenario.lc es E)
    as (_ & _ & Hlast).
  destruct Hlast as (es' & Hes & _); [discriminate |].
  exists es, es'. split; [reflexivity |]. split; [exact Hes |].
  vm_compute in E. now injection E as <-.
Defined.

(** X15 on the configuration of three filters: the file appender. *)
Lemma LoadConfiguration_adds_witness :
  exists es app fc,
    scenario.LoadConfiguration (Some scenario.lc) = Ret es
    /\ In (config.FiltersAdd "file" 4 app) es
    /\ maxsize app = 10485760 /\ cycle app = 3600
    /\ In fc (config.Filters scenario.lc) /\ loaded_tag fc = "file".
Proof.
  destruct (scenario.LoadConfiguration (Some scenario.lc)) as [es | |] eqn:E;
    try (vm_compute in E; discriminate E).
  assert (Hin : exists app, In (config.FiltersAdd "file" 4 app) es
                            /\ maxsize app = 10485760 /\ cycle app = 3600).
  { vm_compute in E. injection E as <-. eexists. split; [right; left; reflexivity |].
    split; reflexivity. }
  destruct Hin as (app & Hin & Hm & Hc).
  destruct (LoadConfiguration_adds scenario.SILENT scenario.GetLevel
              scenario.GetAppenderNewFunc scenario.ToLower scenario.lc es
              "file" 4 app E Hin) as (fc & Hfc & _ & Htag & _).
  exists es, app, fc. repeat split; trivial. now symmetry.
Defined.

(** X17 on the configuration of three filters: the one switched off. *)
Lemma LoadConfiguration_skips_witness :
  skipped scenario.audit = true
  /\ scenario.LoadConfiguration
       (Some (config.mkLoggerConfig
                ([scenario.console] ++ scenario.audit :: [scenario.logfile])))
     = scenario.LoadConfiguration
         (Some (config.mkLoggerConfig ([scenario.console] ++ [scenario.logfile]))).
Proof.
  assert (Hs : skipped scenario.audit = true) by reflexivity.
  split; [exact Hs |].
  destruct (@LoadConfiguration_skips _ scenario.file_appender scenario.SILENT
              scenario.GetLevel scenario.GetAppenderNewFunc scenario.ToLower
              [scenario.console] scenario.audit [scenario.logfile] Hs) as (Hsame & _).
  apply Hsame. discriminate.
Defined.

(** X19 on a session with the cycle set to zero. *)
Lemma size_mode_never_rotates_witness :
  exists s s',
    example.run [ActSetOption "cycle" (l4g.VInt 0) example.t0]
                (example.boot "app.log" 3) = Ret s
    /\ example.run scenario.by_size s = Ret s'
    /\ cycle (appender s) = 0
    /\ rfw.rotations (rfw.calls (out (appender s'))) = 0%nat.
Proof.
  destruct (example.run [ActSetOption "cycle" (l4g.VInt 0) example.t0]
                        (example.boot "app.log" 3))
    as [s | |] eqn:Hrun; try (vm_compute in Hrun; discriminate Hrun).
  destruct (example.run scenario.by_size s) as [s' | |] eqn:Hrun';
    try (vm_compute in Hrun; injection Hrun as <-; vm_compute in Hrun';
         discriminate Hrun').
  assert (Hc : cycle (appender s) = 0 /\ rfw.rotations (rfw.calls (out (appender s))) = 0%nat).
  { vm_compute in Hrun. injection Hrun as <-. split; reflexivity. }
  destruct Hc as [Hc Hrot].
  assert (Hno : forall name v now, ~ In (ActSetOption name v now) scenario.by_size).
  { intros name v now Hin. cbn in Hin. intuition discriminate. }
  destruct (size_mode_never_rotates example.ParseDuration example.MkdirAll
              scenario.by_size s s' Hrun' Hno) as (_ & Hsame); [lia |].
  exists s, s'. repeat split; trivial. now rewrite Hsame.
Defined.


(** X16 on the configuration of three filters: the console. *)
Lemma LoadConfiguration_builtin_witness :
  exists es fc,
    scenario.LoadConfiguration (Some scenario.lc) = Ret es
    /\ In (config.LogSetLevel 2) es
    /\ In fc (config.Filters scenario.lc)
    /\ loaded_type scenario.ToLower fc = "stdout".
Proof.
  destruct (scenario.LoadConfiguration (Some scenario.lc)) as [es | |] eqn:E;
    try (vm_compute in E; discriminate E).
  assert (Hin : In (@config.LogSetLevel (@FileAppender example.EchoLayout) 2) es).
  { vm_compute in E. injection E as <-. left. reflexivity. }
  destruct (LoadConfiguration_builtin scenario.SILENT scenario.GetLevel
              scenario.GetAppenderNewFunc scenario.ToLower scenario.lc es
              (config.LogSetLevel 2) E Hin) as (fc & Hfc & _ & Hty & _).
  exists es, fc. repeat split; assumption.
Defined.
